(** * bigstream.align: a shallow embedding of the alignment stages

    Source: [src/bigstream/align.py].  The module orchestrates four
    registration stages (feature-point RANSAC, random affine search,
    gradient affine/rigid refinement, B-spline deformable refinement) and
    a pipeline composer.

    Modelling conventions.
    - Python control flow is kept: a function that can raise returns a
      [result]; [try ... except Exception] is [try_except].
    - Numbers.  Where the module computes with floats and the rounding
      decides what it returns (lines 459, 825 and 1044), the numbers are
      binary64 floats with the arithmetic of the machine: the entries of
      an array, [diagonal_constraint], [control_point_spacing] and the
      spacing that SimpleITK reports.  Spacings, origins, spot
      coordinates, intensities, blob sizes and metric values are
      rationals ([Q]): the module compares them, copies them and hands
      them on, and where it subtracts or multiplies them the exact value
      stands for the rounded one.  The sampled parameter table of
      [random_affine_search] goes through [np.log] and [np.e ** _]: it
      holds real numbers extended by the infinities and NaN, and the
      arithmetic on its finite entries is exact, so that an entry of the
      model is the value that the program's entry is the rounding of.
    - Code that lives outside [align.py] (bigstream.utility,
      bigstream.features, bigstream.transform, bigstream.metrics,
      configure_irm, SimpleITK, OpenCV) is a field of a record of
      collaborators.  A collaborator is a total function unless the
      source guards it or a claim speaks about its failure; then it
      returns a [result]. *)

From Stdlib Require Import Floats.
From Stdlib Require Import String Bool ZArith QArith Qround Qabs Reals Lia Lra.
From Stdlib Require Import Permutation Sorted List.
Import ListNotations.
Local Open Scope Z_scope.

(* ================================================================== *)
(** * Python: exceptions and results *)
(* ================================================================== *)

Module Py.

(** The exceptions that the modelled code can meet.  They are all
    subclasses of [Exception]. *)
Inductive exn : Type :=
| ValueError
| IndexError
| KeyError
| TypeError
| ZeroDivisionError
| OverflowError
| AttributeError
| EngineError (msg : string).

Inductive result (A : Type) : Type :=
| Ok (a : A)
| Raise (e : exn).
Arguments Ok {A} a.
Arguments Raise {A} e.

Definition bind {A B : Type} (c : result A) (k : A -> result B) : result B :=
  match c with
  | Ok a => k a
  | Raise e => Raise e
  end.

(** [try: c  except Exception as e: h e] *)
Definition try_except {A : Type} (c : result A) (h : exn -> result A) : result A :=
  match c with
  | Ok a => Ok a
  | Raise e => h e
  end.

(** [for x in xs: ys.append(f x)], stopping at the first exception. *)
Fixpoint mapM {A B : Type} (f : A -> result B) (xs : list A) : result (list B) :=
  match xs with
  | [] => Ok []
  | x :: xs' =>
      bind (f x) (fun y => bind (mapM f xs') (fun ys => Ok (y :: ys)))
  end.

(** [len(xs)] *)
Definition len {A : Type} (xs : list A) : Z := Z.of_nat (length xs).

(** [xs[a:b]] for list indices (negative indices count from the end, both
    ends are clamped). *)
Definition clamp_index (n i : Z) : Z :=
  if i <? 0 then Z.max 0 (n + i) else Z.min n i.

Definition slice {A : Type} (xs : list A) (a b : Z) : list A :=
  let n := len xs in
  let lo := clamp_index n a in
  let hi := clamp_index n b in
  firstn (Z.to_nat (hi - lo)) (skipn (Z.to_nat lo) xs).

(** [xs[:k]] *)
Definition slice_to {A : Type} (xs : list A) (k : Z) : list A := slice xs 0 k.

(** [int(q)]: truncation toward zero. *)
Definition int (q : Q) : Z := Z.quot (Qnum q) (Z.pos (Qden q)).

(** [x < y] on floats *)
Definition ltb (x y : Q) : bool := negb (Qle_bool y x).

End Py.
Import Py.

Declare Scope py_scope.
Delimit Scope py_scope with py.
Notation "x <- c ;; k" := (Py.bind c (fun x => k))
  (at level 61, c at next level, right associativity) : py_scope.
Notation "' p <- c ;; k" := (Py.bind c (fun x => let p := x in k))
  (at level 61, p pattern, c at next level, right associativity) : py_scope.
Local Open Scope py_scope.

(* ================================================================== *)
(** * binary64 floats *)
(* ================================================================== *)

Module F64.

(** A Python number that is a float: a [float] of Python itself, or a
    [numpy.float64], which is a subclass of it.  The two differ in what
    a division by zero does. *)
Inductive number : Type :=
| PyFloat (f : float)
| NpFloat64 (f : float).

Definition value (x : number) : float :=
  match x with
  | PyFloat f => f
  | NpFloat64 f => f
  end.

(** The float nearest to an integer (ties to even, infinite past the
    largest float). *)
Definition of_Z (z : Z) : float :=
  SF2Prim (binary_normalize prec emax z 0 false).

(** [float(n)], as Python converts an [int] operand of a float
    operation: an [OverflowError] past the largest float. *)
Definition of_int (n : Z) : result float :=
  let f := of_Z n in
  if is_infinity f then Raise OverflowError else Ok f.

(** The signed mantissa of a finite float [(-1)^s * m * 2^e]. *)
Definition mantissa (s : bool) (m : positive) : Z :=
  if s then Z.neg m else Z.pos m.

(** [int(f)]: the integer part, toward zero; NaN is a [ValueError] and
    an infinity an [OverflowError]. *)
Definition int (f : float) : result Z :=
  match Prim2SF f with
  | S754_nan => Raise ValueError
  | S754_infinity _ => Raise OverflowError
  | S754_zero _ => Ok 0
  | S754_finite s m e =>
      Ok (if 0 <=? e then mantissa s m * 2 ^ e
          else Z.quot (mantissa s m) (2 ^ (- e)))
  end.

(** [math.floor(f)] of a finite float. *)
Definition floor (f : float) : option Z :=
  match Prim2SF f with
  | S754_zero _ => Some 0
  | S754_finite s m e =>
      Some (if 0 <=? e then mantissa s m * 2 ^ e
            else Z.div (mantissa s m) (2 ^ (- e)))
  | _ => None
  end.

(** [round(f)] of a finite float: the nearest integer, ties to the even
    one. *)
Definition round (f : float) : option Z :=
  match Prim2SF f with
  | S754_zero _ => Some 0
  | S754_finite s m e =>
      Some (if 0 <=? e then mantissa s m * 2 ^ e
            else let d := 2 ^ (- e) in
                 let q := Z.div (mantissa s m) d in
                 let r := mantissa s m - q * d in
                 match 2 * r ?= d with
                 | Lt => q
                 | Gt => q + 1
                 | Eq => if Z.even q then q else q + 1
                 end)
  | _ => None
  end.

(** The rational number that a finite float is. *)
Definition to_Q (f : float) : option Q :=
  match Prim2SF f with
  | S754_zero _ => Some 0%Q
  | S754_finite s m e =>
      Some (if 0 <=? e then inject_Z (mantissa s m * 2 ^ e)
            else Qmake (mantissa s m) (Z.to_pos (2 ^ (- e))))
  | _ => None
  end.

End F64.

(* ================================================================== *)
(** * The numpy operations the module relies on *)
(* ================================================================== *)

Module Np.

(** An n-dimensional array: its shape and its entries in row-major
    order.  Images, masks, affine matrices and displacement fields are
    all [ndarray]s, as in the source. *)
Record ndarray : Type := mk_ndarray { shape : list Z; data : list float }.

(** [a.ndim] *)
Definition ndim (a : ndarray) : Z := len (shape a).

(** One row of [np.eye(n)]. *)
Definition eye_row (n i : nat) : list float :=
  map (fun j => if Nat.eqb i j then 1%float else 0%float) (seq 0 n).

(** The number of entries of an array of a given shape. *)
Definition size (s : list Z) : nat :=
  fold_right (fun x acc => (Z.to_nat x * acc)%nat) 1%nat s.

(** [np.eye(n)] *)
Definition eye (n : Z) : ndarray :=
  let k := Z.to_nat n in
  mk_ndarray [n; n] (flat_map (eye_row k) (seq 0 k)).

Fixpoint shape_eqb (s t : list Z) : bool :=
  match s, t with
  | [], [] => true
  | x :: s', y :: t' => (x =? y) && shape_eqb s' t'
  | _, _ => false
  end.

(** The shape that two shapes broadcast to.  The shapes are taken last
    axis first: the axes are aligned at the last one, a missing axis and
    an axis of length 1 stretch, any other pair of lengths must agree. *)
Fixpoint broadcast_rev (s t : list Z) : option (list Z) :=
  match s, t with
  | [], _ => Some t
  | _, [] => Some s
  | x :: s', y :: t' =>
      match broadcast_rev s' t' with
      | None => None
      | Some r =>
          if x =? y then Some (x :: r)
          else if x =? 1 then Some (y :: r)
          else if y =? 1 then Some (x :: r)
          else None
      end
  end.

(** The position, in the row-major entries of an array of the shape [s],
    of the entry that the index [idx] of the broadcast shape reads (shape
    and index last axis first): an axis of length 1 is read at 0 and an
    axis that the array lacks is not read at all. *)
Fixpoint offset_rev (s : list Z) (idx : list nat) : nat :=
  match s, idx with
  | x :: s', i :: idx' =>
      ((if (x =? 1)%Z then 0 else i) + Z.to_nat x * offset_rev s' idx')%nat
  | _, _ => 0%nat
  end.

(** All the indices of a shape (last axis first), in row-major order. *)
Fixpoint indices_rev (r : list Z) : list (list nat) :=
  match r with
  | [] => [[]]
  | x :: r' =>
      flat_map (fun rest => map (fun i => i :: rest) (seq 0 (Z.to_nat x)))
               (indices_rev r')
  end.

(** [a[idx]] under broadcasting. *)
Definition read (a : ndarray) (idx : list nat) : float :=
  nth (offset_rev (rev (shape a)) idx) (data a) 0%float.

(** [np.all(a == b)]: the arrays are broadcast against each other and
    compared entry by entry, as floats are compared (NaN differs from
    itself).  Shapes that cannot be broadcast are a [ValueError] (up to
    numpy 1.24 the comparison warned and answered [False]). *)
Definition all_equal (a b : ndarray) : result bool :=
  match broadcast_rev (rev (shape a)) (rev (shape b)) with
  | None => Raise ValueError
  | Some r =>
      Ok (forallb (fun idx => (read a idx =? read b idx)%float) (indices_rev r))
  end.

(** [np.diag(a)]: the main diagonal of a 2-d array, the diagonal matrix
    of a 1-d array, [ValueError] for any other rank. *)
Definition diag (a : ndarray) : result ndarray :=
  match shape a with
  | [r; c] =>
      let k := Z.to_nat (Z.min r c) in
      Ok (mk_ndarray [Z.of_nat k]
            (map (fun i => nth (i * Z.to_nat c + i) (data a) 0%float) (seq 0 k)))
  | [n] =>
      let k := Z.to_nat n in
      Ok (mk_ndarray [n; n]
            (flat_map (fun i => map (fun j => if Nat.eqb i j
                                              then nth i (data a) 0%float
                                              else 0%float) (seq 0 k))
                      (seq 0 k)))
  | _ => Raise ValueError
  end.

(** [np.any(np.abs(d - 1) > c)], in float arithmetic: the difference
    is rounded, and no comparison with NaN holds. *)
Definition any_abs_minus_one_gt (d : ndarray) (c : float) : bool :=
  existsb (fun x => (c <? abs (x - 1))%float) (data d).

(** Insertion of an index into a list of indices sorted by key; an index
    goes after the indices of equal key, so that the sort is stable. *)
Fixpoint insert_by (key : nat -> Q) (i : nat) (sorted : list nat) : list nat :=
  match sorted with
  | [] => [i]
  | j :: rest =>
      if Py.ltb (key i) (key j) then i :: j :: rest
      else j :: insert_by key i rest
  end.

(** [np.argsort(keys)]: the indices that sort [keys] in ascending order.
    numpy leaves the order of equal keys open for its default sort; the
    model takes the stable order, which is one of the admissible ones. *)
Definition argsort (keys : list Q) : list nat :=
  let key := fun i => nth i keys 0%Q in
  fold_left (fun acc i => insert_by key i acc) (seq 0 (length keys)) [].

(** [np.argpartition(a, kth)]: for a non-empty [a], [kth] must satisfy
    [-len(a) <= kth < len(a)], otherwise numpy raises
    [ValueError: kth(=k) out of bounds (n)].  The result is a permutation
    of the indices with the [kth]-smallest element in its sorted place;
    the order inside the two parts is open, and the model takes the fully
    sorted permutation, which is one of the admissible ones. *)
Definition argpartition (a : list Q) (kth : Z) : result (list nat) :=
  let n := len a in
  let k := if kth <? 0 then kth + n else kth in
  if negb (n =? 0) && ((k <? 0) || (n <=? k)) then Raise ValueError
  else Ok (argsort a).

(** [xs[idx]] for an array of indices [idx] (all in range here). *)
Definition take {A : Type} (xs : list A) (idx : list nat) : list A :=
  flat_map (fun i => match nth_error xs i with
                     | Some x => [x]
                     | None => []
                     end) idx.

(** [np.array(tuples, dtype=object)] for a list of shape tuples: when all
    tuples have one length the result is a 2-d array with one row per
    tuple; otherwise it is a 1-d array whose entries are the tuples. *)
Inductive shape_array : Type :=
| Rows2D (rows : list (list Z))
| Tuples1D (ts : list (list Z)).

Definition same_length (ss : list (list Z)) : bool :=
  match ss with
  | [] => true
  | s :: rest => forallb (fun t => Nat.eqb (length t) (length s)) rest
  end.

Definition array_of_shapes (ss : list (list Z)) : shape_array :=
  if same_length ss then Rows2D ss else Tuples1D ss.

(** The pairs [(shapes[:-1][i], shapes[1:][i])]. *)
Definition adjacent {A : Type} (xs : list A) : list (A * A) :=
  combine (removelast xs) (tl xs).

(** Row [i] of the elementwise [u != v] for two rows of one length. *)
Definition row_neq (u v : list Z) : list bool :=
  map (fun p => negb (fst p =? snd p)) (combine u v).

(** [np.where(shapes[:-1] != shapes[1:])[0]]: for a 1-d array the
    positions where adjacent entries differ; for a 2-d array the row
    index of every entry that differs, so a row index is repeated once
    per differing column. *)
Definition where_adjacent_differ (sa : shape_array) : list Z :=
  match sa with
  | Tuples1D ts =>
      flat_map (fun ip => if shape_eqb (fst (snd ip)) (snd (snd ip))
                          then [] else [Z.of_nat (fst ip)])
               (combine (seq 0 (length ts)) (adjacent ts))
  | Rows2D rows =>
      flat_map (fun ip =>
                  flat_map (fun (b : bool) => if b then [Z.of_nat (fst ip)] else [])
                           (row_neq (fst (snd ip)) (snd (snd ip))))
               (combine (seq 0 (length rows)) (adjacent rows))
  end.

(** A real number as an array of floats can hold it: finite, one of the
    two infinities, or NaN.  The arithmetic is that of the floats on the
    infinities and on NaN and exact on the finite numbers. *)
Inductive xreal : Type :=
| Fin (r : R)
| PosInf
| NegInf
| NaN.

Definition xopp (a : xreal) : xreal :=
  match a with
  | Fin x => Fin (- x)
  | PosInf => NegInf
  | NegInf => PosInf
  | NaN => NaN
  end.

(** An infinity times a finite number. *)
Definition inf_times (positive : bool) (x : R) : xreal :=
  if Rlt_dec 0 x then (if positive then PosInf else NegInf)
  else if Rlt_dec x 0 then (if positive then NegInf else PosInf)
  else NaN.

Definition xmul (a b : xreal) : xreal :=
  match a, b with
  | NaN, _ | _, NaN => NaN
  | Fin x, Fin y => Fin (x * y)
  | Fin x, PosInf | PosInf, Fin x => inf_times true x
  | Fin x, NegInf | NegInf, Fin x => inf_times false x
  | PosInf, PosInf | NegInf, NegInf => PosInf
  | PosInf, NegInf | NegInf, PosInf => NegInf
  end.

Definition xadd (a b : xreal) : xreal :=
  match a, b with
  | NaN, _ | _, NaN => NaN
  | Fin x, Fin y => Fin (x + y)
  | PosInf, NegInf | NegInf, PosInf => NaN
  | PosInf, _ | _, PosInf => PosInf
  | NegInf, _ | _, NegInf => NegInf
  end.

Definition xsub (a b : xreal) : xreal := xadd a (xopp b).

(** [np.e ** a] *)
Definition xexp (a : xreal) : xreal :=
  match a with
  | Fin x => Fin (exp x)
  | PosInf => PosInf
  | NegInf => Fin 0
  | NaN => NaN
  end.

(** [np.log(a)]: NaN below zero, minus infinity at zero. *)
Definition xlog (a : xreal) : xreal :=
  match a with
  | Fin x =>
      if Rlt_dec 0 x then Fin (ln x)
      else if Rlt_dec x 0 then NaN
      else NegInf
  | PosInf => PosInf
  | NegInf => NaN
  | NaN => NaN
  end.

End Np.
Import Np.

(* ================================================================== *)
(** * Keyword arguments *)
(* ================================================================== *)

Module Kw.

(** A Python object as it occurs in a keyword-argument dictionary. *)
Inductive pyobj : Type :=
| PNone
| PBool (b : bool)
| PInt (z : Z)
| PFloat (q : Q)
| PStr (s : string)
| PVector (v : list Q)
| PArray (a : ndarray)
| PArrays (l : list ndarray)
| PEmptyDict.

Definition dict : Type := list (string * pyobj).

(** [d[k] = v]: an existing key keeps its place, a new key goes last. *)
Fixpoint set (d : dict) (k : string) (v : pyobj) : dict :=
  match d with
  | [] => [(k, v)]
  | (k', v') :: rest =>
      if String.eqb k k' then (k, v) :: rest else (k', v') :: set rest k v
  end.

(** The merge of two dictionaries in which the entries of [b] win. *)
Definition merge (a b : dict) : dict :=
  fold_left (fun acc kv => set acc (fst kv) (snd kv)) b a.

(** [d.get(k)]: the value bound to [k], [None] for a key that is not
    there.  This is also how a call that unpacks [d] as keyword arguments binds
    the parameter [k]. *)
Fixpoint get (d : dict) (k : string) : option pyobj :=
  match d with
  | [] => None
  | (k', v) :: rest => if String.eqb k k' then Some v else get rest k
  end.

(** The keys of a dictionary, in order.  A Python dictionary holds each
    key once. *)
Definition keys (d : dict) : list string := map fst d.

Definition of_option_array (m : option ndarray) : pyobj :=
  match m with
  | Some a => PArray a
  | None => PNone
  end.

Definition of_option_vector (m : option (list Q)) : pyobj :=
  match m with
  | Some v => PVector v
  | None => PNone
  end.

End Kw.

(* ================================================================== *)
(** * Collaborators *)
(* ================================================================== *)

(** The state of the registration-method object that [configure_irm]
    returns, as far as the module sets it.  [irm_transform] is the
    transform attached with [inPlace=True]: the Python variable
    [transform] and the engine share it, so [Execute] is modelled as
    returning its new value, which is stored back here. *)
Record irm_state (cfg img tr : Type) : Type := mk_irm {
  irm_config : cfg;
  irm_transform : option tr;
  irm_scale_factors : option (list Z);
  irm_moving_initial : option tr;
  irm_fixed_mask : option img;
  irm_moving_mask : option img
}.
Arguments mk_irm {cfg img tr}.
Arguments irm_config {cfg img tr}.
Arguments irm_transform {cfg img tr}.
Arguments irm_scale_factors {cfg img tr}.
Arguments irm_moving_initial {cfg img tr}.
Arguments irm_fixed_mask {cfg img tr}.
Arguments irm_moving_mask {cfg img tr}.

(** A 2-d array of feature points, one row per point. *)
Definition spots : Type := list (list Q).

(** Everything the module imports.  The field names are the names used
    in the source. *)
Record Env : Type := {
  (* SimpleITK objects *)
  sitk_image : Type;
  sitk_transform : Type;
  irm_cfg : Type;
  contexts : Type;
  (* bigstream.utility *)
  relative_spacing : ndarray -> ndarray -> list Q -> list Q;
  skip_sample : ndarray -> list Q -> Q -> ndarray * list Q;
  numpy_to_sitk : ndarray -> list Q -> option (list Q) -> sitk_image;
  transform_list_to_composite_transform :
    list ndarray -> list (list Q) -> list (option (list Q)) -> sitk_transform;
  matrix_to_affine_transform : ndarray -> sitk_transform;
  matrix_to_euler_transform : ndarray -> sitk_transform;
  affine_transform_to_matrix : sitk_transform -> ndarray;
  bspline_to_displacement_field :
    sitk_transform -> list Z -> list Q -> option (list Q) -> ndarray -> ndarray;
  (* a row of the parameter table (extended real numbers, see above)
     and the center of rotation; the result is a float64 matrix *)
  physical_parameters_to_affine_matrix_3d : list xreal -> list Q -> ndarray;
  (* bigstream.transform; the reference image and the spacings are
     optional because the source can hand over a missing mask *)
  apply_transform :
    option ndarray -> ndarray -> option (list Q) -> option (list Q) ->
    list ndarray ->
    option (list Q) -> option (list Q) ->
    option (list (list Q)) -> option (list (option (list Q))) ->
    option string -> ndarray;
  compose_transform_list : list ndarray -> list Q -> result ndarray;
  (* bigstream.metrics *)
  patch_mutual_information :
    ndarray -> ndarray -> list Q -> option ndarray -> option ndarray ->
    Kw.dict -> result Q;
  (* bigstream.features *)
  blob_detection : ndarray -> Q -> Q -> Kw.dict -> spots;
  get_contexts : ndarray -> spots -> Z -> contexts;
  pairwise_correlation : contexts -> contexts -> ndarray;
  match_points : spots -> spots -> ndarray -> Q -> option Q -> spots * spots;
  (* cv2: (retval, out, inliers); [out] is [None] when no model is found *)
  estimateAffine3D :
    spots -> spots -> Q -> Q -> Kw.dict -> Z * option ndarray * option ndarray;
  (* SimpleITK *)
  Cast_sitkFloat32 : sitk_image -> sitk_image;
  GetSize : sitk_image -> list Z;
  GetSpacing : sitk_image -> list float;
  GetDimension : sitk_image -> Z;
  Euler2DTransform : option sitk_transform -> sitk_transform;
  Euler3DTransform : option sitk_transform -> sitk_transform;
  AffineTransform : Z -> sitk_transform;
  CenteredTransformInitializer :
    sitk_image -> sitk_image -> sitk_transform -> sitk_transform;
  GetTranslation : sitk_transform -> list float;
  BSplineTransformInitializer : sitk_image -> list Z -> Z -> sitk_transform;
  GetFixedParameters : sitk_transform -> list Q;
  GetParameters : sitk_transform -> list Q;
  (* the metric engine *)
  configure_irm : Kw.dict -> irm_cfg;
  MetricEvaluate :
    irm_state irm_cfg sitk_image sitk_transform ->
    sitk_image -> sitk_image -> result Q;
  Execute :
    irm_state irm_cfg sitk_image sitk_transform ->
    sitk_image -> sitk_image -> result sitk_transform
}.

Definition irm (E : Env) : Type :=
  irm_state (irm_cfg E) (sitk_image E) (sitk_transform E).

(** A fresh engine, as [configure_irm] returns it. *)
Definition new_irm (E : Env) (kwargs : Kw.dict) : irm E :=
  mk_irm (configure_irm E kwargs) None None None None None.

Definition SetInitialTransform {E : Env} (m : irm E) (t : sitk_transform E) : irm E :=
  mk_irm (irm_config m) (Some t) None (irm_moving_initial m)
         (irm_fixed_mask m) (irm_moving_mask m).

Definition SetInitialTransformAsBSpline {E : Env} (m : irm E)
  (t : sitk_transform E) (scaleFactors : list Z) : irm E :=
  mk_irm (irm_config m) (Some t) (Some scaleFactors) (irm_moving_initial m)
         (irm_fixed_mask m) (irm_moving_mask m).

Definition SetMovingInitialTransform {E : Env} (m : irm E) (t : sitk_transform E) : irm E :=
  mk_irm (irm_config m) (irm_transform m) (irm_scale_factors m) (Some t)
         (irm_fixed_mask m) (irm_moving_mask m).

Definition SetMetricFixedMask {E : Env} (m : irm E) (k : sitk_image E) : irm E :=
  mk_irm (irm_config m) (irm_transform m) (irm_scale_factors m)
         (irm_moving_initial m) (Some k) (irm_moving_mask m).

Definition SetMetricMovingMask {E : Env} (m : irm E) (k : sitk_image E) : irm E :=
  mk_irm (irm_config m) (irm_transform m) (irm_scale_factors m)
         (irm_moving_initial m) (irm_fixed_mask m) (Some k).

(** The engine after a successful [Execute]: the attached transform has
    been updated in place. *)
Definition with_transform {E : Env} (m : irm E) (t : sitk_transform E) : irm E :=
  mk_irm (irm_config m) (Some t) (irm_scale_factors m) (irm_moving_initial m)
         (irm_fixed_mask m) (irm_moving_mask m).

(** [if fix_mask is not None: irm.SetMetricFixedMask(fix_mask)] and the
    same for the moving mask. *)
Definition set_masks {E : Env} (m : irm E)
  (fix_mask mov_mask : option (sitk_image E)) : irm E :=
  let m1 := match fix_mask with
            | Some k => SetMetricFixedMask m k
            | None => m
            end in
  match mov_mask with
  | Some k => SetMetricMovingMask m1 k
  | None => m1
  end.

(* ================================================================== *)
(** * Helpers shared by the stages (align.py, lines 12-199) *)
(* ================================================================== *)

(** The 8-tuple returned by [apply_alignment_spacing]. *)
Record sampled : Type := mk_sampled {
  s_fix : ndarray;
  s_mov : ndarray;
  s_fix_mask : option ndarray;
  s_mov_mask : option ndarray;
  s_fix_spacing : list Q;
  s_mov_spacing : list Q;
  s_fix_mask_spacing : option (list Q);
  s_mov_mask_spacing : option (list Q)
}.

(** Truth value of [alignment_spacing]: [None] and [0.0] are false. *)
Definition truthy_float (x : option Q) : option Q :=
  match x with
  | Some q => if Qeq_bool q 0 then None else Some q
  | None => None
  end.

(** [x, s = ut.skip_sample(x, s, alignment_spacing)] for an optional mask
    with its optional spacing. *)
Definition skip_sample_mask (E : Env) (mask : option ndarray)
  (spacing : option (list Q)) (a : Q) : option ndarray * option (list Q) :=
  match mask, spacing with
  | Some k, Some s =>
      let r := skip_sample E k s a in (Some (fst r), Some (snd r))
  | _, _ => (mask, spacing)
  end.

Definition apply_alignment_spacing (E : Env) (fix_ mov : ndarray)
  (fix_mask mov_mask : option ndarray) (fix_spacing mov_spacing : list Q)
  (alignment_spacing : option Q) : sampled :=
  (* get mask spacings *)
  let fix_mask_spacing :=
    option_map (fun k => relative_spacing E k fix_ fix_spacing) fix_mask in
  let mov_mask_spacing :=
    option_map (fun k => relative_spacing E k mov mov_spacing) mov_mask in
  (* skip sample *)
  match truthy_float alignment_spacing with
  | Some a =>
      let f := skip_sample E fix_ fix_spacing a in
      let m := skip_sample E mov mov_spacing a in
      let fm := skip_sample_mask E fix_mask fix_mask_spacing a in
      let mm := skip_sample_mask E mov_mask mov_mask_spacing a in
      mk_sampled (fst f) (fst m) (fst fm) (fst mm)
                 (snd f) (snd m) (snd fm) (snd mm)
  | None =>
      mk_sampled fix_ mov fix_mask mov_mask
                 fix_spacing mov_spacing fix_mask_spacing mov_mask_spacing
  end.

(** The 4-tuple returned by [images_to_sitk]. *)
Record sitk_images (E : Env) : Type := mk_sitk_images {
  i_fix : sitk_image E;
  i_mov : sitk_image E;
  i_fix_mask : option (sitk_image E);
  i_mov_mask : option (sitk_image E)
}.
Arguments mk_sitk_images {E}.
Arguments i_fix {E}.
Arguments i_mov {E}.
Arguments i_fix_mask {E}.
Arguments i_mov_mask {E}.

(** [ut.numpy_to_sitk(mask, mask_spacing, origin=origin)] for a mask that
    is there; a mask that is there has a spacing. *)
Definition mask_to_sitk (E : Env) (mask : option ndarray)
  (spacing : option (list Q)) (origin : option (list Q)) : option (sitk_image E) :=
  match mask with
  | Some k =>
      Some (numpy_to_sitk E k (match spacing with Some s => s | None => [] end) origin)
  | None => None
  end.

Definition images_to_sitk (E : Env) (X : sampled)
  (fix_origin mov_origin : option (list Q)) : sitk_images E :=
  mk_sitk_images
    (Cast_sitkFloat32 E (numpy_to_sitk E (s_fix X) (s_fix_spacing X) fix_origin))
    (Cast_sitkFloat32 E (numpy_to_sitk E (s_mov X) (s_mov_spacing X) mov_origin))
    (mask_to_sitk E (s_fix_mask X) (s_fix_mask_spacing X) fix_origin)
    (mask_to_sitk E (s_mov_mask X) (s_mov_mask_spacing X) mov_origin).

(** [len(transform.shape) not in [1, 2]] *)
Definition rank_not_1_or_2 (t : ndarray) : bool :=
  negb ((ndim t =? 1) || (ndim t =? 2)).

Definition format_static_transform_data (E : Env) (transforms : list ndarray)
  (fix_ : ndarray) (fix_spacing : list Q) (fix_origin : option (list Q))
  : list (list Q) * list (option (list Q)) :=
  (map (fun t => if rank_not_1_or_2 t
                 then relative_spacing E t fix_ fix_spacing
                 else fix_spacing) transforms,
   map (fun _ => fix_origin) transforms).

(** Truth value of a list: [if static_transform_list:] *)
Definition nonempty {A : Type} (l : list A) : bool :=
  match l with
  | [] => false
  | _ :: _ => true
  end.

(* ================================================================== *)
(** * feature_point_ransac_affine_align (align.py, lines 202-466) *)
(* ================================================================== *)

Module Ransac.

(** The keyword arguments of the function. *)
Record options : Type := mk_options {
  alignment_spacing : option Q;
  num_sigma_max : Z;
  cc_radius : Z;
  nspots : Z;
  match_threshold : Q;
  max_spot_match_distance : option Q;
  align_threshold : Q;
  diagonal_constraint : float;
  fix_spot_detection_kwargs : Kw.dict;
  mov_spot_detection_kwargs : Kw.dict;
  fix_spots : option spots;
  mov_spots : option spots;
  fix_mask : option ndarray;
  mov_mask : option ndarray;
  fix_origin : option (list Q);
  mov_origin : option (list Q);
  static_transform_list : list ndarray;
  default : option ndarray;
  kwargs : Kw.dict
}.

(** The defaults of the signature. *)
Definition defaults : options :=
  mk_options None 15 12 5000 (7 # 10) None 2 0.25%float [] [] None None
             None None None None [] None [].

(** [if default is None: default = np.eye(fix.ndim + 1)] *)
Definition resolve_default (fix_ : ndarray) (o : options) : ndarray :=
  match default o with
  | Some d => d
  | None => eye (ndim fix_ + 1)
  end.

(** Lines 343-376: the static transforms are applied to the moving image
    and its mask, then everything is skip sampled.  ([fix.astype] only
    changes the element type and is the identity here.) *)
Definition prepare (E : Env) (fix_ mov : ndarray) (fix_spacing mov_spacing : list Q)
  (o : options) : sampled :=
  let stl := static_transform_list o in
  let warped :=
    if nonempty stl then
      (apply_transform E (Some fix_) mov (Some fix_spacing) (Some mov_spacing) stl
         (fix_origin o) (mov_origin o) None None None,
       option_map (fun k =>
         apply_transform E (Some fix_) k (Some fix_spacing) (Some mov_spacing) stl
           (fix_origin o) (mov_origin o) None None (Some "0"%string)) (mov_mask o),
       fix_spacing)
    else (mov, mov_mask o, mov_spacing) in
  apply_alignment_spacing E fix_ (fst (fst warped)) (fix_mask o) (snd (fst warped))
    fix_spacing (snd warped) (alignment_spacing o).

(** [min(a, b)] of Python: [b] when [b < a], otherwise [a]. *)
Definition py_min (a b : Q) : Q := if Py.ltb b a then b else a.

(** [int(min(blob_sizes[1] - blob_sizes[0], num_sigma_max))] *)
Definition num_sigma (blob_sizes : Q * Q) (o : options) : Z :=
  Py.int (py_min (snd blob_sizes - fst blob_sizes) (inject_Z (num_sigma_max o))).

Definition detection_kwargs (blob_sizes : Q * Q) (o : options)
  (mask : option ndarray) (extra : Kw.dict) : Kw.dict :=
  Kw.merge [("num_sigma"%string, Kw.PInt (num_sigma blob_sizes o));
            ("exclude_border"%string, Kw.PInt (cc_radius o));
            ("mask"%string, Kw.of_option_array mask)] extra.

(** Lines 378-391: the fixed spots are the ones given, or detected. *)
Definition get_fix_spots (E : Env) (X : sampled) (blob_sizes : Q * Q)
  (o : options) : spots :=
  match fix_spots o with
  | Some s => s
  | None =>
      blob_detection E (s_fix X) (fst blob_sizes) (snd blob_sizes)
        (detection_kwargs blob_sizes o (s_fix_mask X) (fix_spot_detection_kwargs o))
  end.

(** Lines 397-409: the same for the moving spots. *)
Definition get_mov_spots (E : Env) (X : sampled) (blob_sizes : Q * Q)
  (o : options) : spots :=
  match mov_spots o with
  | Some s => s
  | None =>
      blob_detection E (s_mov X) (fst blob_sizes) (snd blob_sizes)
        (detection_kwargs blob_sizes o (s_mov_mask X) (mov_spot_detection_kwargs o))
  end.

(** [a[:, j]]: [IndexError] when the rows have no column [j]. *)
Definition column (j : nat) (a : spots) : result (list Q) :=
  mapM (fun row => match nth_error row j with
                   | Some x => Ok x
                   | None => Raise IndexError
                   end) a.

(** Lines 417-418:
    [sort_idx = np.argsort(a[:, 3])[::-1]; a = a[sort_idx, :3][:nspots]] *)
Definition sort_spots (a : spots) (n : Z) : result spots :=
  keys <- column 3 a;;
  let sort_idx := rev (argsort keys) in
  Ok (slice_to (map (firstn 3) (take a sort_idx)) n).

(** [a * spacing] for an (N, 3) array and a 1-d spacing. *)
Definition to_physical (a : spots) (spacing : list Q) : result spots :=
  match spacing with
  | [s] => Ok (map (map (fun x => x * s)%Q) a)
  | [_; _; _] =>
      Ok (map (fun row => map (fun p => (fst p * snd p)%Q) (combine row spacing)) a)
  | _ => Raise ValueError
  end.

(** Lines 415-442: sort, contexts, correlations, physical units, matching. *)
Definition matched_spots (E : Env) (X : sampled) (o : options)
  (fs ms : spots) : result (spots * spots) :=
  fs1 <- sort_spots fs (nspots o);;
  ms1 <- sort_spots ms (nspots o);;
  let fix_spot_contexts := get_contexts E (s_fix X) fs1 (cc_radius o) in
  let mov_spot_contexts := get_contexts E (s_mov X) ms1 (cc_radius o) in
  let correlations := pairwise_correlation E fix_spot_contexts mov_spot_contexts in
  fs2 <- to_physical fs1 (s_fix_spacing X);;
  ms2 <- to_physical ms1 (s_mov_spacing X);;
  Ok (match_points E fs2 ms2 correlations (match_threshold o)
        (max_spot_match_distance o)).

(** [np.diag(Aff)] where [Aff] may be [None]. *)
Definition diag_of (Aff : option ndarray) : result ndarray :=
  match Aff with
  | Some a => diag a
  | None => Raise ValueError
  end.

(** [affine = np.eye(n + 1); affine[:n, :] = Aff] for an [Aff] of shape
    (n, n + 1); any other shape that OpenCV can return does not fit. *)
Definition augment (n : Z) (Aff : ndarray) : result ndarray :=
  if shape_eqb (shape Aff) [n; n + 1]
  then Ok (mk_ndarray [n + 1; n + 1]
             (data Aff ++ eye_row (Z.to_nat (n + 1)) (Z.to_nat n)))
  else Raise ValueError.

(** Lines 448-466: the consensus fit, the diagonal check and the
    homogeneous matrix.  The success flag [r] is not looked at. *)
Definition fit (E : Env) (X : sampled) (o : options) (dflt : ndarray)
  (mf mm : spots) : result ndarray :=
  let '(r, Aff, inline) :=
    estimateAffine3D E mf mm (align_threshold o) (999 # 1000) (kwargs o) in
  d <- diag_of Aff;;
  if any_abs_minus_one_gt d (diagonal_constraint o) then Ok dflt
  else match Aff with
       | Some a => augment (ndim (s_fix X)) a
       | None => Raise ValueError
       end.

Definition feature_point_ransac_affine_align (E : Env) (fix_ mov : ndarray)
  (fix_spacing mov_spacing : list Q) (blob_sizes : Q * Q) (o : options)
  : result ndarray :=
  (* establish default *)
  let dflt := resolve_default fix_ o in
  (* apply static transforms, skip sample and determine mask spacings *)
  let X := prepare E fix_ mov fix_spacing mov_spacing o in
  (* get fix spots *)
  let fs := get_fix_spots E X blob_sizes o in
  if len fs <? 100 then Ok dflt else
  (* get mov spots *)
  let ms := get_mov_spots E X blob_sizes o in
  if len ms <? 100 then Ok dflt else
  (* sort, get contexts and correlations, get matching points *)
  p <- matched_spots E X o fs ms;;
  if (len (fst p) <? 50) || (len (snd p) <? 50) then Ok dflt else
  (* align, ensure affine is sensible, augment matrix and return *)
  fit E X o dflt (fst p) (snd p).

(** The run passes the three guards and reaches the consensus fit with
    the matched pairs [mf] and [mm]. *)
Definition reaches_fit (E : Env) (fix_ mov : ndarray)
  (fix_spacing mov_spacing : list Q) (blob_sizes : Q * Q) (o : options)
  (mf mm : spots) : Prop :=
  let X := prepare E fix_ mov fix_spacing mov_spacing o in
  let fs := get_fix_spots E X blob_sizes o in
  let ms := get_mov_spots E X blob_sizes o in
  100 <= len fs /\ 100 <= len ms /\
  matched_spots E X o fs ms = Ok (mf, mm) /\
  50 <= len mf /\ 50 <= len mm.

End Ransac.

(* ================================================================== *)
(** * random_affine_search (align.py, lines 469-726) *)
(* ================================================================== *)

Module RandomSearch.

(** A parameter limit: a number, or a tuple with one entry per axis. *)
Inductive bound : Type :=
| Scalar (b : R)
| Tuple (bs : list R).

Record options : Type := mk_options {
  nreturn : Z;
  max_translation : option bound;
  max_rotation : option bound;
  max_scale : option bound;
  max_shear : option bound;
  alignment_spacing : option Q;
  fix_mask : option ndarray;
  mov_mask : option ndarray;
  fix_origin : option (list Q);
  mov_origin : option (list Q);
  static_transform_list : list ndarray;
  use_patch_mutual_information : bool;
  print_running_improvements : bool;
  kwargs : Kw.dict
}.

(** The defaults of the signature. *)
Definition defaults : options :=
  mk_options 1 None None None None None None None None None [] false false [].

(** Lines 588-593. *)
Definition expand_param_to_3d (param : option bound) (null_value : R) : option bound :=
  match param with
  | Some (Scalar p) => Some (Tuple [p; p; null_value])
  | Some (Tuple t) => Some (Tuple (t ++ [null_value]))
  | None => None
  end.

(** Truth value of a limit ([if max_translation:]): [None], zero and the
    empty tuple are false.  The result is the limit when it is true. *)
Definition truthy (param : option bound) : option bound :=
  match param with
  | Some (Scalar b) => if Req_dec_T b 0 then None else param
  | Some (Tuple []) => None
  | Some (Tuple (_ :: _)) => param
  | None => None
  end.


(** A limit as the arithmetic of line 614 sees it: a number or an array
    of numbers, which can be infinite or NaN after [np.log]. *)
Inductive xbound : Type :=
| XScalar (b : xreal)
| XTuple (bs : list xreal).

(** A limit that is used as it was given. *)
Definition as_given (mx : bound) : xbound :=
  match mx with
  | Scalar b => XScalar (Fin b)
  | Tuple t => XTuple (map Fin t)
  end.

(** [np.log(mx)], entry by entry. *)
Definition np_log (mx : bound) : xbound :=
  match mx with
  | Scalar b => XScalar (xlog (Fin b))
  | Tuple t => XTuple (map (fun b => xlog (Fin b)) t)
  end.

Definition xbroadcast3 (mx : xbound) : result (list xreal) :=
  match mx with
  | XScalar b => Ok [b; b; b]
  | XTuple [b] => Ok [b; b; b]
  | XTuple [a; b; c] => Ok [a; b; c]
  | XTuple _ => Raise ValueError
  end.

(** The process-wide generator is a stream of draws, each in [0, 1);
    [np.random.rand(n, 3)] started at position [pos] reads [3 * n] of
    them, row by row. *)
Definition rand (g : nat -> R) (pos n : nat) : list (list R) :=
  map (fun i => map (fun j => g (pos + 3 * i + j)%nat) [0; 1; 2]%nat) (seq 0 n).

(** One entry of [2 * (mx * r) - mx]. *)
Definition spread (b : xreal) (r : R) : xreal :=
  xsub (xmul (Fin 2) (xmul b (Fin r))) b.

(** [F = lambda mx: 2 * (mx * np.random.rand(random_iterations, 3)) - mx] *)
Definition F (g : nat -> R) (pos n : nat) (mx : xbound)
  : result (list (list xreal)) :=
  b <- xbroadcast3 mx;;
  Ok (map (fun row => map (fun p => spread (fst p) (snd p)) (combine b row))
          (rand g pos n)).

(** [np.e ** block] *)
Definition np_e_pow (block : list (list xreal)) : list (list xreal) :=
  map (map xexp) block.

(** Row 0 of the table, and every row before the random blocks are
    written: zeros, with ones in the scale columns 6 to 8. *)
Definition identity_params : list xreal :=
  map Fin [0; 0; 0; 0; 0; 0; 1; 1; 1; 0; 0; 0]%R.

(** [params[1:, c:c+3] = block] *)
Definition set_block (c : nat) (block : list (list xreal))
  (params : list (list xreal)) : list (list xreal) :=
  match params with
  | [] => []
  | row0 :: rest =>
      row0 :: map (fun p => firstn c (fst p) ++ snd p ++ skipn (c + 3) (fst p))
                  (combine rest block)
  end.

(** One of the four conditional assignments of lines 615-618.  The state
    is the table and the position in the stream of draws. *)
Definition fill (g : nat -> R) (n c : nat) (limit : option bound)
  (pre : bound -> xbound) (post : list (list xreal) -> list (list xreal))
  (st : list (list xreal) * nat) : result (list (list xreal) * nat) :=
  match truthy limit with
  | Some mx =>
      block <- F g (snd st) n (pre mx);;
      Ok (set_block c (post block) (fst st), (snd st + 3 * n)%nat)
  | None => Ok st
  end.

(** Lines 611-618: the table of [random_iterations + 1] parameter rows. *)
Definition generate_params (g : nat -> R) (random_iterations : nat)
  (max_translation max_rotation max_scale max_shear : option bound)
  : result (list (list xreal)) :=
  let n := random_iterations in
  let params := repeat identity_params (S n) in
  st1 <- fill g n 0 max_translation as_given (fun b => b) (params, 0%nat);;
  st2 <- fill g n 3 max_rotation as_given (fun b => b) st1;;
  st3 <- fill g n 6 max_scale np_log np_e_pow st2;;
  st4 <- fill g n 9 max_shear as_given (fun b => b) st3;;
  Ok (fst st4).


(** [np.finfo(np.float64).max] *)
Definition WORST_POSSIBLE_SCORE : Q := inject_Z ((2 ^ 53 - 1) * 2 ^ 971).

(** [a.reshape(a.shape + (1,))] *)
Definition add_axis (a : ndarray) : ndarray :=
  mk_ndarray (shape a ++ [1]) (data a).

(** [np.array(fix.shape) / 2 * fix_spacing]: entry by entry for two
    vectors of one length; a vector of length 1 is broadcast; any other
    pair of lengths is a [ValueError]. *)
Definition center_of (fix_ : ndarray) (fix_spacing : list Q) : result (list Q) :=
  let half := map (fun n => (inject_Z n / 2)%Q) (shape fix_) in
  match half, fix_spacing with
  | [h], _ => Ok (map (fun s => (h * s)%Q) fix_spacing)
  | _, [s] => Ok (map (fun h => (h * s)%Q) half)
  | _, _ =>
      if Nat.eqb (length half) (length fix_spacing)
      then Ok (map (fun p => (fst p * snd p)%Q) (combine half fix_spacing))
      else Raise ValueError
  end.

(** What the function holds after lines 596-609. *)
Record inputs : Type := mk_inputs {
  in_fix : ndarray;
  in_mov : ndarray;
  in_fix_spacing : list Q;
  in_mov_spacing : list Q;
  in_max_translation : option bound;
  in_max_rotation : option bound;
  in_max_scale : option bound;
  in_max_shear : option bound;
  in_fix_mask : option ndarray;
  in_mov_mask : option ndarray;
  in_fix_origin : option (list Q);
  in_mov_origin : option (list Q);
  (* lines 600-601 turn the two spacings into tuples *)
  in_spacings_are_tuples : bool
}.

(** Lines 596-609: 2-d inputs are generalised to 3-d. *)
Definition generalize_to_3d (fix_ mov : ndarray) (fix_spacing mov_spacing : list Q)
  (o : options) : inputs :=
  if ndim fix_ =? 2 then
    mk_inputs (add_axis fix_) (add_axis mov)
      (fix_spacing ++ [1%Q]) (mov_spacing ++ [1%Q])
      (expand_param_to_3d (max_translation o) 0)
      (expand_param_to_3d (max_rotation o) 0)
      (expand_param_to_3d (max_scale o) 1)
      (expand_param_to_3d (max_shear o) 0)
      (option_map add_axis (fix_mask o)) (option_map add_axis (mov_mask o))
      (option_map (fun x => x ++ [0%Q]) (fix_origin o))
      (option_map (fun x => x ++ [0%Q]) (mov_origin o))
      true
  else
    mk_inputs fix_ mov fix_spacing mov_spacing
      (max_translation o) (max_rotation o) (max_scale o) (max_shear o)
      (fix_mask o) (mov_mask o) (fix_origin o) (mov_origin o)
      false.

(** The call of [apply_alignment_spacing] at line 629.  The first
    statement of that function, [fix_spacing.astype(np.float64)], needs
    an array: for the tuple that line 600 makes of the spacing of a 2-d
    input it is an [AttributeError]. *)
Definition sample (E : Env) (I : inputs) (alignment_spacing : option Q)
  : result sampled :=
  if in_spacings_are_tuples I then Raise AttributeError
  else Ok (apply_alignment_spacing E (in_fix I) (in_mov I)
             (in_fix_mask I) (in_mov_mask I)
             (in_fix_spacing I) (in_mov_spacing I) alignment_spacing).

(** Lines 648-681: scoring with the patch-wise mutual information.  No
    exception is caught here. *)
Definition score_affine_patch (E : Env) (o : options) (I : inputs) (X : sampled)
  (sts : list (list Q)) (sto : list (option (list Q))) (affine : ndarray) : result Q :=
  let transform_list := static_transform_list o ++ [affine] in
  let aligned :=
    apply_transform E (Some (s_fix X)) (s_mov X)
      (Some (s_fix_spacing X)) (Some (s_mov_spacing X)) transform_list
      (in_fix_origin I) (in_mov_origin I) (Some sts) (Some sto) None in
  let mov_mask_aligned :=
    option_map (fun k =>
      apply_transform E (s_fix_mask X) k
        (s_fix_mask_spacing X) (s_mov_mask_spacing X) transform_list
        (in_fix_origin I) (in_mov_origin I) (Some sts) (Some sto)
        (Some "0"%string)) (s_mov_mask X) in
  patch_mutual_information E (s_fix X) aligned (s_fix_spacing X)
    (s_fix_mask X) mov_mask_aligned
    (Kw.set (kwargs o) "return_metric_image" (Kw.PBool false)).

(** Lines 685-703: the engine is configured once. *)
Definition configure_search_irm (E : Env) (o : options) (I : inputs) (X : sampled)
  (sts : list (list Q)) (sto : list (option (list Q))) : irm E * sitk_images E :=
  let kw := Kw.set (Kw.set (kwargs o) "optimizer" (Kw.PStr "LBFGS2"))
                   "optimizer_args" Kw.PEmptyDict in
  let m := new_irm E kw in
  let S := images_to_sitk E X (in_fix_origin I) (in_mov_origin I) in
  let m1 := set_masks m (i_fix_mask S) (i_mov_mask S) in
  let m2 :=
    if nonempty (static_transform_list o)
    then SetMovingInitialTransform m1
           (transform_list_to_composite_transform E (static_transform_list o) sts sto)
    else m1 in
  (m2, S).

(** Lines 705-711: scoring with the engine; an exception of
    [MetricEvaluate] becomes the worst possible score. *)
Definition score_affine_irm (E : Env) (m : irm E) (S : sitk_images E)
  (affine : ndarray) : result Q :=
  let m' := SetInitialTransform m (matrix_to_affine_transform E affine) in
  try_except (MetricEvaluate E m' (i_fix S) (i_mov S))
             (fun _ => Ok WORST_POSSIBLE_SCORE).

(** Lines 723-726: the [nreturn] best rows, best first. *)
Definition top_results {A : Type} (params : list A) (scores : list Q) (k : Z)
  : result (list A) :=
  idx <- argpartition scores k;;
  let partition_indx := slice_to idx k in
  let params1 := take params partition_indx in
  let scores1 := take scores partition_indx in
  Ok (take params1 (argsort scores1)).

(** The function itself.  [g] is the stream of draws that the process-wide
    random generator hands out; [random_iterations] is a count, so a
    natural number. *)
Definition random_affine_search (E : Env) (g : nat -> R) (fix_ mov : ndarray)
  (fix_spacing mov_spacing : list Q) (random_iterations : nat) (o : options)
  : result (list ndarray) :=
  (* generalize 2d inputs to 3d *)
  let I := generalize_to_3d fix_ mov fix_spacing mov_spacing o in
  (* generate random parameters, first row is always identity *)
  params <- generate_params g random_iterations (in_max_translation I)
              (in_max_rotation I) (in_max_scale I) (in_max_shear I);;
  center <- center_of (in_fix I) (in_fix_spacing I);;
  let to_matrix := fun p => physical_parameters_to_affine_matrix_3d E p center in
  (* format static transform data explicitly *)
  let ab := format_static_transform_data E (static_transform_list o)
              (in_fix I) (in_fix_spacing I) (in_fix_origin I) in
  (* skip sample and determine mask spacings *)
  X <- sample E I (alignment_spacing o);;
  (* define metric evaluation *)
  let score_affine :=
    if use_patch_mutual_information o
    then score_affine_patch E o I X (fst ab) (snd ab)
    else let mS := configure_search_irm E o I X (fst ab) (snd ab) in
         score_affine_irm E (fst mS) (snd mS) in
  (* score all random affines *)
  scores <- mapM (fun ppp => score_affine (to_matrix ppp)) params;;
  (* return top results *)
  best <- top_results params scores (nreturn o);;
  Ok (map to_matrix best).

End RandomSearch.

(* ================================================================== *)
(** * The guarded engine calls shared by the two refiners *)
(* ================================================================== *)

(** The body of the [try] block of [affine_align] (lines 890-892) and of
    [deformable_align] (lines 1076-1078): the metric at the start, the
    optimization, the metric at the end.  The result carries the two
    metric values and the transform as [Execute] left it. *)
Definition run_engine (E : Env) (m : irm E) (fix_ mov : sitk_image E)
  : result (Q * Q * sitk_transform E) :=
  initial_metric_value <- MetricEvaluate E m fix_ mov;;
  t <- Execute E m fix_ mov;;
  final_metric_value <- MetricEvaluate E (with_transform m t) fix_ mov;;
  Ok (initial_metric_value, final_metric_value, t).

(* ================================================================== *)
(** * affine_align (align.py, lines 729-907) *)
(* ================================================================== *)

Module Affine.

(** [initial_condition]: nothing, a string, or a matrix. *)
Inductive initial : Type :=
| IC_None
| IC_Str (s : string)
| IC_Matrix (m : ndarray).

Record options : Type := mk_options {
  rigid : bool;
  initial_condition : initial;
  alignment_spacing : option Q;
  fix_mask : option ndarray;
  mov_mask : option ndarray;
  fix_origin : option (list Q);
  mov_origin : option (list Q);
  static_transform_list : list ndarray;
  default : option ndarray;
  kwargs : Kw.dict
}.

(** The defaults of the signature. *)
Definition defaults : options :=
  mk_options false IC_None None None None None None [] None [].

(** Lines 822-826: determine the correct default.  The comparison with
    the identity is only made next to a matrix initial condition; it
    stands ahead of the [try] block, so what it raises escapes. *)
Definition resolve_default (fix_ : ndarray) (o : options) : result ndarray :=
  let d := match default o with
           | Some d => d
           | None => eye (ndim fix_ + 1)
           end in
  match initial_condition o with
  | IC_Matrix m =>
      same <- all_equal d (eye (ndim fix_ + 1));;
      Ok (if same then m else d)
  | _ => Ok d
  end.

(** [rigid_transform_constructor] applied to nothing or to a transform. *)
Definition rigid_transform_constructor (E : Env) (ndims : Z)
  (x : option (sitk_transform E)) : sitk_transform E :=
  if ndims =? 2 then Euler2DTransform E x else Euler3DTransform E x.

(** [m = np.eye(ndims + 1); m[:ndims, -1] = x], for an [x] with one entry
    per axis, as [GetTranslation] returns it. *)
Definition translation_matrix (ndims : Z) (x : list float) : ndarray :=
  let n := Z.to_nat ndims in
  mk_ndarray [ndims + 1; ndims + 1]
    (flat_map (fun i => if (i <? n)%nat
                        then firstn n (eye_row (S n) i) ++ [nth i x 0%float]
                        else eye_row (S n) i)
              (seq 0 (S n))).

(** Lines 866-874: the matrix that seeds the optimization, if any. *)
Definition seed_matrix (E : Env) (S : sitk_images E) (o : options) : option ndarray :=
  let ndims := GetDimension E (i_fix S) in
  match initial_condition o with
  | IC_Matrix m => Some m
  | IC_Str s =>
      if String.eqb s "CENTER" then
        let ab := match i_fix_mask S, i_mov_mask S with
                  | Some fm, Some mm => (fm, mm)
                  | _, _ => (i_fix S, i_mov S)
                  end in
        let x := CenteredTransformInitializer E (fst ab) (snd ab)
                   (rigid_transform_constructor E ndims None) in
        let x := rev (GetTranslation E (rigid_transform_constructor E ndims (Some x))) in
        Some (translation_matrix ndims x)
      else None
  | IC_None => None
  end.

(** Lines 875-882: the transform to optimize. *)
Definition initial_transform (E : Env) (S : sitk_images E) (o : options)
  : sitk_transform E :=
  let ndims := GetDimension E (i_fix S) in
  match rigid o, seed_matrix E S o with
  | true, None => rigid_transform_constructor E ndims None
  | true, Some m => matrix_to_euler_transform E m
  | false, None => AffineTransform E ndims
  | false, Some m => matrix_to_affine_transform E m
  end.

(** Lines 828-886: everything between the default and the [try]. *)
Definition setup (E : Env) (fix_ mov : ndarray) (fix_spacing mov_spacing : list Q)
  (o : options) : irm E * sitk_images E :=
  let ab := format_static_transform_data E (static_transform_list o)
              fix_ fix_spacing (fix_origin o) in
  let X := apply_alignment_spacing E fix_ mov (fix_mask o) (mov_mask o)
             fix_spacing mov_spacing (alignment_spacing o) in
  let S := images_to_sitk E X (fix_origin o) (mov_origin o) in
  let m := new_irm E (kwargs o) in
  let m1 :=
    if nonempty (static_transform_list o)
    then SetMovingInitialTransform m
           (transform_list_to_composite_transform E (static_transform_list o)
              (fst ab) (snd ab))
    else m in
  let m2 := SetInitialTransform m1 (initial_transform E S o) in
  (set_masks m2 (i_fix_mask S) (i_mov_mask S), S).

Definition affine_align (E : Env) (fix_ mov : ndarray)
  (fix_spacing mov_spacing : list Q) (o : options) : result ndarray :=
  (* determine the correct default *)
  dflt <- resolve_default fix_ o;;
  let mS := setup E fix_ mov fix_spacing mov_spacing o in
  (* execute alignment, for any exceptions return default *)
  match run_engine E (fst mS) (i_fix (snd mS)) (i_mov (snd mS)) with
  | Raise _ => Ok dflt
  | Ok (initial_metric_value, final_metric_value, transform) =>
      (* if registration improved metric return result *)
      if Py.ltb final_metric_value initial_metric_value
      then Ok (affine_transform_to_matrix E transform)
      else Ok dflt
  end.

End Affine.

(* ================================================================== *)
(** * deformable_align (align.py, lines 910-1099) *)
(* ================================================================== *)

Module Deformable.

Record options : Type := mk_options {
  alignment_spacing : option Q;
  fix_mask : option ndarray;
  mov_mask : option ndarray;
  fix_origin : option (list Q);
  mov_origin : option (list Q);
  static_transform_list : list ndarray;
  default : option (list Q * ndarray);
  kwargs : Kw.dict
}.

(** The defaults of the signature. *)
Definition defaults : options :=
  mk_options None None None None None [] None [].

(** [z = control_point_spacing * control_point_levels[0]]: the level is
    an [int], which the product turns into a float; the product of a
    [numpy.float64] is a [numpy.float64] again. *)
Definition coarsest_spacing (control_point_spacing : F64.number)
  (control_point_levels : list Z) : result F64.number :=
  match control_point_levels with
  | [] => Raise IndexError
  | l :: _ =>
      lf <- F64.of_int l;;
      Ok (match control_point_spacing with
          | F64.PyFloat c => F64.PyFloat (c * lf)
          | F64.NpFloat64 c => F64.NpFloat64 (c * lf)
          end)
  end.

(** [x*y/z] for an [int] [x] and a float [y] of Python.  The division
    by a zero that is a float of Python raises; the division by a zero
    that is a [numpy.float64] is done by numpy, which warns and answers
    with an infinity or with NaN. *)
Definition quotient (z : F64.number) (xy : Z * float) : result float :=
  xf <- F64.of_int (fst xy);;
  match z with
  | F64.PyFloat zf =>
      if (zf =? 0)%float then Raise ZeroDivisionError
      else Ok (xf * snd xy / zf)%float
  | F64.NpFloat64 zf => Ok (xf * snd xy / zf)%float
  end.

(** [max(1, int(x*y/z))] for one axis. *)
Definition cells (z : F64.number) (xy : Z * float) : result Z :=
  q <- quotient z xy;;
  i <- F64.int q;;
  Ok (Z.max 1 i).

(** Line 1044:
    [[max(1, int(x*y/z)) for x, y in zip(fix.GetSize(), fix.GetSpacing())]] *)
Definition initial_cp_grid (size : list Z) (spacing : list float) (z : F64.number)
  : result (list Z) :=
  mapM (cells z) (combine size spacing).

(** [(params, field)] read off a B-spline transform (lines 1066-1072 and
    1087-1092). *)
Definition params_and_field (E : Env) (transform : sitk_transform E)
  (initial_fix_shape : list Z) (initial_fix_spacing : list Q)
  (origin : option (list Q)) (dimension : Z) : list Q * ndarray :=
  (GetFixedParameters E transform ++ GetParameters E transform,
   bspline_to_displacement_field E transform initial_fix_shape
     initial_fix_spacing origin (eye dimension)).

(** Lines 1017-1062: the engine, the images and the initial B-spline. *)
Definition setup (E : Env) (fix_ mov : ndarray) (fix_spacing mov_spacing : list Q)
  (control_point_spacing : F64.number) (control_point_levels : list Z)
  (o : options) : result (irm E * sitk_images E * sitk_transform E) :=
  let ab := format_static_transform_data E (static_transform_list o)
              fix_ fix_spacing (fix_origin o) in
  let X := apply_alignment_spacing E fix_ mov (fix_mask o) (mov_mask o)
             fix_spacing mov_spacing (alignment_spacing o) in
  let S := images_to_sitk E X (fix_origin o) (mov_origin o) in
  let m := new_irm E (kwargs o) in
  (* initial control point grid *)
  z <- coarsest_spacing control_point_spacing control_point_levels;;
  grid <- initial_cp_grid (GetSize E (i_fix S)) (GetSpacing E (i_fix S)) z;;
  let transform := BSplineTransformInitializer E (i_fix S) grid 3 in
  let m1 := SetInitialTransformAsBSpline m transform (rev control_point_levels) in
  let m2 :=
    if nonempty (static_transform_list o)
    then SetMovingInitialTransform m1
           (transform_list_to_composite_transform E (static_transform_list o)
              (fst ab) (snd ab))
    else m1 in
  Ok (set_masks m2 (i_fix_mask S) (i_mov_mask S), S, transform).

(** Lines 1064-1072: the default is the one given (a pair of parameters
    and field, which Python takes as true), or the parameters and the
    field of the initial transform. *)
Definition resolve_default (E : Env) (fix_ : ndarray) (fix_spacing : list Q)
  (o : options) (S : sitk_images E) (transform : sitk_transform E)
  : list Q * ndarray :=
  match default o with
  | Some d => d
  | None => params_and_field E transform (shape fix_) fix_spacing
              (fix_origin o) (GetDimension E (i_fix S))
  end.

Definition deformable_align (E : Env) (fix_ mov : ndarray)
  (fix_spacing mov_spacing : list Q) (control_point_spacing : F64.number)
  (control_point_levels : list Z) (o : options) : result (list Q * ndarray) :=
  mSt <- setup E fix_ mov fix_spacing mov_spacing
           control_point_spacing control_point_levels o;;
  let m := fst (fst mSt) in
  let S := snd (fst mSt) in
  let transform := snd mSt in
  (* now we can set the default *)
  let dflt := resolve_default E fix_ fix_spacing o S transform in
  (* execute alignment, for any exceptions return default *)
  match run_engine E m (i_fix S) (i_mov S) with
  | Raise _ => Ok dflt
  | Ok (initial_metric_value, final_metric_value, optimized) =>
      (* if registration improved metric return result *)
      if Py.ltb final_metric_value initial_metric_value
      then Ok (params_and_field E optimized (shape fix_) fix_spacing
                 (fix_origin o) (GetDimension E (i_fix S)))
      else Ok dflt
  end.

End Deformable.

(* ================================================================== *)
(** * alignment_pipeline (align.py, lines 1102-1228) *)
(* ================================================================== *)

Module Pipeline.

(** The four stage functions as Python calls them: positional images and
    spacings, then a dictionary of keyword arguments. *)
Record stages : Type := {
  call_ransac :
    ndarray -> ndarray -> list Q -> list Q -> Kw.dict -> result ndarray;
  call_random :
    ndarray -> ndarray -> list Q -> list Q -> Kw.dict -> result (list ndarray);
  call_affine :
    ndarray -> ndarray -> list Q -> list Q -> Kw.dict -> result ndarray;
  call_deform :
    ndarray -> ndarray -> list Q -> list Q -> Kw.dict -> result (list Q * ndarray)
}.

Definition has_key (d : Kw.dict) (k : string) : bool :=
  existsb (fun kv => String.eqb (fst kv) k) d.

(** What [alignment_pipeline] returns. *)
Inductive output : Type :=
| Transforms (l : list ndarray)
| Transform (t : ndarray)
| ReturnsNone.

Section Run.

Variable St : stages.
Variables fix_ mov : ndarray.
Variables fix_spacing mov_spacing : list Q.
Variables fix_mask mov_mask : option ndarray.
Variables fix_origin mov_origin : option (list Q).

(** Line 1203. *)
Definition b : Kw.dict :=
  [("fix_mask"%string, Kw.of_option_array fix_mask);
   ("mov_mask"%string, Kw.of_option_array mov_mask);
   ("fix_origin"%string, Kw.of_option_vector fix_origin);
   ("mov_origin"%string, Kw.of_option_vector mov_origin)].

(** Lines 1205-1209: [align[alignment](c)].  An unknown kind is a
    [KeyError]; [rigid=True] next to a [rigid] key of [c] is a
    [TypeError]; [[0]] of an empty list is an [IndexError]. *)
Definition align (alignment : string) (c : Kw.dict) : result ndarray :=
  let bc := Kw.merge b c in
  if String.eqb alignment "ransac" then
    call_ransac St fix_ mov fix_spacing mov_spacing bc
  else if String.eqb alignment "random" then
    l <- call_random St fix_ mov fix_spacing mov_spacing bc;;
    match l with
    | x :: _ => Ok x
    | [] => Raise IndexError
    end
  else if String.eqb alignment "rigid" then
    if has_key bc "rigid" then Raise TypeError
    else call_affine St fix_ mov fix_spacing mov_spacing
           (Kw.set bc "rigid" (Kw.PBool true))
  else if String.eqb alignment "affine" then
    call_affine St fix_ mov fix_spacing mov_spacing bc
  else if String.eqb alignment "deform" then
    pf <- call_deform St fix_ mov fix_spacing mov_spacing bc;;
    Ok (snd pf)
  else Raise KeyError.

(** Lines 1212-1216: the loop over the steps. *)
Fixpoint loop (kwargs : Kw.dict) (static_transform_list : list ndarray)
  (steps : list (string * Kw.dict)) (new_transforms : list ndarray)
  : result (list ndarray) :=
  match steps with
  | [] => Ok new_transforms
  | (alignment, arguments) :: rest =>
      let arguments := Kw.merge kwargs arguments in
      let arguments :=
        Kw.set arguments "static_transform_list"
               (Kw.PArrays (static_transform_list ++ new_transforms)) in
      t <- align alignment arguments;;
      loop kwargs static_transform_list rest (new_transforms ++ [t])
  end.

End Run.

(** Lines 1222-1224: the boundaries of the groups. *)
Definition changes (new_transforms : list ndarray) : list Z :=
  let shapes := array_of_shapes (map shape new_transforms) in
  let changes := map (fun i => i + 1) (where_adjacent_differ shapes) in
  [0] ++ changes ++ [len new_transforms].

(** Lines 1225-1226: the slices [new_transforms[a:b]] handed to the
    composer, one per pair of neighbouring boundaries. *)
Definition groups (new_transforms : list ndarray) : list (list ndarray) :=
  map (fun ab => slice new_transforms (fst ab) (snd ab))
      (adjacent (changes new_transforms)).

(** The value returned for [return_format == 'compressed']. *)
Definition compressed (E : Env) (new_transforms : list ndarray)
  (fix_spacing : list Q) : result (list ndarray) :=
  mapM (fun l => compose_transform_list E l fix_spacing) (groups new_transforms).

Definition alignment_pipeline (E : Env) (St : stages) (fix_ mov : ndarray)
  (fix_spacing mov_spacing : list Q) (steps : list (string * Kw.dict))
  (fix_mask mov_mask : option ndarray) (fix_origin mov_origin : option (list Q))
  (static_transform_list : list ndarray) (return_format : string)
  (kwargs : Kw.dict) : result output :=
  new_transforms <- loop St fix_ mov fix_spacing mov_spacing
                      fix_mask mov_mask fix_origin mov_origin
                      kwargs static_transform_list steps [];;
  (* return in the requested format *)
  if String.eqb return_format "independent" then Ok (Transforms new_transforms)
  else if String.eqb return_format "compressed" then
    l <- compressed E new_transforms fix_spacing;;
    Ok (Transforms l)
  else if String.eqb return_format "flatten" then
    t <- compose_transform_list E new_transforms fix_spacing;;
    Ok (Transform t)
  else Ok ReturnsNone.

End Pipeline.

(* ================================================================== *)
(** * Reference definitions, as the specification words them *)
(* ================================================================== *)

Module Spec.

(** Cell count of one axis as the specification states it:
    [max(1, round(image_physical_size / coarsest_spacing))], on the
    floats of the program; nothing where the quotient is not finite. *)
Definition rounded_cells (z : float) (xy : Z * float) : option Z :=
  option_map (Z.max 1) (F64.round (F64.of_Z (fst xy) * snd xy / z)%float).

(** The truncation that the code computes, read as a floor: the two
    agree under [max(1, _)]. *)
Definition floored_cells (z : float) (xy : Z * float) : option Z :=
  option_map (Z.max 1) (F64.floor (F64.of_Z (fst xy) * snd xy / z)%float).

(** The outcome of a refiner as the specification states it: when the
    engine raises, and when the final metric is not strictly lower than
    the initial one, the output is the fallback, exactly; when the final
    metric is strictly lower, the output is read off the optimized
    transform. *)
Definition improve_or_fall_back {T A : Type} (run : result (Q * Q * T))
  (out : result A) (fallback : A) (optimized : T -> A) : Prop :=
  (forall e, run = Raise e -> out = Ok fallback) /\
  (forall i f t, run = Ok (i, f, t) -> ~ (f < i)%Q -> out = Ok fallback) /\
  (forall i f t, run = Ok (i, f, t) -> (f < i)%Q -> out = Ok (optimized t)).

(** The maximal runs of adjacent results of equal shape. *)
Fixpoint runs (l : list ndarray) : list (list ndarray) :=
  match l with
  | [] => []
  | x :: rest =>
      match runs rest with
      | (y :: g) :: gs =>
          if shape_eqb (shape x) (shape y)
          then (x :: y :: g) :: gs
          else [x] :: (y :: g) :: gs
      | _ => [[x]]
      end
  end.

(** The positions at which a new run starts, counted from [k]. *)
Fixpoint cuts (k : nat) (ts : list (list Z)) : list nat :=
  match ts with
  | x :: (y :: _) as rest =>
      (if shape_eqb x y then [] else [S k]) ++ cuts (S k) rest
  | _ => []
  end.

(** The ends of the runs: the starts of the later runs, then the length. *)
Definition ends (l : list ndarray) : list nat :=
  cuts 0 (map shape l) ++ [length l].

(** The number of axes in which two shapes of one rank differ. *)
Definition differing_axes (u v : list Z) : nat :=
  length (filter (fun b : bool => b) (row_neq u v)).

End Spec.

(* ================================================================== *)
(** * A concrete environment, to run the model *)
(* ================================================================== *)

Module Demo.

(** A 2 x 2 x 2 image. *)
Definition image : ndarray := mk_ndarray [2; 2; 2] [0; 1; 2; 3; 4; 5; 6; 7]%float.

(** An environment whose collaborators answer with the given values:
    the detector with [detected], the matcher with [matched], the
    consensus fitter with [fitted], the engine with [metric] (a function
    of the attached transform) and [optimized], the patch-wise evaluator
    with [pmi]. *)
Definition env (detected : spots) (matched : spots * spots)
  (fitted : Z * option ndarray * option ndarray)
  (metric : option ndarray -> result Q) (optimized : result ndarray)
  (pmi : result Q) : Env :=
  {| sitk_image := ndarray;
     sitk_transform := ndarray;
     irm_cfg := Kw.dict;
     contexts := unit;
     relative_spacing := fun _ _ s => s;
     skip_sample := fun a s _ => (a, s);
     numpy_to_sitk := fun a _ _ => a;
     transform_list_to_composite_transform := fun _ _ _ => eye 4;
     matrix_to_affine_transform := fun m => m;
     matrix_to_euler_transform := fun m => m;
     affine_transform_to_matrix := fun t => t;
     bspline_to_displacement_field :=
       fun t shp _ _ _ => mk_ndarray (shp ++ [len shp]) (data t);
     physical_parameters_to_affine_matrix_3d := fun _ _ => eye 4;
     apply_transform := fun _ mov _ _ _ _ _ _ _ _ => mov;
     compose_transform_list :=
       fun l _ => match l with
                  | [] => Raise ValueError
                  | x :: _ => Ok x
                  end;
     patch_mutual_information := fun _ _ _ _ _ _ => pmi;
     blob_detection := fun _ _ _ _ => detected;
     get_contexts := fun _ _ _ => tt;
     pairwise_correlation := fun _ _ => mk_ndarray [0; 0] [];
     match_points := fun _ _ _ _ _ => matched;
     estimateAffine3D := fun _ _ _ _ _ => fitted;
     Cast_sitkFloat32 := fun a => a;
     GetSize := fun a => rev (shape a);
     GetSpacing := fun a => map (fun _ => 1%float) (shape a);
     GetDimension := ndim;
     Euler2DTransform := fun _ => eye 3;
     Euler3DTransform := fun _ => eye 4;
     AffineTransform := fun n => eye (n + 1);
     CenteredTransformInitializer := fun _ _ t => t;
     GetTranslation := fun _ => [0; 0; 0]%float;
     BSplineTransformInitializer := fun _ grid _ => mk_ndarray grid [];
     GetFixedParameters := fun t => map inject_Z (shape t);
     GetParameters := fun _ => [];
     configure_irm := fun kw => kw;
     MetricEvaluate := fun m _ _ => metric (irm_transform m);
     Execute := fun _ _ _ => optimized |}.

(** [n] spots [(i, i, i, i)], [i = 0 .. n-1]. *)
Definition some_spots (n : nat) : spots :=
  map (fun i => let q := inject_Z (Z.of_nat i) in [q; q; q; q]) (seq 0 n).

(** [n] points [(i, i, i)] in physical units. *)
Definition some_points (n : nat) : spots :=
  map (fun i => let q := inject_Z (Z.of_nat i) in [q; q; q]) (seq 0 n).

(** A 3 x 4 affine with the given diagonal and nothing else. *)
Definition affine_with_diagonal (a b c : float) : ndarray :=
  mk_ndarray [3; 4] [a; 0; 0; 0;  0; b; 0; 0;  0; 0; c; 0]%float.

(** An engine whose metric is 2 before the optimization and [after] once
    the transform [t] is attached. *)
Definition metric_after (t : ndarray) (after : Q) (x : option ndarray) : result Q :=
  match x with
  | Some u =>
      match all_equal u t with
      | Ok true => Ok after
      | _ => Ok 2%Q
      end
  | None => Ok 2%Q
  end.

(** The detector finds 100 spots, the matcher keeps 49 pairs. *)
Definition env_few_matches : Env :=
  env (some_spots 100) (some_points 49, some_points 49)
      (0, None, None) (fun _ => Ok 0%Q) (Ok (eye 4)) (Ok 0%Q).

(** 100 spots, 50 pairs, and a consensus fit with the given result. *)
Definition env_fit (fitted : Z * option ndarray * option ndarray) : Env :=
  env (some_spots 100) (some_points 50, some_points 50)
      fitted (fun _ => Ok 0%Q) (Ok (eye 4)) (Ok 0%Q).

(** A matrix that [Execute] could produce, and one that a caller could
    pass as initial condition. *)
Definition optimized_matrix : ndarray := Affine.translation_matrix 3 [1; 2; 3]%float.
Definition initial_matrix : ndarray := Affine.translation_matrix 3 [5; 0; 0]%float.

(** An engine that runs to the end and leaves [optimized_matrix], with
    metric 2 at the start and [after] at the end. *)
Definition env_engine (after : Q) : Env :=
  env [] ([], []) (0, None, None)
      (metric_after optimized_matrix after) (Ok optimized_matrix) (Ok 0%Q).

(** An engine whose optimization raises. *)
Definition env_engine_raises : Env :=
  env [] ([], []) (0, None, None)
      (fun _ => Ok 2%Q) (Raise (EngineError "itk")) (Ok 0%Q).

(** A caller who passes the identity as explicit default, next to a
    matrix initial condition. *)
Definition identity_default_options : Affine.options :=
  Affine.mk_options false (Affine.IC_Matrix initial_matrix)
    None None None None None [] (Some (eye 4)) [].

(** A default that is not the identity, next to a matrix initial
    condition. *)
Definition other_default_options : Affine.options :=
  Affine.mk_options false (Affine.IC_Matrix initial_matrix)
    None None None None None [] (Some optimized_matrix) [].

(** A caller of [deformable_align] who passes a default of their own. *)
Definition given_default : list Q * ndarray :=
  ([7]%Q, mk_ndarray [2; 2; 2; 3] []).

Definition given_default_options : Deformable.options :=
  Deformable.mk_options None None None None None [] (Some given_default) [].

(** The search options with the patch-wise evaluator switched on. *)
Definition patch_options : RandomSearch.options :=
  RandomSearch.mk_options 1 None None None None None None None None None []
    true false [].

(** A stream of draws that are all one half. *)
Definition halves : nat -> R := fun _ => (1 / 2)%R.


(** Draws that alternate between 0 and three quarters. *)
Definition draws : nat -> R :=
  fun k => if Nat.even k then 0%R else (3 / 4)%R.

(** A 2 x 2 image. *)
Definition image2d : ndarray := mk_ndarray [2; 2] [0; 1; 2; 3]%float.

(** The displacement field of an image: its shape, then one vector per
    voxel. *)
Definition field_of (a : ndarray) : ndarray :=
  mk_ndarray (shape a ++ [ndim a]) [].

(** Stage functions with the results of the real ones when nothing is
    found: the feature stage returns a 4 x 4 matrix; the random search
    returns 4 x 4 matrices on 3-d images and raises on 2-d ones; the
    gradient refiner returns its default, the one given or else the
    (n + 1) x (n + 1) identity; the deformable refiner returns a field
    over the fixed image. *)
Definition stages : Pipeline.stages :=
  {| Pipeline.call_ransac := fun _ _ _ _ _ => Ok (eye 4);
     Pipeline.call_random :=
       fun f _ _ _ _ => if ndim f =? 2 then Raise AttributeError
                        else Ok [eye 4];
     Pipeline.call_affine :=
       fun f _ _ _ kw => match Kw.get kw "default" with
                         | Some (Kw.PArray d) => Ok d
                         | _ => Ok (eye (ndim f + 1))
                         end;
     Pipeline.call_deform := fun f _ _ _ _ => Ok ([], field_of f) |}.

(** A patch-wise evaluator that raises. *)
Definition env_patch_raises : Env :=
  env [] ([], []) (0, None, None)
      (fun _ => Ok 2%Q) (Ok optimized_matrix) (Raise (EngineError "patch")).

(** Detector arguments of a caller who wants no border excluded and
    sets a threshold. *)
Definition detector_overrides : Kw.dict :=
  [("exclude_border", Kw.PInt 0); ("threshold", Kw.PFloat (1 # 10))]%string.

(** A caller who hands over 100 fixed spots as bare coordinates, three
    numbers per spot. *)
Definition coordinates_only : Ransac.options :=
  Ransac.mk_options None 15 12 5000 (7 # 10) None 2 0.25%float [] []
    (Some (some_points 100)) None None None None None [] None [].


(** A search that is asked for three results. *)
Definition three_results : RandomSearch.options :=
  RandomSearch.mk_options 3 None None None None None None None None None []
    false false [].

(** Limits for a search on 2-d images: a number, a pair, nothing. *)
Definition planar_options : RandomSearch.options :=
  RandomSearch.mk_options 1
    (Some (RandomSearch.Scalar 5%R)) (Some (RandomSearch.Tuple [1; 2]%R))
    (Some (RandomSearch.Scalar 2%R)) None
    None None None None None [] false false [].

(** A search on 3-d images whose rotation limit is a pair. *)
Definition pair_limit_options : RandomSearch.options :=
  RandomSearch.mk_options 1
    (Some (RandomSearch.Scalar 5%R)) (Some (RandomSearch.Tuple [1; 2]%R))
    None None
    None None None None None [] false false [].

End Demo.

(* ================================================================== *)
(** * Theorems *)
(* ================================================================== *)

(** ** Basic facts *)

Lemma ltb_lt (x y : Q) : Py.ltb x y = true <-> (x < y)%Q.
Proof.
  unfold Py.ltb. rewrite negb_true_iff. split.
  - intro H. apply Qnot_le_lt. intro L.
    apply Qle_bool_iff in L. congruence.
  - intro H. destruct (Qle_bool y x) eqn:L; [|reflexivity].
    apply Qle_bool_iff in L. exfalso. exact (Qlt_not_le _ _ H L).
Qed.

Lemma ltb_nlt (x y : Q) : Py.ltb x y = false <-> ~ (x < y)%Q.
Proof.
  rewrite <- ltb_lt. destruct (Py.ltb x y); split; congruence.
Qed.

Lemma shape_eqb_refl (s : list Z) : shape_eqb s s = true.
Proof.
  induction s as [|x s IH]; simpl; [reflexivity|].
  now rewrite Z.eqb_refl, IH.
Qed.

Lemma shape_eqb_eq (s t : list Z) : shape_eqb s t = true <-> s = t.
Proof.
  split.
  - revert t. induction s as [|x s IH]; intros [|y t]; simpl; try discriminate.
    + reflexivity.
    + intro H. apply andb_true_iff in H. destruct H as [H1 H2].
      apply Z.eqb_eq in H1. f_equal; auto.
  - intros ->. apply shape_eqb_refl.
Qed.

(** A shape broadcasts to itself. *)
Lemma broadcast_rev_refl (s : list Z) : broadcast_rev s s = Some s.
Proof.
  induction s as [|x s IH]; simpl; [reflexivity|].
  now rewrite IH, Z.eqb_refl.
Qed.

(** The entries of the identity are ones and zeros. *)
Lemma eye_entries (n : Z) (x : float) :
  In x (data (eye n)) -> x = 1%float \/ x = 0%float.
Proof.
  unfold eye. cbn [data]. intro H.
  apply in_flat_map in H. destruct H as (i & _ & H).
  unfold eye_row in H. apply in_map_iff in H. destruct H as (j & <- & _).
  destruct (Nat.eqb i j); auto.
Qed.

(** An array without NaN equals itself; so does the identity. *)
Lemma all_equal_refl (a : ndarray) :
  (forall x, In x (data a) -> (x =? x)%float = true) ->
  all_equal a a = Ok true.
Proof.
  intro H. unfold all_equal. rewrite broadcast_rev_refl. f_equal.
  apply forallb_forall. intros idx _. unfold read.
  destruct (nth_in_or_default (offset_rev (rev (shape a)) idx) (data a) 0%float)
    as [Hin| ->].
  - now apply H.
  - reflexivity.
Qed.

Lemma all_equal_eye (n : Z) : all_equal (eye n) (eye n) = Ok true.
Proof.
  apply all_equal_refl. intros x Hx.
  destruct (eye_entries n x Hx) as [-> | ->]; reflexivity.
Qed.

(** The indices of a shape, in row-major order, are read at the
    positions 0, 1, 2, ... of an array of that shape. *)
Lemma blocks_of_seq (x a n : nat) :
  flat_map (fun o => seq (x * o) x) (seq a n) = seq (x * a) (x * n).
Proof.
  revert a. induction n as [|n IH]; intro a; cbn [seq flat_map].
  - now rewrite Nat.mul_0_r.
  - rewrite IH. replace (x * S n)%nat with (x + x * n)%nat by lia.
    rewrite seq_app. do 2 f_equal. lia.
Qed.

Lemma map_of_flat_map {A B C : Type} (f : B -> C) (g : A -> list B)
  (l : list A) :
  map f (flat_map g l) = flat_map (fun x => map f (g x)) l.
Proof.
  induction l as [|x l IH]; simpl; [reflexivity|].
  now rewrite map_app, IH.
Qed.

Lemma flat_map_of_map {A B C : Type} (g : B -> list C) (f : A -> B)
  (l : list A) :
  flat_map g (map f l) = flat_map (fun x => g (f x)) l.
Proof.
  induction l as [|x l IH]; simpl; [reflexivity|].
  now rewrite IH.
Qed.

Lemma map_add_seq (b a k : nat) :
  map (fun i => (i + b)%nat) (seq a k) = seq (a + b) k.
Proof.
  revert a. induction k as [|k IH]; intro a; cbn [seq map]; [reflexivity|].
  f_equal. apply (IH (S a)).
Qed.

Lemma offsets_enumerate (r : list Z) :
  map (offset_rev r) (indices_rev r) = seq 0 (size r).
Proof.
  induction r as [|x r IH]; [reflexivity|].
  cbn [indices_rev size fold_right]. fold (size r).
  rewrite map_of_flat_map.
  transitivity (flat_map (fun o => seq (Z.to_nat x * o) (Z.to_nat x))
                         (map (offset_rev r) (indices_rev r))).
  - rewrite flat_map_of_map.
    apply flat_map_ext. intro rest. rewrite map_map. cbn [offset_rev].
    transitivity (map (fun i => i + Z.to_nat x * offset_rev r rest)%nat
                      (seq 0 (Z.to_nat x))).
    + apply map_ext_in. intros i Hi. apply in_seq in Hi.
      destruct (x =? 1) eqn:E; [|reflexivity].
      apply Z.eqb_eq in E. subst x. simpl in Hi. f_equal. lia.
    + apply map_add_seq.
  - rewrite IH, blocks_of_seq. now rewrite Nat.mul_0_r.
Qed.

Lemma forallb_map {A B : Type} (f : B -> bool) (g : A -> B) (l : list A) :
  forallb f (map g l) = forallb (fun x => f (g x)) l.
Proof. induction l as [|x l IH]; simpl; [reflexivity | now rewrite IH]. Qed.

(** Two arrays of one shape are compared entry by entry. *)
Lemma all_equal_same_shape (a b : ndarray) :
  shape a = shape b ->
  all_equal a b
  = Ok (forallb (fun k => (nth k (data a) 0 =? nth k (data b) 0)%float)
                (seq 0 (size (rev (shape a))))).
Proof.
  intro Hs. unfold all_equal, read. rewrite <- Hs, broadcast_rev_refl.
  f_equal. rewrite <- offsets_enumerate. now rewrite forallb_map.
Qed.

(** ** The control-point grid of [deformable_align] *)

(** Truncation toward zero and rounding down agree below the [max]. *)
Lemma quot_max_div (n d : Z) :
  0 < d -> Z.max 1 (Z.quot n d) = Z.max 1 (Z.div n d).
Proof.
  intro Hd. destruct (Z_lt_le_dec n 0) as [Hn|Hn].
  - assert (H1 : (n / d < 0)%Z) by (apply Z.div_lt_upper_bound; lia).
    assert (H2 : (n ÷ d <= 0)%Z).
    { rewrite Z.quot_div by lia.
      assert (0 <= Z.abs n / Z.abs d)%Z by (apply Z.div_pos; lia).
      assert (Z.sgn n = -1)%Z by (apply Z.sgn_neg; lia).
      assert (Z.sgn d = 1)%Z by (apply Z.sgn_pos; lia).
      nia. }
    lia.
  - now rewrite Z.quot_div_nonneg by lia.
Qed.

(** [int] succeeds on every float that has a floor, and the two agree
    below the [max]. *)
Lemma int_max_floor (f : float) (n : Z) :
  F64.floor f = Some n ->
  exists i, F64.int f = Ok i /\ Z.max 1 i = Z.max 1 n.
Proof.
  unfold F64.floor, F64.int.
  destruct (Prim2SF f) as [s|s| |s m e]; try discriminate.
  - intros [= <-]. now exists 0.
  - intros [= <-]. destruct (0 <=? e) eqn:He.
    + eexists. split; reflexivity.
    + eexists. split; [reflexivity|].
      apply quot_max_div. apply Z.leb_gt in He.
      apply Z.pow_pos_nonneg; lia.
Qed.

Lemma mapM_Ok {A B : Type} (f : A -> result B) (g : A -> B) (xs : list A) :
  (forall x, In x xs -> f x = Ok (g x)) -> mapM f xs = Ok (map g xs).
Proof.
  induction xs as [|x xs IH]; intro H; simpl; [reflexivity|].
  rewrite (H x (or_introl eq_refl)). simpl.
  rewrite IH by (intros y Hy; apply H; now right). reflexivity.
Qed.

Lemma mapM_Forall2 {A B : Type} (f : A -> result B) (P : A -> B -> Prop)
  (xs : list A) :
  (forall x, In x xs -> exists y, f x = Ok y /\ P x y) ->
  exists ys, mapM f xs = Ok ys /\ Forall2 P xs ys.
Proof.
  induction xs as [|x xs IH]; intro H; simpl.
  - exists []. split; [reflexivity|constructor].
  - destruct (H x (or_introl eq_refl)) as (y & Hy & Py).
    destruct IH as (ys & Hys & Pys); [intros x' Hx'; apply H; now right|].
    exists (y :: ys). rewrite Hy, Hys. split; [reflexivity|].
    now constructor.
Qed.

(** One axis: for a coarsest spacing that is not zero, a voxel count
    that a float can hold and a quotient that is finite, the code takes
    the floor of the quotient, and at least 1. *)
Lemma cells_floor (z : F64.number) (xy : Z * float) (n : Z) :
  (F64.value z =? 0)%float = false ->
  is_infinity (F64.of_Z (fst xy)) = false ->
  Spec.floored_cells (F64.value z) xy = Some n ->
  Deformable.cells z xy = Ok n.
Proof.
  intros Hz Hx Hn. unfold Deformable.cells, Deformable.quotient, F64.of_int.
  rewrite Hx. cbn [Py.bind].
  unfold Spec.floored_cells in Hn.
  destruct (F64.floor (F64.of_Z (fst xy) * snd xy / F64.value z)) as [k|] eqn:Hk;
    [|discriminate].
  injection Hn as <-.
  destruct (int_max_floor _ _ Hk) as (i & Hi & Hmax).
  destruct z as [zf|zf]; cbn [F64.value] in *.
  - rewrite Hz. cbn [Py.bind]. rewrite Hi. cbn [Py.bind]. now rewrite Hmax.
  - cbn [Py.bind]. rewrite Hi. cbn [Py.bind]. now rewrite Hmax.
Qed.

(** C4, as the specification states it, fails: for an axis of 7 voxels of
    spacing 1 and a coarsest control-point spacing of 4 the quotient is
    1.75; the code takes [int(1.75) = 1] cell, the specification
    [round(1.75) = 2]. *)
Lemma cp_grid_not_rounded :
  Deformable.coarsest_spacing (F64.PyFloat 4) [1] = Ok (F64.PyFloat 4) /\
  Deformable.initial_cp_grid [7] [1%float] (F64.PyFloat 4) = Ok [1] /\
  Spec.rounded_cells 4 (7, 1%float) = Some 2 /\
  Spec.floored_cells 4 (7, 1%float) = Some 1.
Proof. repeat split. Qed.

(** C4, amended: in [deformable_align] the initial control-point grid has
    [max(1, floor(q))] cells on each axis: the quotient is truncated, not
    rounded to the nearest integer.  Here [q] is the quotient as the
    program computes it in binary64, [x * y / z] from left to right with
    a rounding after each step, for the voxel count [x] and the spacing
    [y] of the (skip-sampled) fixed image on that axis and
    [z = control_point_spacing * control_point_levels[0]]; [z] is not
    zero and every [q] is finite. *)
Theorem cp_grid_truncates :
  forall (size : list Z) (spacing : list float) (cps : F64.number)
         (l : Z) (ls : list Z),
    let z := (F64.value cps * F64.of_Z l)%float in
    is_infinity (F64.of_Z l) = false ->
    (z =? 0)%float = false ->
    (forall xy, In xy (combine size spacing) ->
                is_infinity (F64.of_Z (fst xy)) = false /\
                Spec.floored_cells z xy <> None) ->
    exists grid,
      (z' <- Deformable.coarsest_spacing cps (l :: ls);;
       Deformable.initial_cp_grid size spacing z') = Ok grid /\
      Forall2 (fun xy n => Spec.floored_cells z xy = Some n)
              (combine size spacing) grid.
Proof.
  intros size spacing cps l ls z Hl Hz Hxy.
  unfold Deformable.coarsest_spacing, F64.of_int. rewrite Hl. cbn [Py.bind].
  unfold Deformable.initial_cp_grid.
  apply mapM_Forall2. intros xy Hin.
  destruct (Hxy xy Hin) as [Hx Hf].
  destruct (Spec.floored_cells z xy) as [n|] eqn:Hn; [|congruence].
  exists n. split; [|reflexivity].
  apply cells_floor; destruct cps; assumption.
Qed.

Lemma cp_grid_truncates_witness :
  exists grid,
    (z' <- Deformable.coarsest_spacing (F64.PyFloat 4) [1];;
     Deformable.initial_cp_grid [7] [1%float] z') = Ok grid /\
    Forall2 (fun xy n => Spec.floored_cells (4 * F64.of_Z 1) xy = Some n)
            (combine [7] [1%float]) grid.
Proof.
  apply (cp_grid_truncates [7] [1%float] (F64.PyFloat 4) 1 []).
  - reflexivity.
  - reflexivity.
  - intros xy [<-|[]]. split; [reflexivity|].
    intro H. vm_compute in H. discriminate H.
Defined.

(** The rounding of the quotient counts.  Three voxels of spacing
    [1/3] over a coarsest spacing of 0.5: the float nearest to one third
    lies below it, so the exact quotient lies below 2, but the product
    [3 * (1/3)] rounds to 1 and the code takes 2 cells. *)
Example cp_grid_follows_the_float_quotient :
  Deformable.initial_cp_grid [3] [(1 / 3)%float] (F64.PyFloat 0.5) = Ok [2] /\
  option_map (fun y => Qfloor (3 * y / (1 # 2))) (F64.to_Q (1 / 3)%float)
  = Some 1.
Proof. split; reflexivity. Qed.

(** The grid of the theorem is the one [deformable_align] hands to the
    B-spline initializer, computed from the size and the spacing of the
    skip-sampled fixed image. *)
Lemma deformable_setup_grid (E : Env) (fix_ mov : ndarray) (fs ms : list Q)
  (cps : F64.number) (cpl : list Z) (o : Deformable.options)
  (m : irm E) (S : sitk_images E) (tr : sitk_transform E) :
  Deformable.setup E fix_ mov fs ms cps cpl o = Ok (m, S, tr) ->
  exists z grid,
    Deformable.coarsest_spacing cps cpl = Ok z /\
    Deformable.initial_cp_grid (GetSize E (i_fix S)) (GetSpacing E (i_fix S)) z
    = Ok grid /\
    tr = BSplineTransformInitializer E (i_fix S) grid 3.
Proof.
  unfold Deformable.setup.
  destruct (Deformable.coarsest_spacing cps cpl) as [z|e]; cbn [Py.bind];
    [|discriminate].
  destruct (Deformable.initial_cp_grid _ _ z) as [grid|e] eqn:Hg; cbn [Py.bind];
    [|discriminate].
  intros [= <- <- <-]. exists z, grid. repeat split. exact Hg.
Qed.

(** Levels [4, 2, 1] over a spacing of 1.5 on a fixed image of 8 x 9 x 20
    voxels of spacing 1, 2 and 0.5: the coarsest spacing is 6, the
    quotients are 1.33, 3 and 1.67, the grid has 1, 3 and 1 cells. *)
Example cp_grid_run :
  (z <- Deformable.coarsest_spacing (F64.PyFloat 1.5) [4; 2; 1];;
   Deformable.initial_cp_grid [8; 9; 20] [1; 2; 0.5]%float z) = Ok [1; 3; 1] /\
  Deformable.coarsest_spacing (F64.PyFloat 1.5) [] = Raise IndexError /\
  (z <- Deformable.coarsest_spacing (F64.PyFloat 0) [4; 2; 1];;
   Deformable.initial_cp_grid [8; 9; 20] [1; 2; 0.5]%float z)
  = Raise ZeroDivisionError.
Proof. repeat split. Qed.

(** ** feature_point_ransac_affine_align *)

Lemma ransac_default_cases (fix_ : ndarray) (o : Ransac.options) :
  (Ransac.default o = None ->
   Ransac.resolve_default fix_ o = eye (ndim fix_ + 1)) /\
  (forall d, Ransac.default o = Some d -> Ransac.resolve_default fix_ o = d).
Proof.
  unfold Ransac.resolve_default. split.
  - now intros ->.
  - now intros d ->.
Qed.

(** Past the guards the function is the fit on the matched pairs. *)
Lemma ransac_at_fit E fix_ mov fs ms bs o mf mm :
  Ransac.reaches_fit E fix_ mov fs ms bs o mf mm ->
  Ransac.feature_point_ransac_affine_align E fix_ mov fs ms bs o
  = Ransac.fit E (Ransac.prepare E fix_ mov fs ms o) o
      (Ransac.resolve_default fix_ o) mf mm.
Proof.
  unfold Ransac.reaches_fit, Ransac.feature_point_ransac_affine_align.
  intros (Hf & Hm & Hmatch & Hmf & Hmm).
  apply Z.ltb_ge in Hf, Hm, Hmf, Hmm.
  rewrite Hf, Hm, Hmatch. simpl. now rewrite Hmf, Hmm.
Qed.

(** C7: [feature_point_ransac_affine_align] returns exactly the default
    (the identity of size [fix.ndim + 1] when [default] is unset, the
    given matrix otherwise), without raising, whenever fewer than 100
    fixed spots are available, or fewer than 100 moving spots, or the
    point matching produces fewer than 50 pairs. *)
Theorem ransac_insufficient_features_default :
  forall (E : Env) (fix_ mov : ndarray) (fs ms : list Q) (bs : Q * Q)
         (o : Ransac.options),
    let X := Ransac.prepare E fix_ mov fs ms o in
    let fspots := Ransac.get_fix_spots E X bs o in
    let mspots := Ransac.get_mov_spots E X bs o in
    (len fspots < 100 \/ len mspots < 100 \/
     exists mf mm, Ransac.matched_spots E X o fspots mspots = Ok (mf, mm) /\
                   (len mf < 50 \/ len mm < 50)) ->
    Ransac.feature_point_ransac_affine_align E fix_ mov fs ms bs o
    = Ok (Ransac.resolve_default fix_ o) /\
    (Ransac.default o = None ->
     Ransac.resolve_default fix_ o = eye (ndim fix_ + 1)) /\
    (forall d, Ransac.default o = Some d -> Ransac.resolve_default fix_ o = d).
Proof.
  intros E fix_ mov fs ms bs o X fspots mspots H.
  split; [|apply ransac_default_cases].
  unfold Ransac.feature_point_ransac_affine_align.
  fold X. fold fspots. fold mspots.
  destruct (len fspots <? 100) eqn:Hf; [reflexivity|].
  destruct (len mspots <? 100) eqn:Hm; [reflexivity|].
  apply Z.ltb_ge in Hf, Hm.
  destruct H as [H|[H|(mf & mm & Hmatch & H)]]; try lia.
  rewrite Hmatch. simpl.
  destruct H as [H|H]; apply Z.ltb_lt in H; rewrite H;
    [reflexivity | now rewrite orb_true_r].
Qed.

Lemma ransac_insufficient_features_default_witness :
  Ransac.feature_point_ransac_affine_align Demo.env_few_matches Demo.image Demo.image
    [1; 1; 1]%Q [1; 1; 1]%Q (1, 4)%Q Ransac.defaults
  = Ok (Ransac.resolve_default Demo.image Ransac.defaults) /\
  (Ransac.default Ransac.defaults = None ->
   Ransac.resolve_default Demo.image Ransac.defaults = eye (ndim Demo.image + 1)) /\
  (forall d, Ransac.default Ransac.defaults = Some d ->
             Ransac.resolve_default Demo.image Ransac.defaults = d).
Proof.
  apply (ransac_insufficient_features_default Demo.env_few_matches Demo.image Demo.image
           [1; 1; 1]%Q [1; 1; 1]%Q (1, 4)%Q Ransac.defaults).
  right. right.
  exists (Demo.some_points 49), (Demo.some_points 49).
  split; [vm_compute; reflexivity | left; reflexivity].
Defined.





(** A fit that is accepted comes back as a homogeneous matrix. *)
Example ransac_accepts_identity_like :
  Ransac.feature_point_ransac_affine_align
    (Demo.env_fit (1, Some (Demo.affine_with_diagonal 1 1.125 1), None)) Demo.image Demo.image
    [1; 1; 1]%Q [1; 1; 1]%Q (1, 4)%Q Ransac.defaults
  = Ok (mk_ndarray [4; 4]
          [1; 0; 0; 0;  0; 1.125; 0; 0;  0; 0; 1; 0;  0; 0; 0; 1]%float).
Proof. vm_compute. reflexivity. Qed.

(** The result of the fit does not depend on the success flag. *)
Lemma fit_ignores_flag (E : Env) (X : sampled) (o : Ransac.options)
  (dflt : ndarray) (mf mm : spots) (r : Z) (Aff inl : option ndarray) :
  estimateAffine3D E mf mm (Ransac.align_threshold o) (999 # 1000)
    (Ransac.kwargs o) = (r, Aff, inl) ->
  Ransac.fit E X o dflt mf mm
  = (d <- Ransac.diag_of Aff;;
     if any_abs_minus_one_gt d (Ransac.diagonal_constraint o) then Ok dflt
     else match Aff with
          | Some a => Ransac.augment (ndim (s_fix X)) a
          | None => Raise ValueError
          end).
Proof. unfold Ransac.fit. now intros ->. Qed.

(** C3, evaluated on the code: when the run reaches the consensus fit and
    the fitter reports failure, handing back no matrix, the function
    raises ([np.diag(None)] is a [ValueError]) instead of returning the
    default.  The success flag is never looked at. *)
Theorem ransac_fit_failure_escapes :
  forall (E : Env) (fix_ mov : ndarray) (fs ms : list Q) (bs : Q * Q)
         (o : Ransac.options) (mf mm : spots) (r : Z) (inl : option ndarray),
    Ransac.reaches_fit E fix_ mov fs ms bs o mf mm ->
    estimateAffine3D E mf mm (Ransac.align_threshold o) (999 # 1000)
      (Ransac.kwargs o) = (r, None, inl) ->
    Ransac.feature_point_ransac_affine_align E fix_ mov fs ms bs o
    = Raise ValueError.
Proof.
  intros E fix_ mov fs ms bs o mf mm r inl Hreach Hfit.
  rewrite (ransac_at_fit _ _ _ _ _ _ _ _ _ Hreach).
  unfold Ransac.fit. now rewrite Hfit.
Qed.

Lemma ransac_fit_failure_escapes_witness :
  Ransac.feature_point_ransac_affine_align
    (Demo.env_fit (0, None, None)) Demo.image Demo.image
    [1; 1; 1]%Q [1; 1; 1]%Q (1, 4)%Q Ransac.defaults
  = Raise ValueError.
Proof.
  apply (ransac_fit_failure_escapes (Demo.env_fit (0, None, None)) Demo.image Demo.image
           [1; 1; 1]%Q [1; 1; 1]%Q (1, 4)%Q Ransac.defaults
           (Demo.some_points 50) (Demo.some_points 50) 0 None).
  - repeat split; vm_compute; try reflexivity; discriminate.
  - reflexivity.
Defined.
(** ** affine_align and deformable_align *)

(** The guarded block raises exactly when one of its three engine calls
    raises: the first evaluation, the optimization, or the evaluation
    after a successful optimization. *)
Lemma run_engine_raises (E : Env) (m : irm E) (a b : sitk_image E) (e : exn) :
  run_engine E m a b = Raise e <->
  MetricEvaluate E m a b = Raise e \/
  (exists i, MetricEvaluate E m a b = Ok i /\ Execute E m a b = Raise e) \/
  (exists i t, MetricEvaluate E m a b = Ok i /\ Execute E m a b = Ok t /\
               MetricEvaluate E (with_transform m t) a b = Raise e).
Proof.
  unfold run_engine.
  destruct (MetricEvaluate E m a b) as [i|e1] eqn:H1; simpl.
  - destruct (Execute E m a b) as [t|e2] eqn:H2; simpl.
    + destruct (MetricEvaluate E (with_transform m t) a b) as [f|e3] eqn:H3; simpl.
      * split; [discriminate|].
        intros [H|[(i' & _ & H)|(i' & t' & _ & Ht & H)]]; try discriminate.
        injection Ht as <-. congruence.
      * split.
        -- intros [= <-]. right. right. now exists i, t.
        -- intros [H|[(i' & _ & H)|(i' & t' & _ & Ht & H)]]; try discriminate.
           injection Ht as <-. congruence.
    + split.
      * intros [= <-]. right. left. now exists i.
      * intros [H|[(i' & _ & H)|(i' & t' & _ & Ht & _)]]; try discriminate.
        congruence.
  - split.
    + intros [= <-]. now left.
    + intros [H|[(i' & H & _)|(i' & t' & H & _)]]; try discriminate.
      congruence.
Qed.

(** The default of [affine_align], case by case: what lines 822-826 make
    of the [default] and the [initial_condition] of the caller. *)
Lemma affine_default_cases (fix_ : ndarray) (o : Affine.options) :
  let I := eye (ndim fix_ + 1) in
  let dflt := Affine.resolve_default fix_ o in
  (Affine.default o = None ->
   (forall m, Affine.initial_condition o <> Affine.IC_Matrix m) ->
   dflt = Ok I) /\
  (forall m, Affine.default o = None ->
             Affine.initial_condition o = Affine.IC_Matrix m -> dflt = Ok m) /\
  (forall d, Affine.default o = Some d ->
             (forall m, Affine.initial_condition o <> Affine.IC_Matrix m) ->
             dflt = Ok d) /\
  (forall d m, Affine.default o = Some d ->
               Affine.initial_condition o = Affine.IC_Matrix m ->
               all_equal d I = Ok false -> dflt = Ok d) /\
  (forall d m, Affine.default o = Some d ->
               Affine.initial_condition o = Affine.IC_Matrix m ->
               all_equal d I = Ok true -> dflt = Ok m) /\
  (forall d m e, Affine.default o = Some d ->
                 Affine.initial_condition o = Affine.IC_Matrix m ->
                 all_equal d I = Raise e -> dflt = Raise e).
Proof.
  intros I dflt. unfold dflt, Affine.resolve_default. fold I.
  repeat split.
  - intros -> Hic. destruct (Affine.initial_condition o); try reflexivity.
    now destruct (Hic m).
  - intros m -> ->. unfold I. now rewrite all_equal_eye.
  - intros d -> Hic. destruct (Affine.initial_condition o); try reflexivity.
    now destruct (Hic m).
  - intros d m -> -> ->. reflexivity.
  - intros d m -> -> ->. reflexivity.
  - intros d m e -> -> ->. reflexivity.
Qed.

(** For a default of the shape of the identity, the comparison of line
    825 asks for equal entries, one by one. *)
Lemma default_equals_identity (d : ndarray) (n : Z) :
  shape d = [n; n] ->
  all_equal d (eye n) = Ok true <->
  (forall k, (k < Z.to_nat n * Z.to_nat n)%nat ->
             (nth k (data d) 0 =? nth k (data (eye n)) 0)%float = true).
Proof.
  intro Hs. rewrite (all_equal_same_shape d (eye n)) by (now rewrite Hs).
  rewrite Hs. cbn [rev app size fold_right]. rewrite Nat.mul_1_r.
  split.
  - intros [= H] k Hk. rewrite forallb_forall in H. apply H.
    apply in_seq. lia.
  - intro H. f_equal. apply forallb_forall. intros k Hk.
    apply in_seq in Hk. apply H. lia.
Qed.

(** Once the default is resolved, [affine_align] improves the metric or
    falls back to it. *)
Lemma affine_align_outcome (E : Env) (fix_ mov : ndarray) (fs ms : list Q)
  (o : Affine.options) (dflt : ndarray) :
  Affine.resolve_default fix_ o = Ok dflt ->
  let mS := Affine.setup E fix_ mov fs ms o in
  Spec.improve_or_fall_back
    (run_engine E (fst mS) (i_fix (snd mS)) (i_mov (snd mS)))
    (Affine.affine_align E fix_ mov fs ms o)
    dflt (affine_transform_to_matrix E).
Proof.
  intros Hd mS. unfold Affine.affine_align. rewrite Hd. cbn [Py.bind].
  fold mS. repeat split.
  - intros e ->. reflexivity.
  - intros i f t -> H. apply ltb_nlt in H. now rewrite H.
  - intros i f t -> H. apply ltb_lt in H. now rewrite H.
Qed.

(** What raises while the default is resolved leaves [affine_align]. *)
Lemma affine_align_default_raises (E : Env) (fix_ mov : ndarray)
  (fs ms : list Q) (o : Affine.options) (e : exn) :
  Affine.resolve_default fix_ o = Raise e ->
  Affine.affine_align E fix_ mov fs ms o = Raise e.
Proof.
  intro Hd. unfold Affine.affine_align. now rewrite Hd.
Qed.

(** [deformable_align] improves the metric or falls back to its default. *)
Lemma deformable_align_outcome (E : Env) (fix_ mov : ndarray) (fs ms : list Q)
  (cps : F64.number) (cpl : list Z) (o : Deformable.options)
  (m : irm E) (S : sitk_images E) (tr : sitk_transform E) :
  Deformable.setup E fix_ mov fs ms cps cpl o = Ok (m, S, tr) ->
  Spec.improve_or_fall_back
    (run_engine E m (i_fix S) (i_mov S))
    (Deformable.deformable_align E fix_ mov fs ms cps cpl o)
    (Deformable.resolve_default E fix_ fs o S tr)
    (fun t => Deformable.params_and_field E t (shape fix_) fs
                (Deformable.fix_origin o) (GetDimension E (i_fix S))).
Proof.
  intro Hsetup. unfold Deformable.deformable_align. rewrite Hsetup. simpl.
  repeat split.
  - intros e ->. reflexivity.
  - intros i f t -> H. apply ltb_nlt in H. now rewrite H.
  - intros i f t -> H. apply ltb_lt in H. now rewrite H.
Qed.

(** C2, evaluated on the code.  Both refiners return the fallback when
    the engine raises and when the final metric is not strictly lower
    than the initial one, and the optimized transform when, and so only
    when, it is strictly lower.  For [deformable_align] the fallback is
    the default of the caller, exactly, and without one the parameters
    and the field of the initial transform.  For [affine_align] it is the
    default of the caller, exactly, except next to a matrix
    [initial_condition]: there a default that equals the identity is
    replaced by the initial condition, so the value returned is not the
    default that was passed.  Without a default it is the matrix initial
    condition, or else the identity. *)
Theorem refiners_improve_or_fall_back :
  forall (E : Env) (fix_ mov : ndarray) (fs ms : list Q),
    (forall (o : Affine.options),
        let mS := Affine.setup E fix_ mov fs ms o in
        let run := run_engine E (fst mS) (i_fix (snd mS)) (i_mov (snd mS)) in
        let out := Affine.affine_align E fix_ mov fs ms o in
        let optimized := affine_transform_to_matrix E in
        let I := eye (ndim fix_ + 1) in
        (forall d, Affine.default o = Some d ->
                   (forall m, Affine.initial_condition o = Affine.IC_Matrix m ->
                              all_equal d I = Ok false) ->
                   Spec.improve_or_fall_back run out d optimized) /\
        (forall d m, Affine.default o = Some d ->
                     Affine.initial_condition o = Affine.IC_Matrix m ->
                     all_equal d I = Ok true ->
                     Spec.improve_or_fall_back run out m optimized) /\
        (forall m, Affine.default o = None ->
                   Affine.initial_condition o = Affine.IC_Matrix m ->
                   Spec.improve_or_fall_back run out m optimized) /\
        (Affine.default o = None ->
         (forall m, Affine.initial_condition o <> Affine.IC_Matrix m) ->
         Spec.improve_or_fall_back run out I optimized))
    /\
    (forall (cps : F64.number) (cpl : list Z) (o : Deformable.options)
            (m : irm E) (S : sitk_images E) (tr : sitk_transform E),
        Deformable.setup E fix_ mov fs ms cps cpl o = Ok (m, S, tr) ->
        let run := run_engine E m (i_fix S) (i_mov S) in
        let out := Deformable.deformable_align E fix_ mov fs ms cps cpl o in
        let read := fun t => Deformable.params_and_field E t (shape fix_) fs
                               (Deformable.fix_origin o)
                               (GetDimension E (i_fix S)) in
        (forall d, Deformable.default o = Some d ->
                   Spec.improve_or_fall_back run out d read) /\
        (Deformable.default o = None ->
         Spec.improve_or_fall_back run out (read tr) read)).
Proof.
  intros E fix_ mov fs ms. split.
  - intros o mS run out optimized I.
    destruct (affine_default_cases fix_ o) as (H1 & H2 & H3 & H4 & H5 & _).
    split; [|split; [|split]].
    + intros d Hd Hic. apply affine_align_outcome.
      destruct (Affine.initial_condition o) as [|s|m] eqn:Hi.
      * apply H3; [exact Hd|]. intros m Hm. discriminate Hm.
      * apply H3; [exact Hd|]. intros m Hm. discriminate Hm.
      * apply (H4 d m Hd eq_refl). exact (Hic m eq_refl).
    + intros d m Hd Hic Heq. apply affine_align_outcome. now apply (H5 d m).
    + intros m Hd Hic. apply affine_align_outcome. now apply H2.
    + intros Hd Hic. apply affine_align_outcome. now apply H1.
  - intros cps cpl o m S tr Hsetup run out read.
    pose proof (deformable_align_outcome E fix_ mov fs ms cps cpl o m S tr Hsetup)
      as H.
    unfold Deformable.resolve_default in H.
    split.
    + intros d Hd. rewrite Hd in H. exact H.
    + intros Hd. rewrite Hd in H. exact H.
Qed.

(** The cases of C2 on concrete engines.  [affine_align]: a default of
    the caller comes back when the optimization raises and when the
    metric stays at 2; the optimized matrix comes back when the metric
    goes from 2 to 1; the identity passed as default next to a matrix
    initial condition does not come back.  [deformable_align]: the
    default of the caller comes back when the optimization raises. *)
Lemma refiners_improve_or_fall_back_witness :
  Affine.affine_align Demo.env_engine_raises Demo.image Demo.image
    [1; 1; 1]%Q [1; 1; 1]%Q Demo.other_default_options
  = Ok Demo.optimized_matrix /\
  Affine.affine_align (Demo.env_engine 1) Demo.image Demo.image
    [1; 1; 1]%Q [1; 1; 1]%Q Affine.defaults = Ok Demo.optimized_matrix /\
  Affine.affine_align Demo.env_engine_raises Demo.image Demo.image
    [1; 1; 1]%Q [1; 1; 1]%Q Demo.identity_default_options
  = Ok Demo.initial_matrix /\
  Deformable.deformable_align Demo.env_engine_raises Demo.image Demo.image
    [1; 1; 1]%Q [1; 1; 1]%Q (F64.PyFloat 4) [2; 1] Demo.given_default_options
  = Ok Demo.given_default.
Proof.
  pose proof (refiners_improve_or_fall_back Demo.env_engine_raises
                Demo.image Demo.image [1; 1; 1]%Q [1; 1; 1]%Q) as [Ha Hd].
  pose proof (refiners_improve_or_fall_back (Demo.env_engine 1)
                Demo.image Demo.image [1; 1; 1]%Q [1; 1; 1]%Q) as [Ha1 _].
  split; [|split; [|split]].
  - destruct (Ha Demo.other_default_options) as (H & _).
    apply (proj1 (H Demo.optimized_matrix eq_refl
                    (fun m _ => eq_refl)) (EngineError "itk")).
    reflexivity.
  - destruct (Ha1 Affine.defaults) as (_ & _ & _ & H).
    apply (proj2 (proj2 (H eq_refl
                           (fun m (Hm : Affine.IC_None = Affine.IC_Matrix m) =>
                              eq_ind Affine.IC_None
                                (fun x => match x with
                                          | Affine.IC_None => True
                                          | _ => False
                                          end) I _ Hm)))
             2%Q 1%Q Demo.optimized_matrix); reflexivity.
  - destruct (Ha Demo.identity_default_options) as (_ & H & _).
    apply (proj1 (H (eye 4) Demo.initial_matrix eq_refl eq_refl eq_refl)
             (EngineError "itk")).
    reflexivity.
  - destruct (Hd (F64.PyFloat 4) [2; 1] Demo.given_default_options _ _ _ eq_refl)
      as (H & _).
    apply (proj1 (H Demo.given_default eq_refl) (EngineError "itk")).
    reflexivity.
Defined.

(** The three outcomes of [deformable_align] without a default. *)
Example deformable_align_cases :
  let initial := ([1; 1; 1]%Q, mk_ndarray [2; 2; 2; 3] []) in
  Deformable.deformable_align Demo.env_engine_raises Demo.image Demo.image
    [1; 1; 1]%Q [1; 1; 1]%Q (F64.PyFloat 4) [2; 1] Deformable.defaults
  = Ok initial /\
  Deformable.deformable_align (Demo.env_engine 2) Demo.image Demo.image
    [1; 1; 1]%Q [1; 1; 1]%Q (F64.PyFloat 4) [2; 1] Deformable.defaults
  = Ok initial /\
  Deformable.deformable_align (Demo.env_engine 1) Demo.image Demo.image
    [1; 1; 1]%Q [1; 1; 1]%Q (F64.PyFloat 4) [2; 1] Deformable.defaults
  = Ok ([4; 4]%Q, mk_ndarray [2; 2; 2; 3] (data Demo.optimized_matrix)).
Proof. repeat split. Qed.

(** C5, evaluated on the code.  When [affine_align] fails, the value
    returned is: the identity when neither a default nor a matrix
    [initial_condition] was supplied; the matrix initial condition when
    no default was supplied; the supplied default, exactly as given, when
    no matrix initial condition was supplied or when the default does not
    equal the identity.  But a supplied default that equals the identity
    is replaced, next to a matrix initial condition, by that initial
    condition, and a supplied default that cannot be compared with the
    identity makes the function raise: lines 823-826 cannot tell a
    default that was passed from one that was filled in. *)
Theorem affine_fallback_resolution :
  forall (E : Env) (fix_ mov : ndarray) (fs ms : list Q) (o : Affine.options),
    let mS := Affine.setup E fix_ mov fs ms o in
    let run := run_engine E (fst mS) (i_fix (snd mS)) (i_mov (snd mS)) in
    let out := Affine.affine_align E fix_ mov fs ms o in
    let I := eye (ndim fix_ + 1) in
    ((exists e, run = Raise e) \/
     (exists i f t, run = Ok (i, f, t) /\ ~ (f < i)%Q)) ->
    (Affine.default o = None ->
     (forall m, Affine.initial_condition o <> Affine.IC_Matrix m) ->
     out = Ok I) /\
    (forall m, Affine.default o = None ->
               Affine.initial_condition o = Affine.IC_Matrix m ->
               out = Ok m) /\
    (forall d, Affine.default o = Some d ->
               (forall m, Affine.initial_condition o <> Affine.IC_Matrix m) ->
               out = Ok d) /\
    (forall d m, Affine.default o = Some d ->
                 Affine.initial_condition o = Affine.IC_Matrix m ->
                 all_equal d I = Ok false -> out = Ok d) /\
    (forall d m, Affine.default o = Some d ->
                 Affine.initial_condition o = Affine.IC_Matrix m ->
                 all_equal d I = Ok true -> out = Ok m) /\
    (forall d m e, Affine.default o = Some d ->
                   Affine.initial_condition o = Affine.IC_Matrix m ->
                   all_equal d I = Raise e -> out = Raise e).
Proof.
  intros E fix_ mov fs ms o mS run out I Hfail.
  assert (Hout : forall fb, Affine.resolve_default fix_ o = Ok fb -> out = Ok fb).
  { intros fb Hfb.
    destruct (affine_align_outcome E fix_ mov fs ms o fb Hfb) as (Hr & Hn & _).
    destruct Hfail as [(e & He)|(i & f & t & Hrun & Hlt)].
    - exact (Hr e He).
    - exact (Hn i f t Hrun Hlt). }
  destruct (affine_default_cases fix_ o) as (H1 & H2 & H3 & H4 & H5 & H6).
  split; [|split; [|split; [|split; [|split]]]].
  - intros Hd Hic. apply Hout. now apply H1.
  - intros m Hd Hic. apply Hout. now apply H2.
  - intros d Hd Hic. apply Hout. now apply H3.
  - intros d m Hd Hic Heq. apply Hout. now apply (H4 d m).
  - intros d m Hd Hic Heq. apply Hout. now apply (H5 d m).
  - intros d m e Hd Hic Heq. apply affine_align_default_raises.
    now apply (H6 d m e).
Qed.

(** The failing input of C5: the identity as explicit default next to a
    matrix initial condition.  On failure the initial condition comes
    back, not the identity that was passed. *)
Lemma affine_fallback_resolution_witness :
  Affine.default Demo.identity_default_options = Some (eye 4) /\
  Affine.affine_align Demo.env_engine_raises Demo.image Demo.image
    [1; 1; 1]%Q [1; 1; 1]%Q Demo.identity_default_options
  = Ok Demo.initial_matrix /\
  all_equal Demo.initial_matrix (eye 4) = Ok false.
Proof.
  split; [reflexivity|]. split; [|reflexivity].
  destruct (affine_fallback_resolution Demo.env_engine_raises Demo.image
              Demo.image [1; 1; 1]%Q [1; 1; 1]%Q Demo.identity_default_options)
    as (_ & _ & _ & _ & H & _).
  - left. exists (EngineError "itk"). reflexivity.
  - apply (H (eye 4) Demo.initial_matrix); reflexivity.
Defined.

(** A default of another shape than the identity, next to a matrix
    initial condition: the comparison of line 825 raises, ahead of the
    [try] block. *)
Example affine_default_of_another_shape :
  Affine.affine_align (Demo.env_engine 1) Demo.image Demo.image
    [1; 1; 1]%Q [1; 1; 1]%Q
    (Affine.mk_options false (Affine.IC_Matrix Demo.initial_matrix)
       None None None None None [] (Some (eye 3)) [])
  = Raise ValueError.
Proof. reflexivity. Qed.

(** ** random_affine_search: the table, the scores, the selection *)

Lemma set_block_head (c : nat) (block params : list (list xreal)) :
  nth_error (RandomSearch.set_block c block params) 0 = nth_error params 0.
Proof. destruct params; reflexivity. Qed.

Lemma fill_head g n c limit pre post st st' :
  RandomSearch.fill g n c limit pre post st = Ok st' ->
  nth_error (fst st') 0 = nth_error (fst st) 0.
Proof.
  unfold RandomSearch.fill.
  destruct (RandomSearch.truthy limit) as [mx|].
  - destruct (RandomSearch.F g (snd st) n (pre mx)) as [block|e]; simpl;
      [|discriminate].
    intros [= <-]. apply set_block_head.
  - now intros [= <-].
Qed.

(** Row 0 of the table is the identity, whatever the limits and the
    draws are. *)
Lemma first_row_is_identity g n mt mr ms msh params :
  RandomSearch.generate_params g n mt mr ms msh = Ok params ->
  nth_error params 0 = Some RandomSearch.identity_params.
Proof.
  unfold RandomSearch.generate_params.
  destruct (RandomSearch.fill g n 0 mt _ _ _) as [st1|] eqn:H1; cbn [Py.bind]; [|discriminate].
  destruct (RandomSearch.fill g n 3 mr _ _ _) as [st2|] eqn:H2; cbn [Py.bind]; [|discriminate].
  destruct (RandomSearch.fill g n 6 ms _ _ _) as [st3|] eqn:H3; cbn [Py.bind]; [|discriminate].
  destruct (RandomSearch.fill g n 9 msh _ _ _) as [st4|] eqn:H4; cbn [Py.bind]; [|discriminate].
  intros [= <-].
  rewrite (fill_head _ _ _ _ _ _ _ _ H4), (fill_head _ _ _ _ _ _ _ _ H3),
          (fill_head _ _ _ _ _ _ _ _ H2), (fill_head _ _ _ _ _ _ _ _ H1).
  reflexivity.
Qed.

Lemma set_block_length (c : nat) (block params : list (list xreal)) :
  length block = pred (length params) ->
  length (RandomSearch.set_block c block params) = length params.
Proof.
  destruct params as [|row0 rest]; simpl; [reflexivity|].
  intro H. now rewrite length_map, length_combine, H, Nat.min_id.
Qed.

Lemma F_length g pos n mx block :
  RandomSearch.F g pos n mx = Ok block -> length block = n.
Proof.
  unfold RandomSearch.F.
  destruct (RandomSearch.xbroadcast3 mx); simpl; [|discriminate].
  intros [= <-]. unfold RandomSearch.rand.
  now rewrite !length_map, length_seq.
Qed.

Lemma fill_length g n c limit pre post st st' :
  (forall b, length (post b) = length b) ->
  length (fst st) = S n ->
  RandomSearch.fill g n c limit pre post st = Ok st' ->
  length (fst st') = S n.
Proof.
  intros Hpost Hlen. unfold RandomSearch.fill.
  destruct (RandomSearch.truthy limit) as [mx|].
  - destruct (RandomSearch.F g (snd st) n (pre mx)) as [block|e] eqn:HF; simpl;
      [|discriminate].
    intros [= <-]. simpl. rewrite set_block_length; [exact Hlen|].
    rewrite Hpost, (F_length _ _ _ _ _ HF), Hlen. reflexivity.
  - now intros [= <-].
Qed.

(** The table has [random_iterations + 1] rows. *)
Lemma generate_params_length g n mt mr ms msh params :
  RandomSearch.generate_params g n mt mr ms msh = Ok params ->
  length params = S n.
Proof.
  unfold RandomSearch.generate_params.
  destruct (RandomSearch.fill g n 0 mt _ _ _) as [st1|] eqn:H1; cbn [Py.bind]; [|discriminate].
  destruct (RandomSearch.fill g n 3 mr _ _ _) as [st2|] eqn:H2; cbn [Py.bind]; [|discriminate].
  destruct (RandomSearch.fill g n 6 ms _ _ _) as [st3|] eqn:H3; cbn [Py.bind]; [|discriminate].
  destruct (RandomSearch.fill g n 9 msh _ _ _) as [st4|] eqn:H4; cbn [Py.bind]; [|discriminate].
  intros [= <-].
  assert (Hid : forall b : list (list xreal), length b = length b) by reflexivity.
  assert (He : forall b, length (RandomSearch.np_e_pow b) = length b)
    by (intro b; apply length_map).
  eapply fill_length; [exact Hid| |exact H4].
  eapply fill_length; [exact He| |exact H3].
  eapply fill_length; [exact Hid| |exact H2].
  eapply fill_length; [exact Hid| |exact H1].
  simpl. now rewrite repeat_length.
Qed.

Lemma mapM_length {A B : Type} (f : A -> result B) (xs : list A) (ys : list B) :
  mapM f xs = Ok ys -> length ys = length xs.
Proof.
  revert ys. induction xs as [|x xs IH]; intros ys; simpl.
  - now intros [= <-].
  - destruct (f x); simpl; [|discriminate].
    destruct (mapM f xs) as [l|]; simpl; [|discriminate].
    intros [= <-]. simpl. now rewrite (IH l eq_refl).
Qed.

(** Line 600 makes a tuple of the spacing of a 2-d input, and only of
    that. *)
Lemma spacings_are_tuples (fix_ mov : ndarray) (fs ms : list Q)
  (o : RandomSearch.options) :
  RandomSearch.in_spacings_are_tuples
    (RandomSearch.generalize_to_3d fix_ mov fs ms o) = (ndim fix_ =? 2).
Proof.
  unfold RandomSearch.generalize_to_3d. now destruct (ndim fix_ =? 2).
Qed.

(** So the skip sampling of line 629 raises on 2-d inputs, and on no
    others. *)
Lemma sample_2d (E : Env) (fix_ mov : ndarray) (fs ms : list Q)
  (o : RandomSearch.options) :
  ndim fix_ = 2 ->
  RandomSearch.sample E (RandomSearch.generalize_to_3d fix_ mov fs ms o)
    (RandomSearch.alignment_spacing o) = Raise AttributeError.
Proof.
  intro H. unfold RandomSearch.sample.
  rewrite spacings_are_tuples, H. reflexivity.
Qed.

Lemma sample_3d (E : Env) (fix_ mov : ndarray) (fs ms : list Q)
  (o : RandomSearch.options) :
  ndim fix_ <> 2 ->
  let I := RandomSearch.generalize_to_3d fix_ mov fs ms o in
  RandomSearch.sample E I (RandomSearch.alignment_spacing o)
  = Ok (apply_alignment_spacing E (RandomSearch.in_fix I)
          (RandomSearch.in_mov I) (RandomSearch.in_fix_mask I)
          (RandomSearch.in_mov_mask I) (RandomSearch.in_fix_spacing I)
          (RandomSearch.in_mov_spacing I) (RandomSearch.alignment_spacing o)).
Proof.
  intros H I. unfold RandomSearch.sample. unfold I at 1.
  rewrite spacings_are_tuples.
  apply Z.eqb_neq in H. now rewrite H.
Qed.

(** [np.argpartition] refuses a [kth] equal to the length of the array. *)
Lemma argpartition_at_length (a : list Q) :
  a <> [] -> argpartition a (len a) = Raise ValueError.
Proof.
  intro Ha. unfold argpartition, len.
  assert (0 < Z.of_nat (length a)) by (destruct a; [congruence|simpl; lia]).
  destruct (Z.of_nat (length a) <? 0) eqn:H1; [apply Z.ltb_lt in H1; lia|].
  destruct (Z.of_nat (length a) =? 0) eqn:H2; [apply Z.eqb_eq in H2; lia|].
  now rewrite Z.leb_refl, orb_true_r.
Qed.

(** C1, evaluated on the code: with [random_iterations = 0] and
    [nreturn = 1] the function never returns.  The table has the single
    identity row, so there is one score, and
    [np.argpartition(scores, 1)] on an array of length 1 raises
    [ValueError] (kth out of bounds); an exception raised earlier is the
    only other outcome. *)
Theorem search_without_iterations_raises :
  forall (E : Env) (g : nat -> R) (fix_ mov : ndarray) (fs ms : list Q)
         (o : RandomSearch.options),
    RandomSearch.nreturn o = 1 ->
    exists e,
      RandomSearch.random_affine_search E g fix_ mov fs ms 0 o = Raise e.
Proof.
  intros E g fix_ mov fs ms o Hn.
  unfold RandomSearch.random_affine_search.
  destruct (RandomSearch.generate_params _ _ _ _ _ _) as [params|e] eqn:Hp;
    simpl; [|now exists e].
  destruct (RandomSearch.center_of _ _) as [center|e]; simpl; [|now exists e].
  destruct (RandomSearch.sample _ _ _) as [X|e]; simpl; [|now exists e].
  destruct (mapM _ params) as [scores|e] eqn:Hs; simpl; [|now exists e].
  exists ValueError.
  apply mapM_length in Hs. apply generate_params_length in Hp.
  unfold RandomSearch.top_results. rewrite Hn.
  destruct scores as [|s [|s' scores]]; simpl in Hs; try (rewrite Hp in Hs; discriminate).
  reflexivity.
Qed.

Lemma search_without_iterations_raises_witness :
  exists e,
    RandomSearch.random_affine_search (Demo.env_engine 1) Demo.halves
      Demo.image Demo.image [1; 1; 1]%Q [1; 1; 1]%Q 0 RandomSearch.defaults
    = Raise e.
Proof.
  apply (search_without_iterations_raises (Demo.env_engine 1) Demo.halves
           Demo.image Demo.image [1; 1; 1]%Q [1; 1; 1]%Q RandomSearch.defaults).
  reflexivity.
Defined.

(** The same call, run: the identity row is scored, then the selection
    raises. *)
Example search_without_iterations_run :
  RandomSearch.random_affine_search (Demo.env_engine 1) Demo.halves
    Demo.image Demo.image [1; 1; 1]%Q [1; 1; 1]%Q 0 RandomSearch.defaults
  = Raise ValueError.
Proof. reflexivity. Qed.

(** With one random row more than results asked for, the selection works:
    here both rows score 2 and the identity row comes first. *)
Example search_with_one_iteration_run :
  RandomSearch.random_affine_search (Demo.env_engine 1) Demo.halves
    Demo.image Demo.image [1; 1; 1]%Q [1; 1; 1]%Q 1 RandomSearch.defaults
  = Ok [eye 4].
Proof. reflexivity. Qed.

(** *** The selection with at least one random row

    With more rows than results asked for, the selection does what the
    docstring says; in particular a best-scoring identity row is the
    single result. *)

Lemma insert_by_length (key : nat -> Q) (i : nat) (l : list nat) :
  length (insert_by key i l) = S (length l).
Proof.
  induction l as [|j l IH]; simpl; [reflexivity|].
  destruct (Py.ltb (key i) (key j)); simpl; [reflexivity|].
  now rewrite IH.
Qed.

Lemma fold_insert_head (key : nat -> Q) (h : nat) (l acc : list nat) :
  (forall i, In i l -> (key h < key i)%Q) ->
  exists rest,
    fold_left (fun acc i => insert_by key i acc) l (h :: acc) = h :: rest.
Proof.
  revert acc. induction l as [|i l IH]; intros acc Hl; simpl.
  - now exists acc.
  - assert (Hi : Py.ltb (key i) (key h) = false).
    { apply ltb_nlt. intro H.
      exact (Qlt_irrefl _ (Qlt_trans _ _ _ H (Hl i (or_introl eq_refl)))). }
    rewrite Hi. apply IH. intros k Hk. apply Hl. now right.
Qed.

(** When the first key is strictly the smallest, index 0 comes first. *)
Lemma argsort_head (s0 : Q) (rest : list Q) :
  (forall s, In s rest -> (s0 < s)%Q) ->
  exists tl, argsort (s0 :: rest) = 0%nat :: tl.
Proof.
  intro H. unfold argsort.
  change (seq 0 (length (s0 :: rest))) with (0%nat :: seq 1 (length rest)).
  cbn [fold_left insert_by].
  apply fold_insert_head. intros i Hi. apply in_seq in Hi.
  destruct i as [|i]; [lia|]. cbn [nth].
  apply H. apply nth_In. lia.
Qed.

Lemma slice_to_one {A : Type} (x : A) (l : list A) : slice_to (x :: l) 1 = [x].
Proof.
  unfold slice_to, slice, clamp_index, len. cbn [length].
  change (0 <? 0) with false. change (1 <? 0) with false. cbn iota.
  replace (Z.min (Z.of_nat (S (length l))) 0) with 0 by lia.
  replace (Z.min (Z.of_nat (S (length l))) 1) with 1 by lia.
  reflexivity.
Qed.

Lemma top_result_is_best {A : Type} (p0 : A) (rest_p : list A)
  (s0 : Q) (rest_s : list Q) :
  rest_s <> [] ->
  (forall s, In s rest_s -> (s0 < s)%Q) ->
  RandomSearch.top_results (p0 :: rest_p) (s0 :: rest_s) 1 = Ok [p0].
Proof.
  intros Hne Hbest. unfold RandomSearch.top_results.
  assert (Hpart : argpartition (s0 :: rest_s) 1 = Ok (argsort (s0 :: rest_s))).
  { unfold argpartition, len. cbn [length].
    destruct rest_s as [|s1 rest_s]; [congruence|]. cbn [length].
    change (1 <? 0) with false. cbn iota.
    destruct (Z.of_nat (S (S (length rest_s))) =? 0) eqn:E0;
      [apply Z.eqb_eq in E0; lia|].
    destruct (Z.of_nat (S (S (length rest_s))) <=? 1) eqn:E1;
      [apply Z.leb_le in E1; lia|].
    reflexivity. }
  rewrite Hpart. cbn [Py.bind].
  destruct (argsort_head s0 rest_s Hbest) as (tl & ->).
  rewrite slice_to_one. reflexivity.
Qed.

(** Three rows: the best one; the two best, best first; and as many
    results as rows, which the selection refuses. *)
Example top_result_run :
  RandomSearch.top_results ["identity"; "row 1"; "row 2"]%string
    [1 # 2; 3 # 4; 2 # 3]%Q 1 = Ok ["identity"%string] /\
  RandomSearch.top_results ["identity"; "row 1"; "row 2"]%string
    [1 # 2; 3 # 4; 1 # 3]%Q 2 = Ok ["row 2"; "identity"]%string /\
  RandomSearch.top_results ["identity"; "row 1"; "row 2"]%string
    [1 # 2; 3 # 4; 1 # 3]%Q 3 = Raise ValueError.
Proof. repeat split. Qed.

(** With the engine, a failed evaluation is scored with the worst
    possible score and nothing is raised. *)
Lemma score_affine_irm_total (E : Env) (m : irm E) (S : sitk_images E)
  (affine : ndarray) :
  exists s,
    RandomSearch.score_affine_irm E m S affine = Ok s /\
    (forall e,
        MetricEvaluate E (SetInitialTransform m (matrix_to_affine_transform E affine))
          (i_fix S) (i_mov S) = Raise e ->
        s = RandomSearch.WORST_POSSIBLE_SCORE).
Proof.
  unfold RandomSearch.score_affine_irm.
  destruct (MetricEvaluate E _ (i_fix S) (i_mov S)) as [s|e]; simpl.
  - exists s. split; [reflexivity|]. discriminate.
  - exists RandomSearch.WORST_POSSIBLE_SCORE. now split.
Qed.

Lemma mapM_total {A B : Type} (f : A -> result B) (xs : list A) :
  (forall x, exists y, f x = Ok y) -> exists ys, mapM f xs = Ok ys.
Proof.
  intro Hf. induction xs as [|x xs [ys IH]]; simpl.
  - now exists [].
  - destruct (Hf x) as [y ->]. rewrite IH. simpl. now exists (y :: ys).
Qed.

(** So with the engine the search returns, whatever the engine does, as
    long as the images are not 2-d, the table can be built and fewer
    results are asked for than there are rows. *)
Lemma search_with_engine_returns (E : Env) (g : nat -> R) (fix_ mov : ndarray)
  (fs ms : list Q) (n : nat) (o : RandomSearch.options)
  (params : list (list xreal)) (center : list Q) :
  let I := RandomSearch.generalize_to_3d fix_ mov fs ms o in
  ndim fix_ <> 2 ->
  RandomSearch.use_patch_mutual_information o = false ->
  RandomSearch.generate_params g n (RandomSearch.in_max_translation I)
    (RandomSearch.in_max_rotation I) (RandomSearch.in_max_scale I)
    (RandomSearch.in_max_shear I) = Ok params ->
  RandomSearch.center_of (RandomSearch.in_fix I)
    (RandomSearch.in_fix_spacing I) = Ok center ->
  0 <= RandomSearch.nreturn o <= Z.of_nat n ->
  exists l, RandomSearch.random_affine_search E g fix_ mov fs ms n o = Ok l.
Proof.
  intros I H3d Hirm Hp Hc Hk.
  unfold RandomSearch.random_affine_search. fold I.
  rewrite Hp, Hc. cbn [Py.bind].
  unfold I at 1. rewrite (sample_3d E fix_ mov fs ms o H3d). fold I.
  rewrite Hirm. cbn [Py.bind].
  match goal with
  | |- context [mapM ?f params] =>
      destruct (mapM_total f params) as [scores Hs]
  end.
  { intro p. destruct (score_affine_irm_total E
                         (fst (RandomSearch.configure_search_irm E o I
                                 (apply_alignment_spacing E (RandomSearch.in_fix I)
                                    (RandomSearch.in_mov I) (RandomSearch.in_fix_mask I)
                                    (RandomSearch.in_mov_mask I)
                                    (RandomSearch.in_fix_spacing I)
                                    (RandomSearch.in_mov_spacing I)
                                    (RandomSearch.alignment_spacing o))
                                 (fst (format_static_transform_data E
                                         (RandomSearch.static_transform_list o)
                                         (RandomSearch.in_fix I)
                                         (RandomSearch.in_fix_spacing I)
                                         (RandomSearch.in_fix_origin I)))
                                 (snd (format_static_transform_data E
                                         (RandomSearch.static_transform_list o)
                                         (RandomSearch.in_fix I)
                                         (RandomSearch.in_fix_spacing I)
                                         (RandomSearch.in_fix_origin I)))))
                         (snd (RandomSearch.configure_search_irm E o I
                                 (apply_alignment_spacing E (RandomSearch.in_fix I)
                                    (RandomSearch.in_mov I) (RandomSearch.in_fix_mask I)
                                    (RandomSearch.in_mov_mask I)
                                    (RandomSearch.in_fix_spacing I)
                                    (RandomSearch.in_mov_spacing I)
                                    (RandomSearch.alignment_spacing o))
                                 (fst (format_static_transform_data E
                                         (RandomSearch.static_transform_list o)
                                         (RandomSearch.in_fix I)
                                         (RandomSearch.in_fix_spacing I)
                                         (RandomSearch.in_fix_origin I)))
                                 (snd (format_static_transform_data E
                                         (RandomSearch.static_transform_list o)
                                         (RandomSearch.in_fix I)
                                         (RandomSearch.in_fix_spacing I)
                                         (RandomSearch.in_fix_origin I)))))
                         (physical_parameters_to_affine_matrix_3d E p center))
      as (s & Hs & _).
    exists s. exact Hs. }
  rewrite Hs. cbn [Py.bind].
  unfold RandomSearch.top_results.
  assert (Hlen : len scores = Z.of_nat (S n)).
  { unfold len. f_equal. rewrite (mapM_length _ _ _ Hs).
    exact (generate_params_length _ _ _ _ _ _ _ Hp). }
  assert (Hpart : argpartition scores (RandomSearch.nreturn o)
                  = Ok (argsort scores)).
  { unfold argpartition. rewrite Hlen.
    destruct (RandomSearch.nreturn o <? 0) eqn:E0; [apply Z.ltb_lt in E0; lia|].
    destruct (Z.of_nat (S n) =? 0) eqn:E1; [apply Z.eqb_eq in E1; lia|].
    destruct (RandomSearch.nreturn o <? 0) eqn:E2; [discriminate|].
    destruct (Z.of_nat (S n) <=? RandomSearch.nreturn o) eqn:E3;
      [apply Z.leb_le in E3; lia|].
    reflexivity. }
  rewrite Hpart. cbn [Py.bind]. eexists. reflexivity.
Qed.

(** C6, evaluated on the code: with [use_patch_mutual_information] the
    exception of a failed evaluation is not caught; the first failing
    candidate ends the search, and the exception leaves the function.
    (With the engine the failure is scored, see
    [score_affine_irm_total].)  On 2-d inputs no candidate is scored at
    all: the [AttributeError] of the skip sampling leaves the function
    first. *)
Theorem patch_metric_failure_escapes :
  forall (E : Env) (g : nat -> R) (fix_ mov : ndarray) (fs ms : list Q)
         (n : nat) (o : RandomSearch.options) (e : exn)
         (params : list (list xreal)) (center : list Q),
    let I := RandomSearch.generalize_to_3d fix_ mov fs ms o in
    RandomSearch.use_patch_mutual_information o = true ->
    RandomSearch.generate_params g n (RandomSearch.in_max_translation I)
      (RandomSearch.in_max_rotation I) (RandomSearch.in_max_scale I)
      (RandomSearch.in_max_shear I) = Ok params ->
    RandomSearch.center_of (RandomSearch.in_fix I)
      (RandomSearch.in_fix_spacing I) = Ok center ->
    (forall a b c d f k, patch_mutual_information E a b c d f k = Raise e) ->
    RandomSearch.random_affine_search E g fix_ mov fs ms n o
    = Raise (if ndim fix_ =? 2 then AttributeError else e).
Proof.
  intros E g fix_ mov fs ms n o e params center I Hpatch Hp Hc Hfail.
  unfold RandomSearch.random_affine_search. fold I.
  rewrite Hp, Hc. cbn [Py.bind].
  destruct (ndim fix_ =? 2) eqn:Hd.
  { apply Z.eqb_eq in Hd. unfold I.
    now rewrite (sample_2d E fix_ mov fs ms o Hd). }
  apply Z.eqb_neq in Hd.
  unfold I at 1. rewrite (sample_3d E fix_ mov fs ms o Hd). fold I.
  rewrite Hpatch. simpl.
  pose proof (first_row_is_identity _ _ _ _ _ _ _ Hp) as H0.
  destruct params as [|row0 rest]; [discriminate|].
  simpl. unfold RandomSearch.score_affine_patch at 1.
  now rewrite Hfail.
Qed.

Lemma patch_metric_failure_escapes_witness :
  RandomSearch.random_affine_search Demo.env_patch_raises Demo.halves
    Demo.image Demo.image [1; 1; 1]%Q [1; 1; 1]%Q 2 Demo.patch_options
  = Raise (EngineError "patch").
Proof.
  eapply (patch_metric_failure_escapes Demo.env_patch_raises Demo.halves
            Demo.image Demo.image [1; 1; 1]%Q [1; 1; 1]%Q 2 Demo.patch_options).
  - reflexivity.
  - reflexivity.
  - reflexivity.
  - intros. reflexivity.
Defined.

(** The engine with a metric that always raises: every candidate gets the
    worst score and the search still returns. *)
Example search_engine_failure_run :
  RandomSearch.random_affine_search
    (Demo.env [] ([], []) (0, None, None)
       (fun _ => Raise (EngineError "itk")) (Ok (eye 4)) (Ok 0%Q))
    Demo.halves Demo.image Demo.image [1; 1; 1]%Q [1; 1; 1]%Q 2
    RandomSearch.defaults
  = Ok [eye 4].
Proof. reflexivity. Qed.
(** ** random_affine_search: the sampled parameters and the limits *)

Section Sampling.

Local Open Scope R_scope.



(** [2 * (m * r) - m] for a finite limit is finite. *)
Lemma spread_finite (m r : R) :
  RandomSearch.spread (Fin m) r = Fin (2 * (m * r) - m).
Proof. reflexivity. Qed.



(** For a limit that is not negative the interval reads [-b, b]. *)
Lemma within_nonnegative_limit (b x : R) :
  0 <= b -> - Rabs b <= x <= Rabs b -> - b <= x <= b.
Proof. intro Hb. now rewrite (Rabs_pos_eq _ Hb). Qed.


Lemma nth_error_combine {A B : Type} (l1 : list A) (l2 : list B)
  (i : nat) (a : A) (b : B) :
  nth_error (combine l1 l2) i = Some (a, b) ->
  nth_error l1 i = Some a /\ nth_error l2 i = Some b.
Proof.
  revert l2 i. induction l1 as [|x l1 IH]; intros [|y l2] [|i]; simpl;
    try discriminate.
  - intros [= <- <-]. auto.
  - apply IH.
Qed.

(** The row that [set_block] writes: [brow] in columns [c] to [c + 2]. *)
Lemma splice_length (c : nat) (brow row : list xreal) :
  length row = 12%nat -> (c + 3 <= 12)%nat -> length brow = 3%nat ->
  length (firstn c row ++ brow ++ skipn (c + 3) row) = 12%nat.
Proof.
  intros Hr Hc Hb.
  rewrite !length_app, length_firstn, length_skipn. lia.
Qed.

Lemma splice_out (c : nat) (brow row : list xreal) (k : nat) :
  length row = 12%nat -> (c + 3 <= 12)%nat -> length brow = 3%nat ->
  (k < c \/ c + 3 <= k)%nat ->
  nth k (firstn c row ++ brow ++ skipn (c + 3) row) NaN = nth k row NaN.
Proof.
  intros Hr Hc Hb Hk.
  assert (Hf : length (firstn c row) = c) by (rewrite length_firstn; lia).
  destruct Hk as [Hk|Hk].
  - rewrite app_nth1 by lia. rewrite nth_firstn.
    destruct (k <? c)%nat eqn:E; [reflexivity|].
    apply Nat.ltb_ge in E. lia.
  - rewrite app_nth2 by lia. rewrite app_nth2 by lia.
    rewrite nth_skipn. f_equal. lia.
Qed.

Lemma splice_in (c : nat) (brow row : list xreal) (j : nat) :
  length row = 12%nat -> (c + 3 <= 12)%nat -> length brow = 3%nat ->
  (j < 3)%nat ->
  nth (c + j) (firstn c row ++ brow ++ skipn (c + 3) row) NaN = nth j brow NaN.
Proof.
  intros Hr Hc Hb Hj.
  assert (Hf : length (firstn c row) = c) by (rewrite length_firstn; lia).
  rewrite app_nth2 by lia. rewrite Hf.
  replace (c + j - c)%nat with j by lia.
  now rewrite app_nth1 by lia.
Qed.

(** Row [i] of the block that [F] returns. *)
Lemma F_row g pos n mx block i brow :
  RandomSearch.F g pos n mx = Ok block ->
  nth_error block i = Some brow ->
  exists b0 b1 b2 k0 k1 k2,
    RandomSearch.xbroadcast3 mx = Ok [b0; b1; b2] /\
    brow = [RandomSearch.spread b0 (g k0); RandomSearch.spread b1 (g k1);
            RandomSearch.spread b2 (g k2)].
Proof.
  unfold RandomSearch.F. intros HF Hi.
  assert (Hb : exists b0 b1 b2, RandomSearch.xbroadcast3 mx = Ok [b0; b1; b2]).
  { destruct mx as [b|[|b0 [|b1 [|b2 [|b3 t]]]]]; simpl in *;
      try discriminate; eauto. }
  destruct Hb as (b0 & b1 & b2 & Hb). rewrite Hb in HF. cbn [Py.bind] in HF.
  injection HF as <-.
  exists b0, b1, b2.
  rewrite nth_error_map in Hi.
  destruct (nth_error (RandomSearch.rand g pos n) i) as [row|] eqn:Hrow;
    [|discriminate].
  unfold RandomSearch.rand in Hrow.
  rewrite nth_error_map, nth_error_seq in Hrow.
  destruct (i <? n)%nat; [|discriminate].
  cbn in Hrow. injection Hrow as <-.
  cbn in Hi. injection Hi as <-.
  do 3 eexists. split; [exact Hb|reflexivity].
Qed.

(** What one conditional assignment does to row [i + 1] of the table. *)
Lemma fill_spec g n c limit pre post (p : xreal -> xreal) st st' i row' :
  (forall block, post block = map (map p) block) ->
  (c + 3 <= 12)%nat ->
  length (fst st) = S n ->
  (forall r, In r (fst st) -> length r = 12%nat) ->
  RandomSearch.fill g n c limit pre post st = Ok st' ->
  nth_error (fst st') (S i) = Some row' ->
  exists row,
    nth_error (fst st) (S i) = Some row /\
    length row' = 12%nat /\
    (forall k, (k < c \/ c + 3 <= k)%nat -> nth k row' NaN = nth k row NaN) /\
    ((RandomSearch.truthy limit = None /\ row' = row) \/
     (exists mx b0 b1 b2 k0 k1 k2,
         RandomSearch.truthy limit = Some mx /\
         RandomSearch.xbroadcast3 (pre mx) = Ok [b0; b1; b2] /\
         nth (c + 0) row' NaN = p (RandomSearch.spread b0 (g k0)) /\
         nth (c + 1) row' NaN = p (RandomSearch.spread b1 (g k1)) /\
         nth (c + 2) row' NaN = p (RandomSearch.spread b2 (g k2)))).
Proof.
  intros Hpost Hc Hlen H12. unfold RandomSearch.fill.
  destruct (RandomSearch.truthy limit) as [mx|] eqn:Ht.
  - destruct (RandomSearch.F g (snd st) n (pre mx)) as [block|e] eqn:HF;
      cbn [Py.bind]; [|discriminate].
    intros [= <-]. cbn [fst].
    destruct (fst st) as [|row0 rest] eqn:Hst; [discriminate|].
    cbn [RandomSearch.set_block nth_error].
    intro Hrow'. rewrite nth_error_map in Hrow'.
    destruct (nth_error (combine rest (post block)) i) as [[row brow]|] eqn:Hi;
      [|discriminate].
    cbn in Hrow'. injection Hrow' as <-.
    apply nth_error_combine in Hi. destruct Hi as [Hrow Hbrow].
    rewrite Hpost, nth_error_map in Hbrow.
    destruct (nth_error block i) as [brow0|] eqn:Hb0; [|discriminate].
    cbn in Hbrow. injection Hbrow as <-.
    destruct (F_row _ _ _ _ _ _ _ HF Hb0)
      as (b0 & b1 & b2 & k0 & k1 & k2 & Hbc & ->).
    assert (Hr12 : length row = 12%nat)
      by (apply H12; right; eapply nth_error_In; exact Hrow).
    exists row. split; [exact Hrow|].
    split; [apply splice_length; auto|].
    split; [intros k Hk; apply splice_out; auto|].
    right. exists mx, b0, b1, b2, k0, k1, k2.
    split; [reflexivity|]. split; [exact Hbc|].
    repeat split; rewrite splice_in by (auto; lia); reflexivity.
  - intros [= <-] Hrow'. exists row'. split; [exact Hrow'|].
    split; [apply H12; eapply nth_error_In; exact Hrow'|].
    split; [reflexivity|]. left. now split.
Qed.

(** Every row keeps its 12 columns. *)
Lemma fill_rows_12 g n c limit pre post (p : xreal -> xreal) st st' :
  (forall block, post block = map (map p) block) ->
  (c + 3 <= 12)%nat ->
  length (fst st) = S n ->
  (forall r, In r (fst st) -> length r = 12%nat) ->
  RandomSearch.fill g n c limit pre post st = Ok st' ->
  forall r, In r (fst st') -> length r = 12%nat.
Proof.
  intros Hpost Hc Hlen H12 Hfill r Hin.
  apply In_nth_error in Hin. destruct Hin as [[|i] Hi].
  - rewrite (fill_head _ _ _ _ _ _ _ _ Hfill) in Hi.
    apply H12. eapply nth_error_In. exact Hi.
  - destruct (fill_spec _ _ _ _ _ _ p _ _ _ _ Hpost Hc Hlen H12 Hfill Hi)
      as (row & _ & H & _).
    exact H.
Qed.

Lemma post_identity (block : list (list xreal)) :
  block = map (map (fun x : xreal => x)) block.
Proof.
  induction block as [|r block IH]; simpl; [reflexivity|].
  now rewrite map_id, <- IH.
Qed.








End Sampling.



(** The first random row of that table: the draws 0, 3/4, 0 give the
    translations -1, 1, -3. *)
Example sampled_translation_row :
  exists row rest,
    RandomSearch.generate_params Demo.draws 1
      (Some (RandomSearch.Tuple [1; 2; 3]%R)) None None None
    = Ok [RandomSearch.identity_params; row] /\
    row = (Fin (2 * (1 * 0) - 1) :: Fin (2 * (2 * (3 / 4)) - 2)
           :: Fin (2 * (3 * 0) - 3) :: rest)%R /\
    (2 * (1 * 0) - 1 = -1 /\ 2 * (2 * (3 / 4)) - 2 = 1 /\ 2 * (3 * 0) - 3 = -3)%R.
Proof.
  eexists. eexists. split; [reflexivity|]. split; [reflexivity|]. lra.
Qed.

(** The limits of a 2-d search get a third axis that samples nothing. *)
Example expand_limits_2d :
  RandomSearch.expand_param_to_3d (Some (RandomSearch.Scalar 5)) 0
  = Some (RandomSearch.Tuple [5; 5; 0]%R) /\
  RandomSearch.expand_param_to_3d (Some (RandomSearch.Tuple [2; 3]%R)) 1
  = Some (RandomSearch.Tuple [2; 3; 1]%R) /\
  RandomSearch.expand_param_to_3d None 0 = None.
Proof. repeat split. Qed.

(** ** alignment_pipeline: the compressed format

    First the situations in which the groups handed to the composer are
    the maximal runs of equal shape, then the evaluation of the claim. *)

Lemma adjacent_cons2 {A : Type} (a b : A) (l : list A) :
  adjacent (a :: b :: l) = (a, b) :: adjacent (b :: l).
Proof. reflexivity. Qed.

Lemma adjacent_map {A B : Type} (f : A -> B) (l : list A) :
  adjacent (map f l) = map (fun p => (f (fst p), f (snd p))) (adjacent l).
Proof.
  induction l as [|a [|b l] IH]; try reflexivity.
  change (map f (a :: b :: l)) with (f a :: f b :: map f l).
  rewrite !adjacent_cons2. cbn [map fst snd]. f_equal. exact IH.
Qed.

Lemma cuts_cons2 (k : nat) (x y : list Z) (ts : list (list Z)) :
  Spec.cuts k (x :: y :: ts)
  = (if shape_eqb x y then [] else [S k]) ++ Spec.cuts (S k) (y :: ts).
Proof. reflexivity. Qed.

(** [np.where] yields the starts of the runs whenever it reports each
    pair of different neighbours once. *)
Lemma where_cuts_from (f : nat * (list Z * list Z) -> list Z) (k : nat)
  (ts : list (list Z)) :
  (forall i p, In p (adjacent ts) ->
               map (fun z => z + 1) (f (i, p))
               = map Z.of_nat (if shape_eqb (fst p) (snd p) then [] else [S i])) ->
  map (fun z => z + 1)
      (flat_map f (combine (seq k (length ts)) (adjacent ts)))
  = map Z.of_nat (Spec.cuts k ts).
Proof.
  revert k. induction ts as [|x [|y ts] IH]; intros k Hf; try reflexivity.
  rewrite adjacent_cons2 in *. rewrite cuts_cons2.
  change (length (x :: y :: ts)) with (S (length (y :: ts))).
  change (seq k (S (length (y :: ts)))) with (k :: seq (S k) (length (y :: ts))).
  cbn [combine flat_map].
  rewrite !map_app, IH by (intros i p Hp; apply Hf; now right).
  f_equal. apply (Hf k (x, y)). now left.
Qed.

Lemma cuts_shift (k : nat) (ts : list (list Z)) :
  Spec.cuts (S k) ts = map S (Spec.cuts k ts).
Proof.
  revert k. induction ts as [|x [|y ts] IH]; intro k; try reflexivity.
  rewrite !cuts_cons2, map_app, (IH (S k)).
  destruct (shape_eqb x y); reflexivity.
Qed.

Lemma cuts_lower (k : nat) (ts : list (list Z)) (q : nat) :
  In q (Spec.cuts k ts) -> (S k <= q)%nat.
Proof.
  revert k. induction ts as [|x [|y ts] IH]; intros k Hin; try contradiction.
  rewrite cuts_cons2 in Hin.
  apply in_app_or in Hin. destruct Hin as [Hin|Hin].
  - destruct (shape_eqb x y); [contradiction|].
    destruct Hin as [<-|[]]. lia.
  - apply IH in Hin. lia.
Qed.

Lemma slice_nonneg {A : Type} (l : list A) (a b : Z) :
  0 <= a -> 0 <= b ->
  slice l a b
  = firstn (Z.to_nat (Z.min (len l) b) - Z.to_nat (Z.min (len l) a))
           (skipn (Z.to_nat (Z.min (len l) a)) l).
Proof.
  intros Ha Hb. unfold slice, clamp_index.
  destruct (a <? 0) eqn:E1; [apply Z.ltb_lt in E1; lia|].
  destruct (b <? 0) eqn:E2; [apply Z.ltb_lt in E2; lia|].
  f_equal. unfold len. lia.
Qed.

Lemma slice_shift {A : Type} (x : A) (t : list A) (a b : nat) :
  slice (x :: t) (Z.of_nat (S a)) (Z.of_nat (S b))
  = slice t (Z.of_nat a) (Z.of_nat b).
Proof.
  rewrite !slice_nonneg by lia. unfold len. cbn [length].
  assert (Ea : Z.to_nat (Z.min (Z.of_nat (S (length t))) (Z.of_nat (S a)))
               = S (Z.to_nat (Z.min (Z.of_nat (length t)) (Z.of_nat a)))) by lia.
  assert (Eb : Z.to_nat (Z.min (Z.of_nat (S (length t))) (Z.of_nat (S b)))
               = S (Z.to_nat (Z.min (Z.of_nat (length t)) (Z.of_nat b)))) by lia.
  rewrite Ea, Eb. reflexivity.
Qed.

Lemma slice_first {A : Type} (x : A) (t : list A) (b : nat) :
  slice (x :: t) 0 (Z.of_nat (S b)) = x :: slice t 0 (Z.of_nat b).
Proof.
  rewrite !slice_nonneg by lia. unfold len. cbn [length].
  assert (E0 : Z.to_nat (Z.min (Z.of_nat (S (length t))) 0) = 0%nat) by lia.
  assert (E1 : Z.to_nat (Z.min (Z.of_nat (length t)) 0) = 0%nat) by lia.
  assert (Eb : Z.to_nat (Z.min (Z.of_nat (S (length t))) (Z.of_nat (S b)))
               = S (Z.to_nat (Z.min (Z.of_nat (length t)) (Z.of_nat b)))) by lia.
  rewrite E0, E1, Eb, !Nat.sub_0_r. reflexivity.
Qed.

Lemma ends_cons2 (x y : ndarray) (l : list ndarray) :
  Spec.ends (x :: y :: l)
  = (if shape_eqb (shape x) (shape y) then [] else [1%nat])
      ++ map S (Spec.ends (y :: l)).
Proof.
  unfold Spec.ends.
  change (map shape (x :: y :: l)) with (shape x :: shape y :: map shape l).
  rewrite cuts_cons2, cuts_shift, map_app, <- app_assoc. reflexivity.
Qed.

Lemma ends_head (l : list ndarray) :
  l <> [] -> exists c0 crest, Spec.ends l = S c0 :: crest.
Proof.
  intro Hne. unfold Spec.ends.
  destruct (Spec.cuts 0 (map shape l)) as [|q qs] eqn:E.
  - destruct l as [|x l]; [congruence|]. now exists (length l), [].
  - assert (Hq : (1 <= q)%nat)
      by (apply (cuts_lower 0 (map shape l)); rewrite E; now left).
    destruct q as [|q]; [lia|]. now exists q, (qs ++ [length l]).
Qed.

Lemma runs_cons2 (x y : ndarray) (l : list ndarray) :
  Spec.runs (x :: y :: l)
  = match Spec.runs (y :: l) with
    | (y' :: g) :: gs =>
        if shape_eqb (shape x) (shape y')
        then (x :: y' :: g) :: gs
        else [x] :: (y' :: g) :: gs
    | _ => [[x]]
    end.
Proof. reflexivity. Qed.

Lemma slices_shift {A : Type} (x : A) (t : list A) (bs : list nat) :
  map (fun ab => slice (x :: t) (fst ab) (snd ab))
      (adjacent (map Z.of_nat (map S bs)))
  = map (fun ab => slice t (fst ab) (snd ab)) (adjacent (map Z.of_nat bs)).
Proof.
  rewrite !adjacent_map, !map_map. apply map_ext.
  intros [a b]. cbn [fst snd]. apply slice_shift.
Qed.

Lemma slices_first {A : Type} (l : list A) (c0 : nat) (crest : list nat) :
  map (fun ab => slice l (fst ab) (snd ab))
      (adjacent (map Z.of_nat (0%nat :: c0 :: crest)))
  = slice l 0 (Z.of_nat c0)
      :: map (fun ab => slice l (fst ab) (snd ab))
             (adjacent (map Z.of_nat (c0 :: crest))).
Proof. reflexivity. Qed.

(** The slices cut at the ends of the runs are the runs. *)
Lemma slices_at_ends_are_runs (l : list ndarray) :
  l <> [] ->
  map (fun ab => slice l (fst ab) (snd ab))
      (adjacent (map Z.of_nat (0%nat :: Spec.ends l)))
  = Spec.runs l.
Proof.
  induction l as [|x [|y l] IH]; intro Hne; [congruence| |].
  - reflexivity.
  - specialize (IH ltac:(discriminate)).
    rewrite ends_cons2, runs_cons2, <- IH.
    destruct (ends_head (y :: l) ltac:(discriminate)) as (c0 & crest & ->).
    rewrite (slices_first (y :: l)), slice_first.
    destruct (shape_eqb (shape x) (shape y)) eqn:Exy.
    + (* [x] joins the first run *)
      change ([] ++ map S (S c0 :: crest)) with (S (S c0) :: map S crest).
      rewrite (slices_first (x :: y :: l)), !slice_first.
      change (S (S c0) :: map S crest) with (map S (S c0 :: crest)).
      now rewrite slices_shift.
    + (* [x] is a run of its own *)
      change ([1%nat] ++ map S (S c0 :: crest))
        with (1%nat :: map S (S c0 :: crest)).
      rewrite (slices_first (x :: y :: l)).
      change (1%nat :: map S (S c0 :: crest))
        with (map S (0%nat :: S c0 :: crest)).
      rewrite slices_shift, (slices_first (y :: l)), !slice_first.
      reflexivity.
Qed.

(** Two shapes of one rank that differ in no axis are equal, and
    [np.where] reports a pair that differs in one axis once. *)
Lemma row_neq_report (i : nat) (u v : list Z) :
  length u = length v ->
  (Spec.differing_axes u v <= 1)%nat ->
  flat_map (fun b : bool => if b then [Z.of_nat i] else []) (row_neq u v)
  = if shape_eqb u v then [] else [Z.of_nat i].
Proof.
  unfold Spec.differing_axes, row_neq.
  revert v. induction u as [|a u IH]; intros [|b v] Hlen Hd; try discriminate.
  - reflexivity.
  - injection Hlen as Hlen. cbn [combine map fst snd filter flat_map shape_eqb] in *.
    destruct (a =? b) eqn:E; cbn [negb andb app] in *.
    + now apply IH.
    + cbn [length] in Hd.
      assert (H0 : length (filter (fun b : bool => b)
                             (map (fun p : Z * Z => negb (fst p =? snd p))
                                  (combine u v))) = 0%nat) by lia.
      f_equal. clear - H0 Hlen.
      revert v Hlen H0. induction u as [|a u IH]; intros [|b v] Hlen H0;
        try discriminate; [reflexivity|].
      injection Hlen as Hlen. cbn [combine map fst snd filter flat_map] in *.
      destruct (a =? b); cbn [negb] in *; [now apply IH|discriminate].
Qed.

Lemma same_length_adjacent (ss : list (list Z)) (p : list Z * list Z) :
  same_length ss = true -> In p (adjacent ss) -> length (fst p) = length (snd p).
Proof.
  intros Hs Hp. destruct ss as [|s rest]; [contradiction|].
  unfold same_length in Hs. rewrite forallb_forall in Hs.
  assert (Hall : forall t, In t (s :: rest) -> length t = length s).
  { intros t [<-|Ht]; [reflexivity|]. now apply Nat.eqb_eq, Hs. }
  unfold adjacent in Hp. destruct p as [u v].
  pose proof (in_combine_l _ _ _ _ Hp) as Hl.
  pose proof (in_combine_r _ _ _ _ Hp) as Hr.
  cbn [fst snd tl] in *.
  assert (Hu : In u (s :: rest)).
  { clear - Hl. revert Hl. generalize (s :: rest). intro l.
    induction l as [|a [|b l] IH]; cbn [removelast]; intro H;
      try contradiction.
    destruct H as [<-|H]; [now left|]. right. now apply IH. }
  rewrite (Hall u Hu), (Hall v (or_intror Hr)). reflexivity.
Qed.

(** For at least one result, the groups handed to the composer are the
    maximal runs of equal shape when the shapes are not all of one rank,
    and also when all are of one rank and neighbours differ in at most
    one axis. *)
Lemma groups_are_runs (l : list ndarray) :
  l <> [] ->
  (same_length (map shape l) = false \/
   Forall (fun p => (Spec.differing_axes (fst p) (snd p) <= 1)%nat)
          (adjacent (map shape l))) ->
  Pipeline.groups l = Spec.runs l.
Proof.
  intros Hne H.
  rewrite <- (slices_at_ends_are_runs l Hne).
  unfold Pipeline.groups. f_equal. f_equal.
  unfold Pipeline.changes, Spec.ends, array_of_shapes.
  change (map Z.of_nat (0%nat :: Spec.cuts 0 (map shape l) ++ [length l]))
    with (0 :: map Z.of_nat (Spec.cuts 0 (map shape l) ++ [length l])).
  rewrite map_app. cbn [app map]. f_equal. f_equal.
  destruct (same_length (map shape l)) eqn:Hs.
  - destruct H as [H|H]; [discriminate|].
    rewrite Forall_forall in H.
    apply (where_cuts_from
             (fun ip => flat_map (fun b : bool => if b then [Z.of_nat (fst ip)] else [])
                                 (row_neq (fst (snd ip)) (snd (snd ip))))).
    intros i p Hp. cbn [fst snd].
    rewrite row_neq_report;
      [|exact (same_length_adjacent _ _ Hs Hp)|exact (H p Hp)].
    destruct (shape_eqb (fst p) (snd p)); [reflexivity|].
    cbn [map]. f_equal. lia.
  - apply (where_cuts_from
             (fun ip => if shape_eqb (fst (snd ip)) (snd (snd ip))
                        then [] else [Z.of_nat (fst ip)])).
    intros i p _. cbn [fst snd].
    destruct (shape_eqb (fst p) (snd p)); [reflexivity|].
    cbn [map]. f_equal. lia.
Qed.

(** A pipeline of affine stages only, on a 3-d image: one group. *)
Example groups_of_matrices :
  Pipeline.groups [eye 4; Demo.optimized_matrix; Demo.initial_matrix]
  = [[eye 4; Demo.optimized_matrix; Demo.initial_matrix]] /\
  Spec.runs [eye 4; Demo.optimized_matrix; Demo.initial_matrix]
  = [[eye 4; Demo.optimized_matrix; Demo.initial_matrix]].
Proof. split; reflexivity. Qed.

Lemma shape_eqb_length (s t : list Z) :
  length s <> length t -> shape_eqb s t = false.
Proof.
  intro H. destruct (shape_eqb s t) eqn:E; [|reflexivity].
  apply shape_eqb_eq in E. now subst.
Qed.

(** The example of the docstring: affine matrices of one shape and fields
    of another rank, in the order random, affine, deform, deform, affine,
    deform, are handed to the composer in 4 groups, which are the
    maximal runs of equal shape. *)
Lemma compressed_docstring_example (a1 a2 a3 d1 d2 d3 : ndarray) (A D : list Z) :
  shape a1 = A -> shape a2 = A -> shape a3 = A ->
  shape d1 = D -> shape d2 = D -> shape d3 = D ->
  length A <> length D ->
  Pipeline.groups [a1; a2; d1; d2; a3; d3] = [[a1; a2]; [d1; d2]; [a3]; [d3]] /\
  Spec.runs [a1; a2; d1; d2; a3; d3] = [[a1; a2]; [d1; d2]; [a3]; [d3]].
Proof.
  intros H1 H2 H3 H4 H5 H6 Hne.
  assert (EAD : shape_eqb A D = false) by now apply shape_eqb_length.
  assert (EDA : shape_eqb D A = false)
    by (apply shape_eqb_length; congruence).
  assert (Hlen : Nat.eqb (length D) (length A) = false)
    by (apply Nat.eqb_neq; congruence).
  split.
  - unfold Pipeline.groups, Pipeline.changes, array_of_shapes, same_length.
    cbn [map forallb]. rewrite H1, H2, H3, H4, H5, H6.
    rewrite Nat.eqb_refl, Hlen. cbn [andb].
    cbn [where_adjacent_differ adjacent removelast tl combine seq length
         flat_map fst snd app].
    rewrite (shape_eqb_refl A), (shape_eqb_refl D), EAD, EDA. reflexivity.
  - cbn [Spec.runs].
    repeat (progress (rewrite ?H1, ?H2, ?H3, ?H4, ?H5, ?H6,
                        ?shape_eqb_refl, ?EAD, ?EDA; cbn iota)).
    reflexivity.
Qed.

(** The same example through the whole pipeline, on a 3-d image. *)
Example compressed_pipeline_3d :
  Pipeline.alignment_pipeline (Demo.env_engine 1) Demo.stages
    Demo.image Demo.image [1; 1; 1]%Q [1; 1; 1]%Q
    [("random", []); ("affine", []); ("deform", []); ("deform", []);
     ("affine", []); ("deform", [])]%string
    None None None None [] "compressed" []
  = Ok (Pipeline.Transforms
          [eye 4; Demo.field_of Demo.image; eye 4; Demo.field_of Demo.image]).
Proof. reflexivity. Qed.

(** C8, evaluated on the code: the groups are the maximal runs of equal
    shape in the situations of [groups_are_runs], but not always.  When
    all results have shapes of one rank, numpy builds a 2-d array of the
    shapes and [np.where] reports a boundary once per differing axis: for
    a 4 x 4 matrix followed by a 3 x 3 matrix the boundaries are
    [0, 1, 1, 2], so the composer is called three times, once on an empty
    list, where there are two runs.  For no results at all the boundaries
    are [0, 0] and the composer is called once on the empty list, where
    there is no run. *)
Theorem compressed_groups_are_not_the_runs :
  Pipeline.changes [eye 4; eye 3] = [0; 1; 1; 2] /\
  Pipeline.groups [eye 4; eye 3] = [[eye 4]; []; [eye 3]] /\
  Spec.runs [eye 4; eye 3] = [[eye 4]; [eye 3]] /\
  (forall (E : Env) (fs : list Q) (out : list ndarray),
      Pipeline.compressed E [eye 4; eye 3] fs = Ok out -> length out = 3%nat) /\
  Pipeline.groups [] = [[]] /\
  Spec.runs [] = [].
Proof.
  repeat split.
  intros E fs out H. apply mapM_length in H. exact H.
Qed.

(** That input arises in a 2-d pipeline: a gradient refiner that falls
    back to a 4 x 4 default of the caller, followed by one that falls
    back to the 3 x 3 identity.  With a composer that refuses the empty
    list the pipeline raises. *)
Example compressed_pipeline_2d :
  Pipeline.alignment_pipeline (Demo.env_engine 1) Demo.stages
    Demo.image2d Demo.image2d [1; 1]%Q [1; 1]%Q
    [("affine", [("default", Kw.PArray (eye 4))]); ("affine", [])]%string
    None None None None [] "independent" []
  = Ok (Pipeline.Transforms [eye 4; eye 3]) /\
  Pipeline.alignment_pipeline (Demo.env_engine 1) Demo.stages
    Demo.image2d Demo.image2d [1; 1]%Q [1; 1]%Q
    [("affine", [("default", Kw.PArray (eye 4))]); ("affine", [])]%string
    None None None None [] "compressed" []
  = Raise ValueError.
Proof. split; reflexivity. Qed.

(* ================================================================== *)
(** * Further properties of the code *)
(* ================================================================== *)

(** ** Keyword dictionaries *)

Lemma get_set_same (d : Kw.dict) (k : string) (v : Kw.pyobj) :
  Kw.get (Kw.set d k v) k = Some v.
Proof.
  induction d as [|[k' v'] d IH]; simpl.
  - now rewrite String.eqb_refl.
  - destruct (String.eqb k k') eqn:Hk; simpl.
    + now rewrite String.eqb_refl.
    + now rewrite Hk.
Qed.

Lemma get_set_other (d : Kw.dict) (k k' : string) (v : Kw.pyobj) :
  k' <> k -> Kw.get (Kw.set d k v) k' = Kw.get d k'.
Proof.
  intro Hne. apply String.eqb_neq in Hne.
  induction d as [|[k0 v0] d IH]; simpl.
  - now rewrite Hne.
  - destruct (String.eqb k k0) eqn:Hk; simpl.
    + apply String.eqb_eq in Hk. subst k0. now rewrite Hne.
    + now rewrite IH.
Qed.

Lemma get_app (a b : Kw.dict) (k : string) :
  Kw.get (a ++ b) k
  = match Kw.get a k with
    | Some v => Some v
    | None => Kw.get b k
    end.
Proof.
  induction a as [|[k0 v0] a IH]; simpl; [reflexivity|].
  now destruct (String.eqb k k0).
Qed.

(** In a merge the last binding of the second dictionary wins, then the
    first dictionary is looked at. *)
Lemma get_merge (a b : Kw.dict) (k : string) :
  Kw.get (Kw.merge a b) k
  = match Kw.get (rev b) k with
    | Some v => Some v
    | None => Kw.get a k
    end.
Proof.
  unfold Kw.merge. revert a.
  induction b as [|[k0 v0] b IH]; intro a; simpl; [reflexivity|].
  rewrite IH, get_app. simpl.
  destruct (Kw.get (rev b) k) as [v|]; [reflexivity|].
  destruct (String.eqb k k0) eqn:Hk.
  - apply String.eqb_eq in Hk. subst k0. apply get_set_same.
  - apply String.eqb_neq in Hk. now apply get_set_other.
Qed.

Lemma get_none (d : Kw.dict) (k : string) :
  Kw.get d k = None <-> ~ In k (Kw.keys d).
Proof.
  induction d as [|[k0 v0] d IH]; simpl.
  - tauto.
  - destruct (String.eqb k k0) eqn:Hk.
    + apply String.eqb_eq in Hk. subst k0. split; [discriminate|].
      intro H. exfalso. apply H. now left.
    + apply String.eqb_neq in Hk. rewrite IH. split.
      * intros H [H1|H1]; [congruence | tauto].
      * tauto.
Qed.

Lemma get_in (d : Kw.dict) (k : string) (v : Kw.pyobj) :
  NoDup (Kw.keys d) -> In (k, v) d -> Kw.get d k = Some v.
Proof.
  induction d as [|[k0 v0] d IH]; simpl; [tauto|].
  intros Hnd [Heq|Hin].
  - injection Heq as -> ->. now rewrite String.eqb_refl.
  - inversion Hnd as [|? ? Hnotin Hnd']. subst.
    destruct (String.eqb k k0) eqn:Hk.
    + apply String.eqb_eq in Hk. subst k0. exfalso. apply Hnotin.
      apply in_map_iff. now exists (k, v).
    + now apply IH.
Qed.

Lemma get_some_in (d : Kw.dict) (k : string) (v : Kw.pyobj) :
  Kw.get d k = Some v -> In (k, v) d.
Proof.
  induction d as [|[k0 v0] d IH]; simpl; [discriminate|].
  destruct (String.eqb k k0) eqn:Hk.
  - apply String.eqb_eq in Hk. subst k0. intros [= ->]. now left.
  - intro H. right. now apply IH.
Qed.

(** For a dictionary that holds each key once the order of the entries
    does not matter. *)
Lemma get_rev (d : Kw.dict) (k : string) :
  NoDup (Kw.keys d) -> Kw.get (rev d) k = Kw.get d k.
Proof.
  intro Hnd.
  destruct (Kw.get d k) as [v|] eqn:Hg.
  - apply get_in.
    + unfold Kw.keys. rewrite map_rev. apply NoDup_rev. exact Hnd.
    + apply in_rev. rewrite rev_involutive. now apply get_some_in.
  - apply get_none. apply get_none in Hg. unfold Kw.keys in *.
    rewrite map_rev. intro H. apply Hg. now apply in_rev.
Qed.

(** [{**a, **b}]: the entries of [b] win. *)
Lemma get_merge_nodup (a b : Kw.dict) (k : string) :
  NoDup (Kw.keys b) ->
  Kw.get (Kw.merge a b) k
  = match Kw.get b k with
    | Some v => Some v
    | None => Kw.get a k
    end.
Proof. intro Hnd. now rewrite get_merge, get_rev. Qed.

Lemma has_key_get (d : Kw.dict) (k : string) :
  Pipeline.has_key d k = true <-> Kw.get d k <> None.
Proof.
  unfold Pipeline.has_key.
  induction d as [|[k0 v0] d IH]; simpl.
  - split; [discriminate | congruence].
  - rewrite (String.eqb_sym k0 k).
    destruct (String.eqb k k0); simpl; [|exact IH].
    split; [discriminate | reflexivity].
Qed.

(** ** Keyword arguments handed to the collaborators *)






(** The detector's arguments for blobs of 1 to 30 voxels with the
    defaults, where the caller overrides the border: 15 scales, not 29. *)
Example detection_kwargs_run :
  Ransac.detection_kwargs (1, 30)%Q Ransac.defaults None Demo.detector_overrides
  = [("num_sigma", Kw.PInt 15); ("exclude_border", Kw.PInt 0);
     ("mask", Kw.PNone); ("threshold", Kw.PFloat (1 # 10))]%string.
Proof. reflexivity. Qed.

Lemma set_masks_config (E : Env) (m : irm E) (a b : option (sitk_image E)) :
  irm_config (set_masks m a b) = irm_config m.
Proof. now destruct a, b. Qed.

(** X2: in [random_affine_search] with the engine metric, the engine is
    configured with [optimizer = 'LBFGS2'] and [optimizer_args = {}]
    whatever the caller passes under these two keys; every other keyword
    argument reaches [configure_irm] as the caller gave it. *)
Theorem search_engine_optimizer_is_fixed :
  forall (E : Env) (o : RandomSearch.options) (I : RandomSearch.inputs)
         (X : sampled) (sts : list (list Q)) (sto : list (option (list Q))),
  exists kw,
    irm_config (fst (RandomSearch.configure_search_irm E o I X sts sto))
    = configure_irm E kw /\
    Kw.get kw "optimizer" = Some (Kw.PStr "LBFGS2") /\
    Kw.get kw "optimizer_args" = Some Kw.PEmptyDict /\
    (forall k, k <> "optimizer"%string -> k <> "optimizer_args"%string ->
               Kw.get kw k = Kw.get (RandomSearch.kwargs o) k).
Proof.
  intros E o I X sts sto.
  exists (Kw.set (Kw.set (RandomSearch.kwargs o) "optimizer" (Kw.PStr "LBFGS2"))
                 "optimizer_args" Kw.PEmptyDict).
  split; [|split; [|split]].
  - unfold RandomSearch.configure_search_irm. cbn [fst].
    destruct (nonempty (RandomSearch.static_transform_list o));
      cbn [SetMovingInitialTransform irm_config];
      now rewrite set_masks_config.
  - rewrite get_set_other by discriminate. apply get_set_same.
  - apply get_set_same.
  - intros k H1 H2. now rewrite !get_set_other.
Qed.

(** ** The helpers shared by the stages *)

(** X3: [apply_alignment_spacing] returns a mask exactly when it is given
    one, and a mask spacing exactly for the masks it is given, whether or
    not the images are skip sampled. *)
Theorem alignment_spacing_keeps_masks :
  forall (E : Env) (fix_ mov : ndarray) (fix_mask mov_mask : option ndarray)
         (fix_spacing mov_spacing : list Q) (alignment_spacing : option Q),
    let X := apply_alignment_spacing E fix_ mov fix_mask mov_mask
               fix_spacing mov_spacing alignment_spacing in
    (s_fix_mask X = None <-> fix_mask = None) /\
    (s_fix_mask_spacing X = None <-> fix_mask = None) /\
    (s_mov_mask X = None <-> mov_mask = None) /\
    (s_mov_mask_spacing X = None <-> mov_mask = None).
Proof.
  intros E fix_ mov fix_mask mov_mask fs ms a X. subst X.
  unfold apply_alignment_spacing.
  destruct (truthy_float a); destruct fix_mask, mov_mask; cbn;
    repeat split; intros; congruence.
Qed.

(** X4: with [alignment_spacing] unset or zero nothing is skip sampled:
    the images, the masks and the image spacings come back as given, and
    the spacing of a mask is [ut.relative_spacing(mask, image, spacing)]. *)
Theorem alignment_spacing_off :
  forall (E : Env) (fix_ mov : ndarray) (fix_mask mov_mask : option ndarray)
         (fix_spacing mov_spacing : list Q) (alignment_spacing : option Q),
    (alignment_spacing = None \/
     exists q, alignment_spacing = Some q /\ (q == 0)%Q) ->
    apply_alignment_spacing E fix_ mov fix_mask mov_mask
      fix_spacing mov_spacing alignment_spacing
    = mk_sampled fix_ mov fix_mask mov_mask fix_spacing mov_spacing
        (option_map (fun k => relative_spacing E k fix_ fix_spacing) fix_mask)
        (option_map (fun k => relative_spacing E k mov mov_spacing) mov_mask).
Proof.
  intros E fix_ mov fix_mask mov_mask fs ms a H.
  unfold apply_alignment_spacing.
  assert (Ht : truthy_float a = None).
  { destruct H as [->|(q & -> & Hq)]; [reflexivity|].
    simpl. apply Qeq_bool_iff in Hq. now rewrite Hq. }
  now rewrite Ht.
Qed.

Lemma alignment_spacing_off_witness :
  apply_alignment_spacing (Demo.env_engine 1) Demo.image Demo.image
    (Some Demo.image) None [1; 2; 3]%Q [1; 1; 1]%Q (Some (0 # 5))
  = mk_sampled Demo.image Demo.image (Some Demo.image) None
      [1; 2; 3]%Q [1; 1; 1]%Q
      (option_map (fun k => relative_spacing (Demo.env_engine 1) k Demo.image
                              [1; 2; 3]%Q) (Some Demo.image))
      (option_map (fun k => relative_spacing (Demo.env_engine 1) k Demo.image
                              [1; 1; 1]%Q) None).
Proof.
  apply (alignment_spacing_off (Demo.env_engine 1) Demo.image Demo.image
           (Some Demo.image) None [1; 2; 3]%Q [1; 1; 1]%Q (Some (0 # 5))).
  right. exists (0 # 5). split; reflexivity.
Defined.

(** The mask that [images_to_sitk] makes of what [apply_alignment_spacing]
    returns for the mask [k] of the image [img]. *)
Lemma sampled_mask_to_sitk (E : Env) (img : ndarray) (spacing : list Q)
  (origin : option (list Q)) (a : Q) (mask : option ndarray) :
  mask_to_sitk E
    (fst (skip_sample_mask E mask
            (option_map (fun k => relative_spacing E k img spacing) mask) a))
    (snd (skip_sample_mask E mask
            (option_map (fun k => relative_spacing E k img spacing) mask) a))
    origin
  = option_map (fun k =>
      let r := skip_sample E k (relative_spacing E k img spacing) a in
      numpy_to_sitk E (fst r) (snd r) origin) mask.
Proof. now destruct mask. Qed.

(** X5: the masks that reach SimpleITK when [images_to_sitk] is applied to
    the result of [apply_alignment_spacing], as the three engine stages
    do.  A mask is converted exactly when it is given; it carries the
    origin of its image and a spacing of its own, the spacing of the mask
    relative to the image before skip sampling, skip sampled like the
    image when [alignment_spacing] is set. *)
Theorem masks_reach_sitk_with_their_spacing :
  forall (E : Env) (fix_ mov : ndarray) (fix_mask mov_mask : option ndarray)
         (fix_spacing mov_spacing : list Q) (alignment_spacing : option Q)
         (fix_origin mov_origin : option (list Q)),
    let S := images_to_sitk E
               (apply_alignment_spacing E fix_ mov fix_mask mov_mask
                  fix_spacing mov_spacing alignment_spacing)
               fix_origin mov_origin in
    let convert := fun (img : ndarray) (spacing : list Q)
                       (origin : option (list Q)) (k : ndarray) =>
      match truthy_float alignment_spacing with
      | Some a =>
          let r := skip_sample E k (relative_spacing E k img spacing) a in
          numpy_to_sitk E (fst r) (snd r) origin
      | None => numpy_to_sitk E k (relative_spacing E k img spacing) origin
      end in
    i_fix_mask S = option_map (convert fix_ fix_spacing fix_origin) fix_mask /\
    i_mov_mask S = option_map (convert mov mov_spacing mov_origin) mov_mask.
Proof.
  intros E fix_ mov fix_mask mov_mask fs ms a fo mo S convert.
  subst S convert. unfold images_to_sitk, apply_alignment_spacing.
  destruct (truthy_float a) as [q|]; cbn [i_fix_mask i_mov_mask s_fix_mask
    s_mov_mask s_fix_mask_spacing s_mov_mask_spacing].
  - now rewrite !sampled_mask_to_sitk.
  - now destruct fix_mask, mov_mask.
Qed.

Lemma map_const_repeat {A B : Type} (b : B) (l : list A) :
  map (fun _ => b) l = repeat b (length l).
Proof. induction l as [|x l IH]; simpl; [reflexivity | now rewrite IH]. Qed.

(** X6: [format_static_transform_data] returns one spacing and one origin
    per static transform; every origin is the origin of the fixed image;
    and when every transform is a matrix or a vector (an affine, not a
    displacement field) every spacing is the spacing of the fixed image. *)
Theorem static_transform_data_is_aligned :
  forall (E : Env) (transforms : list ndarray) (fix_ : ndarray)
         (fix_spacing : list Q) (fix_origin : option (list Q)),
    let r := format_static_transform_data E transforms fix_ fix_spacing
               fix_origin in
    length (fst r) = length transforms /\
    snd r = repeat fix_origin (length transforms) /\
    (forall i t, nth_error transforms i = Some t ->
                 nth_error (fst r) i
                 = Some (if (ndim t =? 1) || (ndim t =? 2) then fix_spacing
                         else relative_spacing E t fix_ fix_spacing)) /\
    (Forall (fun t => ndim t = 1 \/ ndim t = 2) transforms ->
     fst r = repeat fix_spacing (length transforms)).
Proof.
  intros E transforms fix_ fs fo r. subst r.
  unfold format_static_transform_data. cbn [fst snd].
  split; [apply length_map|].
  split; [apply map_const_repeat|].
  split.
  - intros i t Hi. rewrite nth_error_map, Hi. cbn.
    unfold rank_not_1_or_2. now destruct ((ndim t =? 1) || (ndim t =? 2)).
  - intro Hall. rewrite <- map_const_repeat. apply map_ext_in.
    intros t Ht. rewrite Forall_forall in Hall.
    unfold rank_not_1_or_2.
    destruct (Hall t Ht) as [H|H]; rewrite H; reflexivity.
Qed.

(** ** feature_point_ransac_affine_align: the accepted fit and the spots *)

(** The last row of [np.eye(k + 1)]. *)
Lemma eye_row_last (k : nat) :
  eye_row (S k) k = repeat 0%float k ++ [1%float].
Proof.
  unfold eye_row. rewrite seq_S, map_app. simpl. rewrite Nat.eqb_refl.
  f_equal. transitivity (map (fun _ : nat => 0%float) (seq 0 k)).
  2: { now rewrite map_const_repeat, length_seq. }
  apply map_ext_in. intros j Hj. apply in_seq in Hj.
  destruct (Nat.eqb k j) eqn:Hk; [|reflexivity].
  apply Nat.eqb_eq in Hk. lia.
Qed.

Lemma existsb_false {A : Type} (f : A -> bool) (l : list A) :
  (forall x, In x l -> f x = false) -> existsb f l = false.
Proof.
  intro H. induction l as [|x l IH]; simpl; [reflexivity|].
  rewrite (H x (or_introl eq_refl)). apply IH.
  intros y Hy. apply H. now right.
Qed.

(** X7: the accepted fit.  When the run reaches the consensus fit, the
    fitter returns an [n x (n + 1)] matrix for an [n]-dimensional fixed
    image, and no diagonal entry [d] has an [abs(d - 1)], as the program
    computes it in binary64, greater than [diagonal_constraint], the
    function returns the homogeneous matrix: the rows of the fit above
    the row [0 ... 0 1].  An entry within [diagonal_constraint] of 1 is
    such an entry, and so is one that is NaN. *)
Theorem ransac_accepts_sensible_affine :
  forall (E : Env) (fix_ mov : ndarray) (fs ms : list Q) (bs : Q * Q)
         (o : Ransac.options) (mf mm : spots)
         (r : Z) (Aff : ndarray) (inl : option ndarray) (n : Z),
    Ransac.reaches_fit E fix_ mov fs ms bs o mf mm ->
    estimateAffine3D E mf mm (Ransac.align_threshold o) (999 # 1000)
      (Ransac.kwargs o) = (r, Some Aff, inl) ->
    ndim (s_fix (Ransac.prepare E fix_ mov fs ms o)) = n ->
    shape Aff = [n; n + 1] ->
    (forall i, (i < Z.to_nat n)%nat ->
               (Ransac.diagonal_constraint o
                <? abs (nth (i * Z.to_nat (n + 1) + i) (data Aff) 0 - 1))%float
               = false) ->
    Ransac.feature_point_ransac_affine_align E fix_ mov fs ms bs o
    = Ok (mk_ndarray [n + 1; n + 1]
            (data Aff ++ repeat 0%float (Z.to_nat n) ++ [1%float])).
Proof.
  intros E fix_ mov fs ms bs o mf mm r Aff inl n Hreach Hfit Hn Hshape Hdiag.
  assert (Hn0 : 0 <= n) by (rewrite <- Hn; unfold ndim, len; lia).
  rewrite (ransac_at_fit _ _ _ _ _ _ _ _ _ Hreach).
  rewrite (fit_ignores_flag _ _ _ _ _ _ _ _ _ Hfit).
  unfold Ransac.diag_of, diag. rewrite Hshape. cbn [Py.bind].
  assert (Hmin : Z.min n (n + 1) = n) by lia. rewrite Hmin.
  assert (Hany : any_abs_minus_one_gt
                   (mk_ndarray [Z.of_nat (Z.to_nat n)]
                      (map (fun i => nth (i * Z.to_nat (n + 1) + i) (data Aff) 0%float)
                           (seq 0 (Z.to_nat n))))
                   (Ransac.diagonal_constraint o) = false).
  { unfold any_abs_minus_one_gt. cbn [data]. apply existsb_false.
    intros x Hx. apply in_map_iff in Hx. destruct Hx as (i & <- & Hi).
    apply in_seq in Hi. apply Hdiag. lia. }
  rewrite Hany. rewrite Hn. unfold Ransac.augment.
  rewrite Hshape, shape_eqb_refl.
  replace (Z.to_nat (n + 1)) with (S (Z.to_nat n)) by lia.
  now rewrite eye_row_last.
Qed.

Lemma ransac_accepts_sensible_affine_witness :
  Ransac.feature_point_ransac_affine_align
    (Demo.env_fit (1, Some (Demo.affine_with_diagonal 1 1.125 0.875), None))
    Demo.image Demo.image [1; 1; 1]%Q [1; 1; 1]%Q (1, 4)%Q Ransac.defaults
  = Ok (mk_ndarray [3 + 1; 3 + 1]
          (data (Demo.affine_with_diagonal 1 1.125 0.875)
           ++ repeat 0%float (Z.to_nat 3) ++ [1%float])).
Proof.
  apply (ransac_accepts_sensible_affine
           (Demo.env_fit (1, Some (Demo.affine_with_diagonal 1 1.125 0.875), None))
           Demo.image Demo.image [1; 1; 1]%Q [1; 1; 1]%Q (1, 4)%Q Ransac.defaults
           (Demo.some_points 50) (Demo.some_points 50)
           1 (Demo.affine_with_diagonal 1 1.125 0.875) None 3).
  - repeat split; vm_compute; try reflexivity; discriminate.
  - reflexivity.
  - reflexivity.
  - reflexivity.
  - intros i Hi.
    destruct i as [|[|[|i]]]; [reflexivity ..|].
    exfalso. simpl in Hi. lia.
Defined.

(** [a[:, 3]] can only fail with an [IndexError], and does so as soon as
    one row has no fourth entry. *)
Lemma column_short (a : spots) (row : list Q) :
  In row a -> (length row <= 3)%nat -> Ransac.column 3 a = Raise IndexError.
Proof.
  unfold Ransac.column. induction a as [|x a IH]; [intros []|].
  intros Hin Hlen. cbn [mapM].
  destruct (nth_error x 3) as [v|] eqn:Hx; cbn [Py.bind]; [|reflexivity].
  destruct Hin as [->|Hin].
  - assert (nth_error row 3 = None) by (apply nth_error_None; lia). congruence.
  - now rewrite (IH Hin Hlen).
Qed.

Lemma column_raises (a : spots) (e : exn) :
  Ransac.column 3 a = Raise e -> e = IndexError.
Proof.
  unfold Ransac.column. induction a as [|x a IH]; cbn [mapM]; [discriminate|].
  destruct (nth_error x 3); cbn [Py.bind]; [|congruence].
  destruct (mapM _ a) as [ys|e0]; cbn [Py.bind]; [discriminate|].
  intros [= <-]. now apply IH.
Qed.

Lemma sort_spots_short (a : spots) (n : Z) (row : list Q) :
  In row a -> (length row <= 3)%nat -> Ransac.sort_spots a n = Raise IndexError.
Proof.
  intros Hin Hlen. unfold Ransac.sort_spots.
  now rewrite (column_short a row Hin Hlen).
Qed.

(** X8: spots need a fourth column.  When 100 or more spots are at hand
    for each image (given by the caller or detected) and one row of
    either array has fewer than four entries, such as the rows of an
    array of bare coordinates, the function raises [IndexError] at the
    sort by intensity; the default is not returned. *)
Theorem ransac_spots_need_intensity_column :
  forall (E : Env) (fix_ mov : ndarray) (fs ms : list Q) (bs : Q * Q)
         (o : Ransac.options) (row : list Q),
    let X := Ransac.prepare E fix_ mov fs ms o in
    let fspots := Ransac.get_fix_spots E X bs o in
    let mspots := Ransac.get_mov_spots E X bs o in
    100 <= len fspots -> 100 <= len mspots ->
    In row fspots \/ In row mspots ->
    (length row <= 3)%nat ->
    Ransac.feature_point_ransac_affine_align E fix_ mov fs ms bs o
    = Raise IndexError.
Proof.
  intros E fix_ mov fs ms bs o row X fspots mspots Hf Hm Hin Hlen.
  unfold Ransac.feature_point_ransac_affine_align.
  fold X. fold fspots. fold mspots.
  apply Z.ltb_ge in Hf, Hm. rewrite Hf, Hm.
  unfold Ransac.matched_spots.
  destruct Hin as [Hin|Hin].
  - now rewrite (sort_spots_short _ _ _ Hin Hlen).
  - rewrite (sort_spots_short mspots _ _ Hin Hlen).
    destruct (Ransac.sort_spots fspots (Ransac.nspots o)) as [s|e] eqn:Hs;
      cbn [Py.bind]; [reflexivity|].
    unfold Ransac.sort_spots in Hs.
    destruct (Ransac.column 3 fspots) as [keys|e'] eqn:Hc; cbn [Py.bind] in Hs;
      [discriminate|].
    injection Hs as <-. now rewrite (column_raises _ _ Hc).
Qed.

Lemma ransac_spots_need_intensity_column_witness :
  Ransac.feature_point_ransac_affine_align Demo.env_few_matches
    Demo.image Demo.image [1; 1; 1]%Q [1; 1; 1]%Q (1, 4)%Q
    Demo.coordinates_only
  = Raise IndexError.
Proof.
  apply (ransac_spots_need_intensity_column Demo.env_few_matches
           Demo.image Demo.image [1; 1; 1]%Q [1; 1; 1]%Q (1, 4)%Q
           Demo.coordinates_only [0; 0; 0]%Q).
  - vm_compute. discriminate.
  - vm_compute. discriminate.
  - left. left. reflexivity.
  - simpl. lia.
Defined.

(** ** Sorting: [np.argsort], and what the stages do with it *)

Lemma insert_by_perm (key : nat -> Q) (i : nat) (l : list nat) :
  Permutation (insert_by key i l) (i :: l).
Proof.
  induction l as [|j l IH]; simpl; [reflexivity|].
  destruct (Py.ltb (key i) (key j)); [reflexivity|].
  rewrite IH. apply perm_swap.
Qed.

Lemma insert_by_sorted (key : nat -> Q) (i : nat) (l : list nat) :
  StronglySorted (fun a b => (key a <= key b)%Q) l ->
  StronglySorted (fun a b => (key a <= key b)%Q) (insert_by key i l).
Proof.
  induction 1 as [|j l Hs IH Hall]; simpl.
  - constructor; constructor.
  - destruct (Py.ltb (key i) (key j)) eqn:Hlt.
    + apply ltb_lt in Hlt. constructor; [now constructor|].
      constructor; [now apply Qlt_le_weak|].
      eapply Forall_impl; [|exact Hall].
      intros x Hx. cbv beta in *. eapply Qle_trans; [|exact Hx].
      now apply Qlt_le_weak.
    + apply ltb_nlt in Hlt. constructor; [exact IH|].
      apply Forall_forall. intros x Hx.
      apply (Permutation_in _ (insert_by_perm key i l)) in Hx.
      destruct Hx as [<-|Hx].
      * now apply Qnot_lt_le.
      * rewrite Forall_forall in Hall. now apply Hall.
Qed.

Lemma fold_insert_perm (key : nat -> Q) (l acc : list nat) :
  Permutation (fold_left (fun acc i => insert_by key i acc) l acc) (l ++ acc).
Proof.
  revert acc. induction l as [|i l IH]; intro acc; simpl; [reflexivity|].
  rewrite IH. rewrite insert_by_perm. symmetry. apply Permutation_middle.
Qed.

Lemma fold_insert_sorted (key : nat -> Q) (l acc : list nat) :
  StronglySorted (fun a b => (key a <= key b)%Q) acc ->
  StronglySorted (fun a b => (key a <= key b)%Q)
    (fold_left (fun acc i => insert_by key i acc) l acc).
Proof.
  revert acc. induction l as [|i l IH]; intros acc H; simpl; [exact H|].
  apply IH. now apply insert_by_sorted.
Qed.

(** [np.argsort] returns every index once ... *)
Lemma argsort_perm (keys : list Q) :
  Permutation (argsort keys) (seq 0 (length keys)).
Proof.
  unfold argsort. rewrite fold_insert_perm. now rewrite app_nil_r.
Qed.

(** ... in the order of non-decreasing key. *)
Lemma argsort_sorted (keys : list Q) :
  StronglySorted (fun a b => (nth a keys 0 <= nth b keys 0)%Q) (argsort keys).
Proof.
  unfold argsort.
  apply (fold_insert_sorted (fun i => nth i keys 0%Q)). constructor.
Qed.

Lemma argsort_length (keys : list Q) : length (argsort keys) = length keys.
Proof.
  rewrite (Permutation_length (argsort_perm keys)). apply length_seq.
Qed.

Lemma argsort_in_range (keys : list Q) (i : nat) :
  In i (argsort keys) -> (i < length keys)%nat.
Proof.
  intro H. apply (Permutation_in _ (argsort_perm keys)) in H.
  apply in_seq in H. lia.
Qed.

Lemma take_map {A : Type} (d : A) (xs : list A) (idx : list nat) :
  (forall i, In i idx -> (i < length xs)%nat) ->
  take xs idx = map (fun i => nth i xs d) idx.
Proof.
  unfold take. induction idx as [|i idx IH]; intro H; simpl; [reflexivity|].
  rewrite IH by (intros j Hj; apply H; now right).
  rewrite (nth_error_nth' xs d) by (apply H; now left). reflexivity.
Qed.

Lemma take_length {A : Type} (xs : list A) (idx : list nat) :
  (forall i, In i idx -> (i < length xs)%nat) ->
  length (take xs idx) = length idx.
Proof.
  unfold take. induction idx as [|i idx IH]; intro H; simpl; [reflexivity|].
  destruct (nth_error xs i) eqn:Hi.
  - simpl. f_equal. apply IH. intros j Hj. apply H. now right.
  - apply nth_error_None in Hi. specialize (H i (or_introl eq_refl)). lia.
Qed.

Lemma map_nth_seq {A : Type} (d : A) (xs : list A) :
  map (fun i => nth i xs d) (seq 0 (length xs)) = xs.
Proof.
  induction xs as [|x xs IH]; simpl; [reflexivity|].
  f_equal. rewrite <- seq_shift, map_map. exact IH.
Qed.

Lemma take_all {A : Type} (xs : list A) : take xs (seq 0 (length xs)) = xs.
Proof.
  destruct xs as [|x xs]; [reflexivity|].
  rewrite (take_map x) by (intros i Hi; apply in_seq in Hi; lia).
  apply map_nth_seq.
Qed.

Lemma sorted_snoc {A : Type} (R : A -> A -> Prop) (l : list A) (x : A) :
  StronglySorted R l -> Forall (fun y => R y x) l ->
  StronglySorted R (l ++ [x]).
Proof.
  induction 1 as [|y l Hs IH Hall]; intro Hx; simpl.
  - constructor; constructor.
  - inversion Hx as [|? ? Hyx Hx']. subst.
    constructor; [now apply IH|].
    apply Forall_app. split; [exact Hall | now constructor].
Qed.

Lemma sorted_rev {A : Type} (R : A -> A -> Prop) (l : list A) :
  StronglySorted R l -> StronglySorted (fun a b => R b a) (rev l).
Proof.
  induction 1 as [|y l Hs IH Hall]; simpl; [constructor|].
  apply sorted_snoc; [exact IH|].
  apply Forall_forall. intros z Hz. apply in_rev in Hz.
  rewrite Forall_forall in Hall. now apply Hall.
Qed.

Lemma sorted_map {A B : Type} (R : B -> B -> Prop) (f : A -> B) (l : list A) :
  StronglySorted (fun a b => R (f a) (f b)) l -> StronglySorted R (map f l).
Proof.
  induction 1 as [|y l Hs IH Hall]; simpl; constructor; [exact IH|].
  apply Forall_forall. intros z Hz. apply in_map_iff in Hz.
  destruct Hz as (w & <- & Hw). rewrite Forall_forall in Hall. now apply Hall.
Qed.

Lemma sorted_app {A : Type} (R : A -> A -> Prop) (l1 l2 : list A) :
  StronglySorted R (l1 ++ l2) ->
  StronglySorted R l1 /\ StronglySorted R l2 /\
  (forall x y, In x l1 -> In y l2 -> R x y).
Proof.
  induction l1 as [|a l1 IH]; simpl; intro H.
  - split; [constructor|]. split; [exact H|]. intros x y [].
  - inversion H as [|? ? Hs Hall]. subst.
    destruct (IH Hs) as (H1 & H2 & H3).
    rewrite Forall_forall in Hall.
    split; [|split].
    + constructor; [exact H1|]. apply Forall_forall. intros x Hx.
      apply Hall. apply in_or_app. now left.
    + exact H2.
    + intros x y [<-|Hx] Hy.
      * apply Hall. apply in_or_app. now right.
      * now apply H3.
Qed.

Lemma slice_to_firstn {A : Type} (l : list A) (k : Z) :
  0 <= k -> slice_to l k = firstn (Z.to_nat k) l.
Proof.
  intro Hk. unfold slice_to. rewrite slice_nonneg by lia.
  replace (Z.to_nat (Z.min (len l) 0)) with 0%nat by (unfold len; lia).
  rewrite Nat.sub_0_r. cbn [skipn].
  destruct (Z_le_gt_dec k (len l)) as [H|H].
  - now rewrite Z.min_r by lia.
  - rewrite Z.min_l by lia. unfold len in *. rewrite Nat2Z.id.
    rewrite firstn_all. symmetry. apply firstn_all2. lia.
Qed.

(** [a[:, 3]] for an array with at least four columns. *)
Lemma column_intensity (a : spots) :
  (forall row, In row a -> (4 <= length row)%nat) ->
  Ransac.column 3 a = Ok (map (fun row => nth 3 row 0%Q) a).
Proof.
  intro H. unfold Ransac.column. apply mapM_Ok. intros row Hrow.
  rewrite (nth_error_nth' row 0%Q) by (specialize (H row Hrow); lia).
  reflexivity.
Qed.

(** X9: the sort of the spots (lines 417-420).  For spots with an
    intensity column and [nspots >= 0], the result holds the coordinates
    of the first [nspots] spots of the array put in the order of
    non-increasing intensity: no more than [nspots] spots are kept, and
    the brightest ones are. *)
Theorem sort_spots_keeps_brightest :
  forall (a : spots) (n : Z),
    (forall row, In row a -> (4 <= length row)%nat) ->
    0 <= n ->
    exists sorted,
      Permutation sorted a /\
      StronglySorted (fun r s => (nth 3 s 0 <= nth 3 r 0)%Q) sorted /\
      Ransac.sort_spots a n
      = Ok (map (firstn 3) (firstn (Z.to_nat n) sorted)).
Proof.
  intros a n Hrows Hn.
  set (keys := map (fun row : list Q => nth 3 row 0%Q) a).
  assert (Hlen : length keys = length a) by (unfold keys; apply length_map).
  assert (Hrange : forall i, In i (rev (argsort keys)) -> (i < length a)%nat).
  { intros i Hi. apply in_rev in Hi. apply argsort_in_range in Hi. lia. }
  exists (map (fun i => nth i a []) (rev (argsort keys))).
  split; [|split].
  - transitivity (map (fun i => nth i a []) (seq 0 (length a))).
    2: { now rewrite map_nth_seq. }
    apply Permutation_map.
    rewrite <- Permutation_rev. rewrite <- Hlen. apply argsort_perm.
  - apply sorted_map. apply sorted_rev.
    pose proof (argsort_sorted keys) as Hs.
    eapply StronglySorted_ind with (P := fun l =>
      StronglySorted (fun a0 b => (nth 3 (nth a0 a []) 0 <= nth 3 (nth b a []) 0)%Q) l);
      [constructor | | exact Hs].
    intros i l _ IH Hall. constructor; [exact IH|].
    eapply Forall_impl; [|exact Hall].
    intros j Hj. cbv beta in Hj. unfold keys in Hj.
    now rewrite !(map_nth (fun row : list Q => nth 3 row 0%Q) a []) in Hj.
  - unfold Ransac.sort_spots. rewrite (column_intensity a Hrows).
    cbn [Py.bind]. fold keys. rewrite slice_to_firstn by exact Hn.
    rewrite (take_map [] a _ Hrange). now rewrite firstn_map.
Qed.

Lemma sort_spots_keeps_brightest_witness :
  exists sorted,
    Permutation sorted (Demo.some_spots 3) /\
    StronglySorted (fun r s => (nth 3 s 0 <= nth 3 r 0)%Q) sorted /\
    Ransac.sort_spots (Demo.some_spots 3) 2
    = Ok (map (firstn 3) (firstn (Z.to_nat 2) sorted)).
Proof.
  apply (sort_spots_keeps_brightest (Demo.some_spots 3) 2).
  - intros row [<-|[<-|[<-|[]]]]; simpl; lia.
  - lia.
Defined.

(** Three spots of intensities 0, 1 and 2, of which two are kept. *)
Example sort_spots_run :
  Ransac.sort_spots (Demo.some_spots 3) 2 = Ok [[2; 2; 2]; [1; 1; 1]]%Q.
Proof. reflexivity. Qed.

(** ** random_affine_search: the selection of the results *)

Lemma sorted_nth {A : Type} (R : A -> A -> Prop) (d : A) (l : list A) :
  StronglySorted R l ->
  forall j m, (j < m < length l)%nat -> R (nth j l d) (nth m l d).
Proof.
  induction 1 as [|x l Hs IH Hall]; intros j m Hjm; simpl in Hjm; [lia|].
  destruct m as [|m]; [lia|]. destruct j as [|j]; simpl.
  - rewrite Forall_forall in Hall. apply Hall. apply nth_In. lia.
  - apply IH. lia.
Qed.

Lemma insert_by_last (key : nat -> Q) (i : nat) (l : list nat) :
  (forall j, In j l -> (key j <= key i)%Q) -> insert_by key i l = l ++ [i].
Proof.
  induction l as [|j l IH]; intro H; simpl; [reflexivity|].
  assert (Hj : Py.ltb (key i) (key j) = false).
  { apply ltb_nlt. apply Qle_not_lt. apply H. now left. }
  rewrite Hj, IH; [reflexivity|]. intros x Hx. apply H. now right.
Qed.

(** The stable sort of a list that is sorted already moves nothing. *)
Lemma argsort_of_sorted (l : list Q) :
  StronglySorted Qle l -> argsort l = seq 0 (length l).
Proof.
  intro Hs. unfold argsort.
  assert (H : forall m, (m <= length l)%nat ->
            fold_left (fun acc i => insert_by (fun i => nth i l 0%Q) i acc)
                      (seq 0 m) [] = seq 0 m).
  { induction m as [|m IH]; intro Hm; [reflexivity|].
    rewrite seq_S, fold_left_app, IH by lia. simpl.
    apply insert_by_last. intros j Hj. apply in_seq in Hj.
    apply (sorted_nth Qle 0%Q l Hs). lia. }
  now apply H.
Qed.

Lemma argpartition_in_bounds (a : list Q) (k : Z) :
  0 <= k < len a -> argpartition a k = Ok (argsort a).
Proof.
  intro H. unfold argpartition.
  destruct (k <? 0) eqn:E0; [apply Z.ltb_lt in E0; lia|].
  rewrite E0.
  destruct (len a <=? k) eqn:E1; [apply Z.leb_le in E1; lia|].
  now rewrite andb_false_r.
Qed.

Lemma argpartition_above (a : list Q) (k : Z) :
  len a <= k -> a <> [] -> argpartition a k = Raise ValueError.
Proof.
  intros H Ha. unfold argpartition.
  assert (0 < len a) by (destruct a; [congruence | unfold len; simpl; lia]).
  destruct (k <? 0) eqn:E0; [apply Z.ltb_lt in E0; lia|].
  rewrite E0.
  destruct (len a =? 0) eqn:E2; [apply Z.eqb_eq in E2; lia|].
  destruct (len a <=? k) eqn:E1; [reflexivity|].
  apply Z.leb_gt in E1. lia.
Qed.

Lemma firstn_in_range (keys : list Q) (k i : nat) :
  In i (firstn k (argsort keys)) -> (i < length keys)%nat.
Proof.
  intro H. apply argsort_in_range.
  rewrite <- (firstn_skipn k (argsort keys)). apply in_or_app. now left.
Qed.

(** Lines 724-726 in one step: the rows at the first [nreturn] indices of
    the sort of all the scores. *)
Lemma top_results_closed {A : Type} (params : list A) (scores : list Q) (k : Z) :
  length params = length scores -> 0 <= k < len scores ->
  RandomSearch.top_results params scores k
  = Ok (take params (firstn (Z.to_nat k) (argsort scores))).
Proof.
  intros Hlen Hk. unfold RandomSearch.top_results.
  rewrite (argpartition_in_bounds _ _ Hk). cbn [Py.bind].
  rewrite slice_to_firstn by lia.
  set (P := firstn (Z.to_nat k) (argsort scores)).
  assert (HP : forall i, In i P -> (i < length scores)%nat)
    by (intro i; apply firstn_in_range).
  assert (Hsorted : StronglySorted Qle (take scores P)).
  { rewrite (take_map 0%Q scores P HP). apply sorted_map.
    pose proof (argsort_sorted scores) as Hs.
    rewrite <- (firstn_skipn (Z.to_nat k) (argsort scores)) in Hs.
    now apply sorted_app in Hs. }
  rewrite (argsort_of_sorted _ Hsorted).
  rewrite (take_length scores P HP).
  rewrite <- (take_length params P) by (rewrite Hlen; exact HP).
  now rewrite take_all.
Qed.

(** X10: the results of the search are the best ones, best first.  For
    as many scores as rows and [0 <= nreturn < len(scores)], the rows
    returned are the rows at [idx], where [idx] followed by the indices
    left out lists every row once in the order of non-decreasing score:
    [nreturn] rows come back, sorted by score, and no row left out scores
    lower than a row returned. *)
Theorem search_returns_best_first :
  forall (A : Type) (params : list A) (scores : list Q) (k : Z),
    length params = length scores ->
    0 <= k < len scores ->
    exists idx rest,
      Permutation (idx ++ rest) (seq 0 (length scores)) /\
      StronglySorted (fun i j => (nth i scores 0 <= nth j scores 0)%Q)
                     (idx ++ rest) /\
      length idx = Z.to_nat k /\
      RandomSearch.top_results params scores k = Ok (take params idx) /\
      length (take params idx) = Z.to_nat k.
Proof.
  intros A params scores k Hlen Hk.
  exists (firstn (Z.to_nat k) (argsort scores)),
         (skipn (Z.to_nat k) (argsort scores)).
  rewrite firstn_skipn.
  assert (Hl : length (firstn (Z.to_nat k) (argsort scores)) = Z.to_nat k).
  { rewrite length_firstn, argsort_length. unfold len in Hk. lia. }
  split; [apply argsort_perm|].
  split; [apply argsort_sorted|].
  split; [exact Hl|].
  split; [now apply top_results_closed|].
  rewrite take_length; [exact Hl|].
  intros i Hi. rewrite Hlen. now apply firstn_in_range in Hi.
Qed.

Lemma search_returns_best_first_witness :
  exists idx rest,
    Permutation (idx ++ rest) (seq 0 (length [1 # 2; 3 # 4; 1 # 3]%Q)) /\
    StronglySorted
      (fun i j => (nth i [1 # 2; 3 # 4; 1 # 3] 0 <= nth j [1 # 2; 3 # 4; 1 # 3] 0)%Q)
      (idx ++ rest) /\
    length idx = Z.to_nat 2 /\
    RandomSearch.top_results ["identity"; "row 1"; "row 2"]%string
      [1 # 2; 3 # 4; 1 # 3]%Q 2
    = Ok (take ["identity"; "row 1"; "row 2"]%string idx) /\
    length (take ["identity"; "row 1"; "row 2"]%string idx) = Z.to_nat 2.
Proof.
  apply (search_returns_best_first string ["identity"; "row 1"; "row 2"]%string
           [1 # 2; 3 # 4; 1 # 3]%Q 2).
  - reflexivity.
  - unfold len. simpl. lia.
Defined.

(** With the engine metric, and on images that are not 2-d, the scoring
    of a table cannot raise: the search is the selection applied to some
    list of scores, one per row. *)
Lemma search_engine_scores (E : Env) (g : nat -> R) (fix_ mov : ndarray)
  (fs ms : list Q) (n : nat) (o : RandomSearch.options)
  (params : list (list xreal)) (center : list Q) :
  ndim fix_ <> 2 ->
  RandomSearch.use_patch_mutual_information o = false ->
  RandomSearch.generate_params g n
    (RandomSearch.in_max_translation (RandomSearch.generalize_to_3d fix_ mov fs ms o))
    (RandomSearch.in_max_rotation (RandomSearch.generalize_to_3d fix_ mov fs ms o))
    (RandomSearch.in_max_scale (RandomSearch.generalize_to_3d fix_ mov fs ms o))
    (RandomSearch.in_max_shear (RandomSearch.generalize_to_3d fix_ mov fs ms o))
  = Ok params ->
  RandomSearch.center_of
    (RandomSearch.in_fix (RandomSearch.generalize_to_3d fix_ mov fs ms o))
    (RandomSearch.in_fix_spacing (RandomSearch.generalize_to_3d fix_ mov fs ms o))
  = Ok center ->
  exists scores,
    length scores = S n /\ length params = S n /\
    RandomSearch.random_affine_search E g fix_ mov fs ms n o
    = (best <- RandomSearch.top_results params scores (RandomSearch.nreturn o);;
       Ok (map (fun p => physical_parameters_to_affine_matrix_3d E p center) best)).
Proof.
  intros H3d Hirm Hp Hc.
  unfold RandomSearch.random_affine_search.
  rewrite Hp, Hc. cbn [Py.bind].
  rewrite (sample_3d E fix_ mov fs ms o H3d). rewrite Hirm. cbn [Py.bind].
  match goal with
  | |- context [mapM ?f params] =>
      destruct (mapM_total f params) as [scores Hs]
  end.
  { intro p. cbv beta. unfold RandomSearch.score_affine_irm, try_except.
    match goal with
    | |- context [MetricEvaluate E ?m ?a ?b] =>
        destruct (MetricEvaluate E m a b) as [s|e]
    end; eexists; reflexivity. }
  pose proof (generate_params_length _ _ _ _ _ _ _ Hp) as Hlp.
  exists scores. split; [|split; [exact Hlp|]].
  - rewrite (mapM_length _ _ _ Hs). exact Hlp.
  - now rewrite Hs.
Qed.

(** X11: on images that are not 2-d, with the engine metric, a table and
    a center that can be built, and [0 <= nreturn <= random_iterations],
    the search returns, and it returns exactly [nreturn] matrices. *)
Theorem search_returns_nreturn_matrices :
  forall (E : Env) (g : nat -> R) (fix_ mov : ndarray) (fs ms : list Q)
         (n : nat) (o : RandomSearch.options)
         (params : list (list xreal)) (center : list Q),
    let I := RandomSearch.generalize_to_3d fix_ mov fs ms o in
    ndim fix_ <> 2 ->
    RandomSearch.use_patch_mutual_information o = false ->
    RandomSearch.generate_params g n (RandomSearch.in_max_translation I)
      (RandomSearch.in_max_rotation I) (RandomSearch.in_max_scale I)
      (RandomSearch.in_max_shear I) = Ok params ->
    RandomSearch.center_of (RandomSearch.in_fix I)
      (RandomSearch.in_fix_spacing I) = Ok center ->
    0 <= RandomSearch.nreturn o <= Z.of_nat n ->
    exists l,
      RandomSearch.random_affine_search E g fix_ mov fs ms n o = Ok l /\
      len l = RandomSearch.nreturn o.
Proof.
  intros E g fix_ mov fs ms n o params center I H3d Hirm Hp Hc Hk. subst I.
  destruct (search_engine_scores E g fix_ mov fs ms n o params center
              H3d Hirm Hp Hc)
    as (scores & Hls & Hlp & ->).
  assert (Hk' : 0 <= RandomSearch.nreturn o < len scores)
    by (unfold len; rewrite Hls; lia).
  rewrite top_results_closed by (try exact Hk'; congruence).
  cbn [Py.bind]. eexists. split; [reflexivity|].
  unfold len. rewrite length_map, take_length.
  - rewrite length_firstn, argsort_length, Hls. lia.
  - intros i Hi. rewrite Hlp, <- Hls. now apply firstn_in_range in Hi.
Qed.

Lemma search_returns_nreturn_matrices_witness :
  exists l,
    RandomSearch.random_affine_search (Demo.env_engine 1) Demo.halves
      Demo.image Demo.image [1; 1; 1]%Q [1; 1; 1]%Q 2 RandomSearch.defaults
    = Ok l /\
    len l = RandomSearch.nreturn RandomSearch.defaults.
Proof.
  apply (search_returns_nreturn_matrices (Demo.env_engine 1) Demo.halves
           Demo.image Demo.image [1; 1; 1]%Q [1; 1; 1]%Q 2 RandomSearch.defaults
           (repeat RandomSearch.identity_params 3) [2 # 2; 2 # 2; 2 # 2]%Q).
  - discriminate.
  - reflexivity.
  - reflexivity.
  - reflexivity.
  - simpl. lia.
Defined.

(** X12: on images that are not 2-d, asking for more results than there
    are random iterations makes the search raise [ValueError], although
    the table holds [random_iterations + 1] candidates:
    [np.argpartition] wants [nreturn < len(scores)]. *)
Theorem search_rejects_nreturn_above_iterations :
  forall (E : Env) (g : nat -> R) (fix_ mov : ndarray) (fs ms : list Q)
         (n : nat) (o : RandomSearch.options)
         (params : list (list xreal)) (center : list Q),
    let I := RandomSearch.generalize_to_3d fix_ mov fs ms o in
    ndim fix_ <> 2 ->
    RandomSearch.use_patch_mutual_information o = false ->
    RandomSearch.generate_params g n (RandomSearch.in_max_translation I)
      (RandomSearch.in_max_rotation I) (RandomSearch.in_max_scale I)
      (RandomSearch.in_max_shear I) = Ok params ->
    RandomSearch.center_of (RandomSearch.in_fix I)
      (RandomSearch.in_fix_spacing I) = Ok center ->
    Z.of_nat n < RandomSearch.nreturn o ->
    RandomSearch.random_affine_search E g fix_ mov fs ms n o
    = Raise ValueError.
Proof.
  intros E g fix_ mov fs ms n o params center I H3d Hirm Hp Hc Hk. subst I.
  destruct (search_engine_scores E g fix_ mov fs ms n o params center
              H3d Hirm Hp Hc)
    as (scores & Hls & Hlp & ->).
  unfold RandomSearch.top_results.
  rewrite argpartition_above; [reflexivity | | ].
  - unfold len. rewrite Hls. lia.
  - destruct scores; [discriminate | congruence].
Qed.

Lemma search_rejects_nreturn_above_iterations_witness :
  RandomSearch.random_affine_search (Demo.env_engine 1) Demo.halves
    Demo.image Demo.image [1; 1; 1]%Q [1; 1; 1]%Q 2 Demo.three_results
  = Raise ValueError.
Proof.
  apply (search_rejects_nreturn_above_iterations (Demo.env_engine 1) Demo.halves
           Demo.image Demo.image [1; 1; 1]%Q [1; 1; 1]%Q 2 Demo.three_results
           (repeat RandomSearch.identity_params 3) [2 # 2; 2 # 2; 2 # 2]%Q).
  - discriminate.
  - reflexivity.
  - reflexivity.
  - reflexivity.
  - simpl. lia.
Defined.

(** X29: the search does not run on 2-d images.  Line 600 makes a tuple
    of the spacing, and the first line of [apply_alignment_spacing] asks
    it for [astype]: once the table and the center are built the search
    raises [AttributeError], with either metric and before any candidate
    is scored; and whatever the limits are, it raises. *)
Theorem search_on_2d_images_raises :
  forall (E : Env) (g : nat -> R) (fix_ mov : ndarray) (fs ms : list Q)
         (n : nat) (o : RandomSearch.options),
    let I := RandomSearch.generalize_to_3d fix_ mov fs ms o in
    ndim fix_ = 2 ->
    (exists e, RandomSearch.random_affine_search E g fix_ mov fs ms n o
               = Raise e) /\
    (forall params center,
        RandomSearch.generate_params g n (RandomSearch.in_max_translation I)
          (RandomSearch.in_max_rotation I) (RandomSearch.in_max_scale I)
          (RandomSearch.in_max_shear I) = Ok params ->
        RandomSearch.center_of (RandomSearch.in_fix I)
          (RandomSearch.in_fix_spacing I) = Ok center ->
        RandomSearch.random_affine_search E g fix_ mov fs ms n o
        = Raise AttributeError).
Proof.
  intros E g fix_ mov fs ms n o I H2d.
  unfold RandomSearch.random_affine_search. fold I.
  split.
  - destruct (RandomSearch.generate_params _ _ _ _ _ _) as [params|e];
      cbn [Py.bind]; [|now exists e].
    destruct (RandomSearch.center_of _ _) as [center|e];
      cbn [Py.bind]; [|now exists e].
    unfold I. rewrite (sample_2d E fix_ mov fs ms o H2d).
    now exists AttributeError.
  - intros params center Hp Hc. rewrite Hp, Hc. cbn [Py.bind].
    unfold I. now rewrite (sample_2d E fix_ mov fs ms o H2d).
Qed.

Lemma search_on_2d_images_raises_witness :
  (exists e, RandomSearch.random_affine_search (Demo.env_engine 1) Demo.halves
               Demo.image2d Demo.image2d [1; 1]%Q [1; 1]%Q 2
               RandomSearch.defaults = Raise e) /\
  RandomSearch.random_affine_search (Demo.env_engine 1) Demo.halves
    Demo.image2d Demo.image2d [1; 1]%Q [1; 1]%Q 2 RandomSearch.defaults
  = Raise AttributeError.
Proof.
  destruct (search_on_2d_images_raises (Demo.env_engine 1) Demo.halves
              Demo.image2d Demo.image2d [1; 1]%Q [1; 1]%Q 2
              RandomSearch.defaults eq_refl) as [H1 H2].
  split; [exact H1|].
  apply (H2 (repeat RandomSearch.identity_params 3) [2 # 2; 2 # 2; 1 # 2]%Q);
    reflexivity.
Defined.

(** ** random_affine_search: the parameter table *)

Section Table.

Local Open Scope R_scope.

Lemma fill_falsy g n c limit pre post st :
  RandomSearch.truthy limit = None ->
  RandomSearch.fill g n c limit pre post st = Ok st.
Proof. unfold RandomSearch.fill. now intros ->. Qed.

Lemma take_repeat {A : Type} (x : A) (m : nat) (idx : list nat) :
  (forall i, In i idx -> (i < m)%nat) ->
  take (repeat x m) idx = repeat x (length idx).
Proof.
  intro H. rewrite (take_map x) by (now rewrite repeat_length).
  rewrite <- map_const_repeat. apply map_ext. intro i. apply nth_repeat.
Qed.

Lemma map_repeat {A B : Type} (f : A -> B) (x : A) (m : nat) :
  map f (repeat x m) = repeat (f x) m.
Proof. induction m as [|m IH]; simpl; [reflexivity | now rewrite IH]. Qed.

(** X13: a search without limits searches nothing.  When every limit is
    false (unset, as by default, zero, or an empty tuple) no random
    number is drawn and every row of the table is the identity row; on
    images that are not 2-d, with the engine metric and
    [0 <= nreturn <= random_iterations], the result is [nreturn] copies
    of the matrix of the identity parameters. *)
Theorem search_without_limits_returns_identity :
  forall (E : Env) (g : nat -> R) (fix_ mov : ndarray) (fs ms : list Q)
         (n : nat) (o : RandomSearch.options) (center : list Q),
    let I := RandomSearch.generalize_to_3d fix_ mov fs ms o in
    ndim fix_ <> 2%Z ->
    RandomSearch.use_patch_mutual_information o = false ->
    RandomSearch.truthy (RandomSearch.in_max_translation I) = None ->
    RandomSearch.truthy (RandomSearch.in_max_rotation I) = None ->
    RandomSearch.truthy (RandomSearch.in_max_scale I) = None ->
    RandomSearch.truthy (RandomSearch.in_max_shear I) = None ->
    RandomSearch.center_of (RandomSearch.in_fix I)
      (RandomSearch.in_fix_spacing I) = Ok center ->
    (0 <= RandomSearch.nreturn o <= Z.of_nat n)%Z ->
    RandomSearch.generate_params g n (RandomSearch.in_max_translation I)
      (RandomSearch.in_max_rotation I) (RandomSearch.in_max_scale I)
      (RandomSearch.in_max_shear I)
    = Ok (repeat RandomSearch.identity_params (S n)) /\
    RandomSearch.random_affine_search E g fix_ mov fs ms n o
    = Ok (repeat (physical_parameters_to_affine_matrix_3d E
                    RandomSearch.identity_params center)
                 (Z.to_nat (RandomSearch.nreturn o))).
Proof.
  intros E g fix_ mov fs ms n o center I H3d Hirm Ht Hr Hs Hh Hc Hk. subst I.
  assert (Hp : RandomSearch.generate_params g n
                 (RandomSearch.in_max_translation
                    (RandomSearch.generalize_to_3d fix_ mov fs ms o))
                 (RandomSearch.in_max_rotation
                    (RandomSearch.generalize_to_3d fix_ mov fs ms o))
                 (RandomSearch.in_max_scale
                    (RandomSearch.generalize_to_3d fix_ mov fs ms o))
                 (RandomSearch.in_max_shear
                    (RandomSearch.generalize_to_3d fix_ mov fs ms o))
               = Ok (repeat RandomSearch.identity_params (S n))).
  { unfold RandomSearch.generate_params.
    rewrite (fill_falsy _ _ _ _ _ _ _ Ht). cbn [Py.bind].
    rewrite (fill_falsy _ _ _ _ _ _ _ Hr). cbn [Py.bind].
    rewrite (fill_falsy _ _ _ _ _ _ _ Hs). cbn [Py.bind].
    rewrite (fill_falsy _ _ _ _ _ _ _ Hh). reflexivity. }
  split; [exact Hp|].
  destruct (search_engine_scores E g fix_ mov fs ms n o _ center H3d Hirm Hp Hc)
    as (scores & Hls & Hlp & ->).
  assert (Hk' : (0 <= RandomSearch.nreturn o < len scores)%Z)
    by (unfold len; rewrite Hls; lia).
  rewrite top_results_closed by (try exact Hk'; congruence).
  cbn [Py.bind]. f_equal.
  rewrite take_repeat.
  - rewrite map_repeat. f_equal.
    rewrite length_firstn, argsort_length, Hls. lia.
  - intros i Hi. rewrite <- Hls. now apply firstn_in_range in Hi.
Qed.

Lemma search_without_limits_returns_identity_witness :
  RandomSearch.generate_params Demo.halves 2
    (RandomSearch.in_max_translation
       (RandomSearch.generalize_to_3d Demo.image Demo.image
          [1; 1; 1]%Q [1; 1; 1]%Q RandomSearch.defaults))
    (RandomSearch.in_max_rotation
       (RandomSearch.generalize_to_3d Demo.image Demo.image
          [1; 1; 1]%Q [1; 1; 1]%Q RandomSearch.defaults))
    (RandomSearch.in_max_scale
       (RandomSearch.generalize_to_3d Demo.image Demo.image
          [1; 1; 1]%Q [1; 1; 1]%Q RandomSearch.defaults))
    (RandomSearch.in_max_shear
       (RandomSearch.generalize_to_3d Demo.image Demo.image
          [1; 1; 1]%Q [1; 1; 1]%Q RandomSearch.defaults))
  = Ok (repeat RandomSearch.identity_params 3) /\
  RandomSearch.random_affine_search (Demo.env_engine 1) Demo.halves
    Demo.image Demo.image [1; 1; 1]%Q [1; 1; 1]%Q 2 RandomSearch.defaults
  = Ok (repeat (physical_parameters_to_affine_matrix_3d (Demo.env_engine 1)
                  RandomSearch.identity_params [2 # 2; 2 # 2; 2 # 2]%Q)
               (Z.to_nat (RandomSearch.nreturn RandomSearch.defaults))).
Proof.
  apply (search_without_limits_returns_identity (Demo.env_engine 1) Demo.halves
           Demo.image Demo.image [1; 1; 1]%Q [1; 1; 1]%Q 2 RandomSearch.defaults
           [2 # 2; 2 # 2; 2 # 2]%Q);
    try reflexivity.
  - discriminate.
  - simpl. lia.
Defined.

(** A limit of a 2-d search after [expand_param_to_3d]. *)
Lemma expand_planar (L : option RandomSearch.bound) (null : R) :
  L = None \/ (exists p, L = Some (RandomSearch.Scalar p)) \/
  (exists a b, L = Some (RandomSearch.Tuple [a; b])) ->
  RandomSearch.expand_param_to_3d L null = None \/
  exists a b,
    RandomSearch.expand_param_to_3d L null
    = Some (RandomSearch.Tuple [a; b; null]).
Proof.
  intros [->|[[p ->]|(a & b & ->)]]; simpl; eauto.
Qed.

Lemma fill_planar_returns g n c limit (take_log : bool) post st (null : R) :
  limit = None \/ (exists a b, limit = Some (RandomSearch.Tuple [a; b; null])) ->
  exists st',
    RandomSearch.fill g n c limit
      (if take_log then RandomSearch.np_log else RandomSearch.as_given) post st = Ok st'.
Proof.
  intros [->|(a & b & ->)]; unfold RandomSearch.fill; simpl.
  - eauto.
  - destruct take_log; unfold RandomSearch.F; simpl; eauto.
Qed.

(** What one conditional assignment of a 2-d search does to the third
    column of its block. *)
Lemma fill_planar_third g n c limit (take_log : bool) post (p : xreal -> xreal)
  (null : R) (v : xreal) st st' i row' :
  (forall block, post block = map (map p) block) ->
  (c + 3 <= 12)%nat ->
  length (fst st) = S n ->
  (forall r, In r (fst st) -> length r = 12%nat) ->
  RandomSearch.fill g n c limit
    (if take_log then RandomSearch.np_log else RandomSearch.as_given) post st = Ok st' ->
  nth_error (fst st') (S i) = Some row' ->
  limit = None \/ (exists a b, limit = Some (RandomSearch.Tuple [a; b; null])) ->
  (forall r, p (RandomSearch.spread
                  (if take_log then xlog (Fin null) else Fin null) r) = v) ->
  exists row,
    nth_error (fst st) (S i) = Some row /\
    (forall k, (k < c \/ c + 3 <= k)%nat -> nth k row' NaN = nth k row NaN) /\
    (nth (c + 2) row NaN = v -> nth (c + 2) row' NaN = v).
Proof.
  intros Hpost Hc Hlen H12 Hfill Hrow' Hlimit Hp.
  destruct (fill_spec _ _ _ _ _ _ p _ _ _ _ Hpost Hc Hlen H12 Hfill Hrow')
    as (row & Hrow & _ & Hout & Hcase).
  exists row. split; [exact Hrow|]. split; [exact Hout|].
  intro Hv.
  destruct Hcase as [[_ ->]|(mx & b0 & b1 & b2 & k0 & k1 & k2 & Ht & Hb & _ & _ & H2)];
    [exact Hv|].
  destruct Hlimit as [->|(a & b & ->)]; [discriminate|].
  simpl in Ht. injection Ht as <-.
  rewrite H2.
  destruct take_log;
    cbn [RandomSearch.xbroadcast3 RandomSearch.np_log RandomSearch.as_given map]
      in Hb;
    injection Hb as <- <- <-; apply Hp.
Qed.

(** X14: the search on 2-d images leaves the third axis alone.  For a
    2-d fixed image and limits that are unset, numbers, or pairs, the
    table can be built for every stream of draws, and in every row the
    third translation, rotation and shear are 0 and the third scale
    is 1, whatever is drawn. *)
Theorem search_2d_keeps_third_axis_fixed :
  forall (g : nat -> R) (n : nat) (fix_ mov : ndarray) (fs ms : list Q)
         (o : RandomSearch.options),
    ndim fix_ = 2%Z ->
    (forall L, In L [RandomSearch.max_translation o; RandomSearch.max_rotation o;
                     RandomSearch.max_scale o; RandomSearch.max_shear o] ->
               L = None \/ (exists p, L = Some (RandomSearch.Scalar p)) \/
               (exists a b, L = Some (RandomSearch.Tuple [a; b]))) ->
    let I := RandomSearch.generalize_to_3d fix_ mov fs ms o in
    exists params,
      RandomSearch.generate_params g n (RandomSearch.in_max_translation I)
        (RandomSearch.in_max_rotation I) (RandomSearch.in_max_scale I)
        (RandomSearch.in_max_shear I) = Ok params /\
      forall row, In row params ->
        nth 2 row NaN = Fin 0 /\ nth 5 row NaN = Fin 0 /\
        nth 8 row NaN = Fin 1 /\ nth 11 row NaN = Fin 0.
Proof.
  intros g n fix_ mov fs ms o Hnd Hlim I. subst I.
  unfold RandomSearch.generalize_to_3d. rewrite Hnd. cbn [Z.eqb Pos.eqb].
  cbn [RandomSearch.in_max_translation RandomSearch.in_max_rotation
       RandomSearch.in_max_scale RandomSearch.in_max_shear].
  pose proof (expand_planar _ 0 (Hlim _ (or_introl eq_refl))) as Pt.
  pose proof (expand_planar _ 0 (Hlim _ (or_intror (or_introl eq_refl)))) as Pr.
  pose proof (expand_planar _ 1
                (Hlim _ (or_intror (or_intror (or_introl eq_refl))))) as Ps.
  pose proof (expand_planar _ 0
                (Hlim _ (or_intror (or_intror (or_intror (or_introl eq_refl))))))
    as Ph.
  set (mt := RandomSearch.expand_param_to_3d (RandomSearch.max_translation o) 0) in *.
  set (mr := RandomSearch.expand_param_to_3d (RandomSearch.max_rotation o) 0) in *.
  set (msc := RandomSearch.expand_param_to_3d (RandomSearch.max_scale o) 1) in *.
  set (msh := RandomSearch.expand_param_to_3d (RandomSearch.max_shear o) 0) in *.
  clearbody mt mr msc msh.
  unfold RandomSearch.generate_params.
  set (st0 := (repeat RandomSearch.identity_params (S n), 0%nat)).
  destruct (fill_planar_returns g n 0 mt false (fun b => b) st0 0 Pt)
    as [st1 H1].
  destruct (fill_planar_returns g n 3 mr false (fun b => b) st1 0 Pr)
    as [st2 H2].
  destruct (fill_planar_returns g n 6 msc true RandomSearch.np_e_pow st2 1 Ps)
    as [st3 H3].
  destruct (fill_planar_returns g n 9 msh false (fun b => b) st3 0 Ph)
    as [st4 H4].
  cbv iota in H1, H2, H3, H4.
  rewrite H1. cbn [Py.bind]. rewrite H2. cbn [Py.bind].
  rewrite H3. cbn [Py.bind]. rewrite H4. cbn [Py.bind].
  exists (fst st4). split; [reflexivity|].
  intros row Hin.
  apply In_nth_error in Hin. destruct Hin as [[|i] Hrow].
  { (* row 0 *)
    rewrite (fill_head _ _ _ _ _ _ _ _ H4), (fill_head _ _ _ _ _ _ _ _ H3),
      (fill_head _ _ _ _ _ _ _ _ H2), (fill_head _ _ _ _ _ _ _ _ H1) in Hrow.
    simpl in Hrow. injection Hrow as <-. now repeat split. }
  assert (L0 : length (fst st0) = S n) by (simpl; now rewrite repeat_length).
  assert (T0 : forall r, In r (fst st0) -> length r = 12%nat).
  { intros r Hr. apply repeat_spec in Hr. now subst. }
  assert (Pe : forall block, RandomSearch.np_e_pow block = map (map xexp) block)
    by reflexivity.
  assert (K0 : (0 + 3 <= 12)%nat) by lia.
  assert (K3 : (3 + 3 <= 12)%nat) by lia.
  assert (K6 : (6 + 3 <= 12)%nat) by lia.
  assert (K9 : (9 + 3 <= 12)%nat) by lia.
  assert (Hid' : forall b : list (list xreal), length b = length b)
    by reflexivity.
  assert (He' : forall b, length (RandomSearch.np_e_pow b) = length b)
    by (intro b; apply length_map).
  pose proof (fill_length _ _ _ _ _ _ _ _ Hid' L0 H1) as L1.
  pose proof (fill_length _ _ _ _ _ _ _ _ Hid' L1 H2) as L2.
  pose proof (fill_length _ _ _ _ _ _ _ _ He' L2 H3) as L3.
  pose proof (fill_rows_12 _ _ _ _ _ _ _ _ _ post_identity K0 L0 T0 H1) as T1.
  pose proof (fill_rows_12 _ _ _ _ _ _ _ _ _ post_identity K3 L1 T1 H2) as T2.
  pose proof (fill_rows_12 _ _ _ _ _ _ _ _ _ Pe K6 L2 T2 H3) as T3.
  assert (Z0 : forall r : R,
             (fun x : xreal => x) (RandomSearch.spread (Fin 0) r) = Fin 0).
  { intro r. cbv beta. rewrite spread_finite. f_equal. ring. }
  assert (Z1 : forall r : R,
             xexp (RandomSearch.spread (xlog (Fin 1)) r) = Fin 1).
  { intro r. unfold xlog. destruct (Rlt_dec 0 1) as [_|N]; [|lra].
    rewrite spread_finite. cbn [xexp]. f_equal. rewrite ln_1.
    replace (2 * (0 * r) - 0) with 0 by ring. apply exp_0. }
  destruct (fill_planar_third g n 9 msh false _ (fun x => x) 0 (Fin 0) st3 st4 i row
              post_identity K9 L3 T3 H4 Hrow Ph Z0)
    as (row3 & Hrow3 & O4 & V4).
  destruct (fill_planar_third g n 6 msc true _ xexp 1 (Fin 1) st2 st3 i row3
              Pe K6 L2 T2 H3 Hrow3 Ps Z1)
    as (row2 & Hrow2 & O3 & V3).
  destruct (fill_planar_third g n 3 mr false _ (fun x => x) 0 (Fin 0) st1 st2 i row2
              post_identity K3 L1 T1 H2 Hrow2 Pr Z0)
    as (row1 & Hrow1 & O2 & V2).
  destruct (fill_planar_third g n 0 mt false _ (fun x => x) 0 (Fin 0) st0 st1 i row1
              post_identity K0 L0 T0 H1 Hrow1 Pt Z0)
    as (row0 & Hrow0 & O1 & V1).
  assert (R0 : row0 = RandomSearch.identity_params).
  { apply nth_error_In in Hrow0. now apply repeat_spec in Hrow0. }
  subst row0.
  split; [|split; [|split]].
  - rewrite (O4 2%nat), (O3 2%nat), (O2 2%nat) by lia.
    apply (V1 eq_refl).
  - rewrite (O4 5%nat), (O3 5%nat) by lia.
    apply V2. rewrite (O1 (3 + 2)%nat) by lia. reflexivity.
  - rewrite (O4 8%nat) by lia.
    apply V3. rewrite (O2 (6 + 2)%nat), (O1 (6 + 2)%nat) by lia. reflexivity.
  - apply V4.
    rewrite (O3 (9 + 2)%nat), (O2 (9 + 2)%nat), (O1 (9 + 2)%nat) by lia.
    reflexivity.
Qed.

Lemma search_2d_keeps_third_axis_fixed_witness :
  exists params,
    RandomSearch.generate_params Demo.draws 2
      (RandomSearch.in_max_translation
         (RandomSearch.generalize_to_3d Demo.image2d Demo.image2d
            [1; 1]%Q [1; 1]%Q Demo.planar_options))
      (RandomSearch.in_max_rotation
         (RandomSearch.generalize_to_3d Demo.image2d Demo.image2d
            [1; 1]%Q [1; 1]%Q Demo.planar_options))
      (RandomSearch.in_max_scale
         (RandomSearch.generalize_to_3d Demo.image2d Demo.image2d
            [1; 1]%Q [1; 1]%Q Demo.planar_options))
      (RandomSearch.in_max_shear
         (RandomSearch.generalize_to_3d Demo.image2d Demo.image2d
            [1; 1]%Q [1; 1]%Q Demo.planar_options))
    = Ok params /\
    forall row, In row params ->
      nth 2 row NaN = Fin 0 /\ nth 5 row NaN = Fin 0 /\
      nth 8 row NaN = Fin 1 /\ nth 11 row NaN = Fin 0.
Proof.
  apply (search_2d_keeps_third_axis_fixed Demo.draws 2 Demo.image2d Demo.image2d
           [1; 1]%Q [1; 1]%Q Demo.planar_options).
  - reflexivity.
  - intros L [<-|[<-|[<-|[<-|[]]]]]; simpl; eauto.
Defined.

Lemma fill_raises_value_error g n c limit pre post st e :
  RandomSearch.fill g n c limit pre post st = Raise e -> e = ValueError.
Proof.
  unfold RandomSearch.fill, RandomSearch.F.
  destruct (RandomSearch.truthy limit) as [mx|]; [|discriminate].
  destruct (RandomSearch.xbroadcast3 (pre mx)) as [b|e'] eqn:Hb; cbn [Py.bind];
    [discriminate|].
  intros [= <-].
  destruct (pre mx) as [b|[|b0 [|b1 [|b2 [|b3 t]]]]]; simpl in Hb; congruence.
Qed.

Lemma fill_wrong_length g n c (t : list R) (take_log : bool) post st :
  length t <> 0%nat -> length t <> 1%nat -> length t <> 3%nat ->
  RandomSearch.fill g n c (Some (RandomSearch.Tuple t))
    (if take_log then RandomSearch.np_log else RandomSearch.as_given) post st
  = Raise ValueError.
Proof.
  intros H0 H1 H3. unfold RandomSearch.fill, RandomSearch.F.
  destruct t as [|b0 [|b1 [|b2 [|b3 t]]]]; simpl in *; try congruence;
    destruct take_log; reflexivity.
Qed.

(** X15: a per-axis limit needs one entry or three.  When a limit, after
    the generalisation of a 2-d input, is a tuple with two entries or
    with more than three, the multiplication with the block of draws
    cannot be broadcast and the search raises [ValueError] before
    anything is scored. *)
Theorem search_rejects_limit_of_wrong_length :
  forall (E : Env) (g : nat -> R) (fix_ mov : ndarray) (fs ms : list Q)
         (n : nat) (o : RandomSearch.options) (t : list R),
    let I := RandomSearch.generalize_to_3d fix_ mov fs ms o in
    In (Some (RandomSearch.Tuple t))
       [RandomSearch.in_max_translation I; RandomSearch.in_max_rotation I;
        RandomSearch.in_max_scale I; RandomSearch.in_max_shear I] ->
    length t <> 0%nat -> length t <> 1%nat -> length t <> 3%nat ->
    RandomSearch.random_affine_search E g fix_ mov fs ms n o
    = Raise ValueError.
Proof.
  intros E g fix_ mov fs ms n o t I Hin H0 H1 H3.
  unfold RandomSearch.random_affine_search. fold I.
  assert (Hgen : RandomSearch.generate_params g n
                   (RandomSearch.in_max_translation I)
                   (RandomSearch.in_max_rotation I)
                   (RandomSearch.in_max_scale I)
                   (RandomSearch.in_max_shear I) = Raise ValueError).
  { unfold RandomSearch.generate_params.
    pose proof (fun c post st =>
                  fill_wrong_length g n c t false post st H0 H1 H3) as Bad.
    pose proof (fun c post st =>
                  fill_wrong_length g n c t true post st H0 H1 H3) as BadLog.
    cbv iota in Bad, BadLog.
    destruct (RandomSearch.fill g n 0 _ _ _ _) as [st1|e1] eqn:F1;
      cbn [Py.bind];
      [|now rewrite (fill_raises_value_error _ _ _ _ _ _ _ _ F1)].
    destruct (RandomSearch.fill g n 3 _ _ _ _) as [st2|e2] eqn:F2;
      cbn [Py.bind];
      [|now rewrite (fill_raises_value_error _ _ _ _ _ _ _ _ F2)].
    destruct (RandomSearch.fill g n 6 _ _ _ _) as [st3|e3] eqn:F3;
      cbn [Py.bind];
      [|now rewrite (fill_raises_value_error _ _ _ _ _ _ _ _ F3)].
    destruct (RandomSearch.fill g n 9 _ _ _ _) as [st4|e4] eqn:F4;
      cbn [Py.bind];
      [|now rewrite (fill_raises_value_error _ _ _ _ _ _ _ _ F4)].
    exfalso.
    destruct Hin as [Hin|[Hin|[Hin|[Hin|[]]]]]; rewrite Hin in *.
    - rewrite Bad in F1. discriminate.
    - rewrite Bad in F2. discriminate.
    - rewrite BadLog in F3. discriminate.
    - rewrite Bad in F4. discriminate. }
  now rewrite Hgen.
Qed.

Lemma search_rejects_limit_of_wrong_length_witness :
  RandomSearch.random_affine_search (Demo.env_engine 1) Demo.draws
    Demo.image Demo.image [1; 1; 1]%Q [1; 1; 1]%Q 2 Demo.pair_limit_options
  = Raise ValueError.
Proof.
  apply (search_rejects_limit_of_wrong_length (Demo.env_engine 1) Demo.draws
           Demo.image Demo.image [1; 1; 1]%Q [1; 1; 1]%Q 2
           Demo.pair_limit_options [1; 2]).
  - right. left. reflexivity.
  - simpl. lia.
  - simpl. lia.
  - simpl. lia.
Defined.

End Table.

(** ** affine_align and deformable_align: arguments that are not checked *)

(** X16: a string other than ["CENTER"] as [initial_condition] is not
    rejected; [affine_align] then behaves in every respect as it does
    without an initial condition. *)
Theorem affine_ignores_unknown_string :
  forall (E : Env) (fix_ mov : ndarray) (fs ms : list Q) (s : string)
         (rigid : bool) (alignment_spacing : option Q)
         (fix_mask mov_mask : option ndarray)
         (fix_origin mov_origin : option (list Q))
         (static_transform_list : list ndarray) (default : option ndarray)
         (kwargs : Kw.dict),
    s <> "CENTER"%string ->
    Affine.affine_align E fix_ mov fs ms
      (Affine.mk_options rigid (Affine.IC_Str s) alignment_spacing
         fix_mask mov_mask fix_origin mov_origin static_transform_list
         default kwargs)
    = Affine.affine_align E fix_ mov fs ms
        (Affine.mk_options rigid Affine.IC_None alignment_spacing
           fix_mask mov_mask fix_origin mov_origin static_transform_list
           default kwargs).
Proof.
  intros E fix_ mov fs ms s rigid a fm mm fo mo stl d kw Hs.
  apply String.eqb_neq in Hs.
  unfold Affine.affine_align, Affine.setup, Affine.resolve_default,
    Affine.initial_transform, Affine.seed_matrix.
  cbn [Affine.initial_condition Affine.rigid Affine.default
       Affine.static_transform_list Affine.fix_origin Affine.mov_origin
       Affine.fix_mask Affine.mov_mask Affine.alignment_spacing Affine.kwargs].
  now rewrite Hs.
Qed.

Lemma affine_ignores_unknown_string_witness :
  Affine.affine_align (Demo.env_engine 1) Demo.image Demo.image
    [1; 1; 1]%Q [1; 1; 1]%Q
    (Affine.mk_options true (Affine.IC_Str "center") None None None None None
       [] None [])
  = Affine.affine_align (Demo.env_engine 1) Demo.image Demo.image
      [1; 1; 1]%Q [1; 1; 1]%Q
      (Affine.mk_options true Affine.IC_None None None None None None
         [] None []).
Proof.
  apply (affine_ignores_unknown_string (Demo.env_engine 1) Demo.image Demo.image
           [1; 1; 1]%Q [1; 1; 1]%Q "center" true None None None None None
           [] None []).
  discriminate.
Defined.

(** A float that equals zero is one of the two zeros. *)
Lemma float_zero (z : float) :
  (z =? 0)%float = true -> exists s, Prim2SF z = S754_zero s.
Proof.
  rewrite FloatAxioms.eqb_spec. unfold SFeqb.
  destruct (Prim2SF z) as [s|s| |s m e]; cbn.
  - now exists s.
  - destruct s; discriminate.
  - discriminate.
  - destruct s; discriminate.
Qed.

(** [int] of a quotient by zero, as numpy computes it: NaN for a
    numerator that is zero or NaN, an infinity for any other. *)
Lemma int_of_quotient_by_zero (a z : float) :
  (z =? 0)%float = true ->
  F64.int (a / z)
  = Raise match Prim2SF a with
          | S754_zero _ | S754_nan => ValueError
          | _ => OverflowError
          end.
Proof.
  intro Hz. destruct (float_zero z Hz) as [s Hs].
  unfold F64.int. rewrite FloatAxioms.div_spec, Hs. unfold SF64div, SFdiv.
  destruct (Prim2SF a); reflexivity.
Qed.

(** X17: [deformable_align] does not guard its control-point arguments.
    With an empty [control_point_levels] it raises [IndexError].  With a
    coarsest control-point spacing of zero
    ([control_point_spacing * control_point_levels[0] == 0]) and a fixed
    image that has an axis, the division of line 1044 fails on the first
    axis: for a [control_point_spacing] that is a float of Python it
    raises [ZeroDivisionError]; for one that is a [numpy.float64] numpy
    divides, and [int] raises [OverflowError] on the infinity, or
    [ValueError] on the NaN that a numerator of zero gives.  All this is
    ahead of the guarded block, so no default is returned. *)
Theorem deformable_control_points_unchecked :
  forall (E : Env) (fix_ mov : ndarray) (fs ms : list Q) (cps : F64.number)
         (o : Deformable.options),
    let S := images_to_sitk E
               (apply_alignment_spacing E fix_ mov
                  (Deformable.fix_mask o) (Deformable.mov_mask o) fs ms
                  (Deformable.alignment_spacing o))
               (Deformable.fix_origin o) (Deformable.mov_origin o) in
    Deformable.deformable_align E fix_ mov fs ms cps [] o = Raise IndexError /\
    (forall (l : Z) (ls : list Z) (x : Z) (size : list Z)
            (y : float) (spacing : list float),
        GetSize E (i_fix S) = x :: size ->
        GetSpacing E (i_fix S) = y :: spacing ->
        is_infinity (F64.of_Z l) = false ->
        is_infinity (F64.of_Z x) = false ->
        (F64.value cps * F64.of_Z l =? 0)%float = true ->
        Deformable.deformable_align E fix_ mov fs ms cps (l :: ls) o
        = Raise match cps with
                | F64.PyFloat _ => ZeroDivisionError
                | F64.NpFloat64 _ =>
                    match Prim2SF (F64.of_Z x * y) with
                    | S754_zero _ | S754_nan => ValueError
                    | _ => OverflowError
                    end
                end).
Proof.
  intros E fix_ mov fs ms cps o S. split; [reflexivity|].
  intros l ls x size y spacing Hsize Hspacing Hl Hx Hz.
  unfold Deformable.deformable_align, Deformable.setup.
  unfold Deformable.coarsest_spacing, F64.of_int. rewrite Hl.
  cbn [Py.bind]. fold S. rewrite Hsize, Hspacing.
  unfold Deformable.initial_cp_grid. cbn [combine mapM].
  unfold Deformable.cells at 1. unfold Deformable.quotient, F64.of_int.
  cbn [fst snd]. rewrite Hx. cbn [Py.bind].
  destruct cps as [c|c]; cbn [F64.value] in Hz.
  - now rewrite Hz.
  - cbn [Py.bind]. now rewrite (int_of_quotient_by_zero _ _ Hz).
Qed.

(** Levels that start with 0, and no levels, on the 2 x 2 x 2 image. *)
Example deformable_control_points_run :
  Deformable.deformable_align (Demo.env_engine 1) Demo.image Demo.image
    [1; 1; 1]%Q [1; 1; 1]%Q (F64.PyFloat 4) [0; 1] Deformable.defaults
  = Raise ZeroDivisionError /\
  Deformable.deformable_align (Demo.env_engine 1) Demo.image Demo.image
    [1; 1; 1]%Q [1; 1; 1]%Q (F64.NpFloat64 4) [0; 1] Deformable.defaults
  = Raise OverflowError /\
  Deformable.deformable_align (Demo.env_engine 1) Demo.image Demo.image
    [1; 1; 1]%Q [1; 1; 1]%Q (F64.PyFloat 4) [] Deformable.defaults
  = Raise IndexError.
Proof. repeat split. Qed.

Lemma set_masks_fields (E : Env) (m : irm E) (a b : option (sitk_image E)) :
  irm_fixed_mask m = None -> irm_moving_mask m = None ->
  irm_fixed_mask (set_masks m a b) = a /\
  irm_moving_mask (set_masks m a b) = b /\
  irm_moving_initial (set_masks m a b) = irm_moving_initial m /\
  irm_transform (set_masks m a b) = irm_transform m /\
  irm_scale_factors (set_masks m a b) = irm_scale_factors m.
Proof. intros Hf Hm. destruct a, b; cbn; auto. Qed.

Lemma sitk_masks_iff (E : Env) (fix_ mov : ndarray)
  (fix_mask mov_mask : option ndarray) (fs ms : list Q) (a : option Q)
  (fo mo : option (list Q)) :
  let S := images_to_sitk E
             (apply_alignment_spacing E fix_ mov fix_mask mov_mask fs ms a)
             fo mo in
  (i_fix_mask S = None <-> fix_mask = None) /\
  (i_mov_mask S = None <-> mov_mask = None).
Proof.
  cbv zeta. unfold images_to_sitk, apply_alignment_spacing.
  destruct (truthy_float a); destruct fix_mask, mov_mask; cbn;
    split; split; intros; congruence.
Qed.

Lemma nonempty_nil {A : Type} (l : list A) : nonempty l = false <-> l = [].
Proof. destruct l; simpl; split; congruence. Qed.

(** X28: what reaches the engine of the two refiners.  After the set-up
    of [affine_align] and of [deformable_align] the engine holds a fixed
    mask exactly when [fix_mask] is given, a moving mask exactly when
    [mov_mask] is given, and a moving initial transform exactly when
    [static_transform_list] is not empty; the transform to optimize is
    attached, for [deformable_align] with the control-point levels in
    reverse order as scale factors. *)
Theorem engine_configuration_follows_arguments :
  forall (E : Env) (fix_ mov : ndarray) (fs ms : list Q),
    (forall (o : Affine.options),
        let mS := Affine.setup E fix_ mov fs ms o in
        (irm_fixed_mask (fst mS) = None <-> Affine.fix_mask o = None) /\
        (irm_moving_mask (fst mS) = None <-> Affine.mov_mask o = None) /\
        (irm_moving_initial (fst mS) = None
         <-> Affine.static_transform_list o = []) /\
        irm_transform (fst mS) = Some (Affine.initial_transform E (snd mS) o))
    /\
    (forall (cps : F64.number) (cpl : list Z) (o : Deformable.options)
            (m : irm E) (S : sitk_images E) (tr : sitk_transform E),
        Deformable.setup E fix_ mov fs ms cps cpl o = Ok (m, S, tr) ->
        (irm_fixed_mask m = None <-> Deformable.fix_mask o = None) /\
        (irm_moving_mask m = None <-> Deformable.mov_mask o = None) /\
        (irm_moving_initial m = None
         <-> Deformable.static_transform_list o = []) /\
        irm_transform m = Some tr /\
        irm_scale_factors m = Some (rev cpl)).
Proof.
  intros E fix_ mov fs ms. split.
  - intros o mS. subst mS. unfold Affine.setup. cbn [fst snd].
    match goal with
    | |- context [set_masks ?m ?a ?b] =>
        destruct (set_masks_fields E m a b) as (Hf & Hm & Hi & Ht & _)
    end.
    { now destruct (nonempty (Affine.static_transform_list o)). }
    { now destruct (nonempty (Affine.static_transform_list o)). }
    rewrite Hf, Hm, Hi, Ht.
    destruct (sitk_masks_iff E fix_ mov (Affine.fix_mask o) (Affine.mov_mask o)
                fs ms (Affine.alignment_spacing o)
                (Affine.fix_origin o) (Affine.mov_origin o)) as [H1 H2].
    split; [exact H1|]. split; [exact H2|]. split; [|reflexivity].
    rewrite <- nonempty_nil.
    destruct (nonempty (Affine.static_transform_list o)); cbn;
      split; congruence.
  - intros cps cpl o m S tr. unfold Deformable.setup.
    destruct (Deformable.coarsest_spacing cps cpl) as [z|e]; cbn [Py.bind];
      [|discriminate].
    destruct (Deformable.initial_cp_grid _ _ z) as [grid|e]; cbn [Py.bind];
      [|discriminate].
    intros [= <- <- <-].
    match goal with
    | |- context [set_masks ?m ?a ?b] =>
        destruct (set_masks_fields E m a b) as (Hf & Hm & Hi & Ht & Hsf)
    end.
    { now destruct (nonempty (Deformable.static_transform_list o)). }
    { now destruct (nonempty (Deformable.static_transform_list o)). }
    rewrite Hf, Hm, Hi, Ht, Hsf.
    destruct (sitk_masks_iff E fix_ mov (Deformable.fix_mask o)
                (Deformable.mov_mask o) fs ms (Deformable.alignment_spacing o)
                (Deformable.fix_origin o) (Deformable.mov_origin o)) as [H1 H2].
    split; [exact H1|]. split; [exact H2|].
    rewrite <- nonempty_nil.
    destruct (nonempty (Deformable.static_transform_list o)); cbn;
      repeat split; congruence.
Qed.

(** ** alignment_pipeline: the loop over the steps *)

Section Steps.

Variable St : Pipeline.stages.
Variables fix_ mov : ndarray.
Variables fs ms : list Q.
Variables fm mm : option ndarray.
Variables fo mo : option (list Q).

(** The results collected so far only matter as static transforms. *)
Lemma loop_acc (kwargs : Kw.dict) (steps : list (string * Kw.dict)) :
  forall (stl acc : list ndarray),
    Pipeline.loop St fix_ mov fs ms fm mm fo mo kwargs stl steps acc
    = (r <- Pipeline.loop St fix_ mov fs ms fm mm fo mo kwargs
              (stl ++ acc) steps [];;
       Ok (acc ++ r)).
Proof.
  induction steps as [|[a args] steps IH]; intros stl acc; cbn [Pipeline.loop].
  - cbn [Py.bind]. now rewrite app_nil_r.
  - rewrite app_nil_r.
    destruct (Pipeline.align _ _ _ _ _ _ _ _ _ a _) as [t|e]; cbn [Py.bind];
      [|reflexivity].
    rewrite (IH stl (acc ++ [t])), (IH (stl ++ acc) ([] ++ [t])).
    cbn [app]. rewrite <- app_assoc.
    destruct (Pipeline.loop _ _ _ _ _ _ _ _ _ kwargs (stl ++ acc ++ [t])
                steps []) as [r|e]; cbn [Py.bind]; [|reflexivity].
    now rewrite <- app_assoc.
Qed.

Lemma loop_app (kwargs : Kw.dict) (stl : list ndarray)
  (s1 s2 : list (string * Kw.dict)) :
  forall acc,
    Pipeline.loop St fix_ mov fs ms fm mm fo mo kwargs stl (s1 ++ s2) acc
    = (acc1 <- Pipeline.loop St fix_ mov fs ms fm mm fo mo kwargs stl s1 acc;;
       Pipeline.loop St fix_ mov fs ms fm mm fo mo kwargs stl s2 acc1).
Proof.
  induction s1 as [|[a args] s1 IH]; intro acc; cbn [app Pipeline.loop];
    [reflexivity|].
  destruct (Pipeline.align _ _ _ _ _ _ _ _ _ a _) as [t|e]; cbn [Py.bind];
    [apply IH | reflexivity].
Qed.

Lemma loop_split (kwargs : Kw.dict) (stl : list ndarray)
  (s1 s2 : list (string * Kw.dict)) :
  Pipeline.loop St fix_ mov fs ms fm mm fo mo kwargs stl (s1 ++ s2) []
  = (r1 <- Pipeline.loop St fix_ mov fs ms fm mm fo mo kwargs stl s1 [];;
     r2 <- Pipeline.loop St fix_ mov fs ms fm mm fo mo kwargs (stl ++ r1) s2 [];;
     Ok (r1 ++ r2)).
Proof.
  rewrite loop_app.
  destruct (Pipeline.loop St fix_ mov fs ms fm mm fo mo kwargs stl s1 [])
    as [r1|e]; cbn [Py.bind]; [|reflexivity].
  apply loop_acc.
Qed.

Lemma loop_length (kwargs : Kw.dict) (stl : list ndarray)
  (steps : list (string * Kw.dict)) :
  forall acc l,
    Pipeline.loop St fix_ mov fs ms fm mm fo mo kwargs stl steps acc = Ok l ->
    length l = (length acc + length steps)%nat.
Proof.
  induction steps as [|[a args] steps IH]; intros acc l; cbn [Pipeline.loop].
  - intros [= <-]. simpl. lia.
  - destruct (Pipeline.align _ _ _ _ _ _ _ _ _ a _) as [t|e]; cbn [Py.bind];
      [|discriminate].
    intro H. rewrite (IH _ _ H), length_app. simpl. lia.
Qed.

(** A step of a kind that the pipeline does not know. *)
Lemma align_unknown (alignment : string) (c : Kw.dict) :
  alignment <> "ransac"%string -> alignment <> "random"%string ->
  alignment <> "rigid"%string -> alignment <> "affine"%string ->
  alignment <> "deform"%string ->
  Pipeline.align St fix_ mov fs ms fm mm fo mo alignment c = Raise KeyError.
Proof.
  intros H1 H2 H3 H4 H5. apply String.eqb_neq in H1, H2, H3, H4, H5.
  unfold Pipeline.align. now rewrite H1, H2, H3, H4, H5.
Qed.

Lemma in_keys_set (d : Kw.dict) (k k' : string) (v : Kw.pyobj) :
  In k' (Kw.keys (Kw.set d k v)) <-> k' = k \/ In k' (Kw.keys d).
Proof.
  unfold Kw.keys. induction d as [|[k0 v0] d IH]; simpl.
  - intuition.
  - destruct (String.eqb k k0) eqn:Hk; simpl.
    + apply String.eqb_eq in Hk. subst k0. intuition.
    + rewrite IH. intuition.
Qed.

Lemma in_keys_merge (a b : Kw.dict) (k : string) :
  In k (Kw.keys (Kw.merge a b)) <-> In k (Kw.keys a) \/ In k (Kw.keys b).
Proof.
  unfold Kw.merge. revert a.
  induction b as [|[k0 v0] b IH]; intro a; simpl.
  - intuition.
  - rewrite IH, in_keys_set. simpl. intuition.
Qed.

Lemma has_key_in (d : Kw.dict) (k : string) :
  Pipeline.has_key d k = true <-> In k (Kw.keys d).
Proof.
  rewrite has_key_get. split.
  - intro H. destruct (in_dec string_dec k (Kw.keys d)) as [Hin|Hnin];
      [exact Hin|]. apply get_none in Hnin. congruence.
  - intros Hin Hg. apply get_none in Hg. contradiction.
Qed.

Lemma nodup_keys_set (d : Kw.dict) (k : string) (v : Kw.pyobj) :
  NoDup (Kw.keys d) -> NoDup (Kw.keys (Kw.set d k v)).
Proof.
  induction d as [|[k0 v0] d IH]; simpl; intro H.
  - repeat constructor. intros [].
  - inversion H as [|? ? Hnin Hnd]. subst.
    destruct (String.eqb k k0) eqn:Hk; simpl.
    + apply String.eqb_eq in Hk. subst k0. now constructor.
    + apply String.eqb_neq in Hk. constructor; [|now apply IH].
      intro Hin. apply in_keys_set in Hin. destruct Hin as [->|Hin];
        [congruence | contradiction].
Qed.

Lemma nodup_keys_merge (a b : Kw.dict) :
  NoDup (Kw.keys a) -> NoDup (Kw.keys (Kw.merge a b)).
Proof.
  unfold Kw.merge. revert a.
  induction b as [|[k0 v0] b IH]; intros a H; simpl; [exact H|].
  apply IH. now apply nodup_keys_set.
Qed.

End Steps.

(** X18: the pipeline can be cut in two.  Running the steps [s1 ++ s2]
    gives the results of [s1] followed by the results of running [s2]
    with the results of [s1] appended to [static_transform_list]; an
    exception of the first part, or else of the second, is the exception
    of the whole. *)
Theorem pipeline_steps_compose :
  forall (E : Env) (St : Pipeline.stages) (fix_ mov : ndarray)
         (fs ms : list Q) (s1 s2 : list (string * Kw.dict))
         (fix_mask mov_mask : option ndarray)
         (fix_origin mov_origin : option (list Q))
         (stl : list ndarray) (kwargs : Kw.dict),
    Pipeline.alignment_pipeline E St fix_ mov fs ms (s1 ++ s2)
      fix_mask mov_mask fix_origin mov_origin stl "independent" kwargs
    = match Pipeline.alignment_pipeline E St fix_ mov fs ms s1
              fix_mask mov_mask fix_origin mov_origin stl "independent" kwargs
      with
      | Ok (Pipeline.Transforms r1) =>
          match Pipeline.alignment_pipeline E St fix_ mov fs ms s2
                  fix_mask mov_mask fix_origin mov_origin (stl ++ r1)
                  "independent" kwargs
          with
          | Ok (Pipeline.Transforms r2) => Ok (Pipeline.Transforms (r1 ++ r2))
          | other => other
          end
      | other => other
      end.
Proof.
  intros. unfold Pipeline.alignment_pipeline. cbn [String.eqb Ascii.eqb Bool.eqb].
  rewrite loop_split.
  destruct (Pipeline.loop St fix_ mov fs ms fix_mask mov_mask fix_origin
              mov_origin kwargs stl s1 []) as [r1|e]; cbn [Py.bind];
    [|reflexivity].
  destruct (Pipeline.loop St fix_ mov fs ms fix_mask mov_mask fix_origin
              mov_origin kwargs (stl ++ r1) s2 []) as [r2|e]; cbn [Py.bind];
    reflexivity.
Qed.

(** X19: with [return_format = 'independent'] one transform per step
    comes back. *)
Theorem pipeline_independent_one_per_step :
  forall (E : Env) (St : Pipeline.stages) (fix_ mov : ndarray)
         (fs ms : list Q) (steps : list (string * Kw.dict))
         (fix_mask mov_mask : option ndarray)
         (fix_origin mov_origin : option (list Q))
         (stl : list ndarray) (kwargs : Kw.dict) (out : Pipeline.output),
    Pipeline.alignment_pipeline E St fix_ mov fs ms steps
      fix_mask mov_mask fix_origin mov_origin stl "independent" kwargs
    = Ok out ->
    exists l, out = Pipeline.Transforms l /\ length l = length steps.
Proof.
  intros E St fix_ mov fs ms steps fm mm fo mo stl kwargs out.
  unfold Pipeline.alignment_pipeline. cbn [String.eqb Ascii.eqb Bool.eqb].
  destruct (Pipeline.loop _ _ _ _ _ _ _ _ _ kwargs stl steps []) as [l|e] eqn:Hl;
    cbn [Py.bind]; [|discriminate].
  intros [= <-]. exists l. split; [reflexivity|].
  now rewrite (loop_length _ _ _ _ _ _ _ _ _ _ _ _ _ _ Hl).
Qed.

Lemma pipeline_independent_one_per_step_witness :
  exists l,
    Pipeline.Transforms [eye 4; eye 4] = Pipeline.Transforms l /\
    length l = length [("random", [] : Kw.dict); ("affine", [])]%string.
Proof.
  apply (pipeline_independent_one_per_step (Demo.env_engine 1) Demo.stages
           Demo.image Demo.image [1; 1; 1]%Q [1; 1; 1]%Q
           [("random", []); ("affine", [])]%string
           None None None None [] [] (Pipeline.Transforms [eye 4; eye 4])).
  reflexivity.
Defined.

(** X20: a step of an unknown kind.  When the steps before it run
    through, a step whose kind is none of ['ransac'], ['random'],
    ['rigid'], ['affine'] and ['deform'] makes the pipeline raise
    [KeyError], whatever the return format; the results of the earlier
    steps are lost and no later step runs. *)
Theorem pipeline_unknown_step_raises :
  forall (E : Env) (St : Pipeline.stages) (fix_ mov : ndarray)
         (fs ms : list Q) (s1 s2 : list (string * Kw.dict))
         (kind : string) (arguments : Kw.dict)
         (fix_mask mov_mask : option ndarray)
         (fix_origin mov_origin : option (list Q))
         (stl : list ndarray) (return_format : string) (kwargs : Kw.dict)
         (r1 : list ndarray),
    Pipeline.loop St fix_ mov fs ms fix_mask mov_mask fix_origin mov_origin
      kwargs stl s1 [] = Ok r1 ->
    ~ In kind ["ransac"; "random"; "rigid"; "affine"; "deform"]%string ->
    Pipeline.alignment_pipeline E St fix_ mov fs ms
      (s1 ++ (kind, arguments) :: s2)
      fix_mask mov_mask fix_origin mov_origin stl return_format kwargs
    = Raise KeyError.
Proof.
  intros E St fix_ mov fs ms s1 s2 kind arguments fm mm fo mo stl fmt kwargs r1
         H1 Hkind.
  unfold Pipeline.alignment_pipeline.
  rewrite loop_app, H1. cbn [Py.bind Pipeline.loop].
  rewrite align_unknown; [reflexivity | | | | | ];
    intro Heq; apply Hkind; subst kind; simpl; tauto.
Qed.

Lemma pipeline_unknown_step_raises_witness :
  Pipeline.alignment_pipeline (Demo.env_engine 1) Demo.stages
    Demo.image Demo.image [1; 1; 1]%Q [1; 1; 1]%Q
    ([("affine"%string, [])] ++ ("Affine"%string, []) :: [("deform"%string, [])])
    None None None None [] "flatten" []
  = Raise KeyError.
Proof.
  apply (pipeline_unknown_step_raises (Demo.env_engine 1) Demo.stages
           Demo.image Demo.image [1; 1; 1]%Q [1; 1; 1]%Q
           [("affine", [])]%string [("deform", [])]%string "Affine" []
           None None None None [] "flatten" [] [eye 4]).
  - reflexivity.
  - simpl. intuition discriminate.
Defined.

(** X21: a ['rigid'] step cannot be given a [rigid] argument.  When the
    global keyword arguments or the step's own dictionary hold the key
    [rigid], the call of [affine_align] with [rigid=True] next to them
    is a [TypeError], whatever value the key has. *)
Theorem pipeline_rigid_key_conflict :
  forall (E : Env) (St : Pipeline.stages) (fix_ mov : ndarray)
         (fs ms : list Q) (s1 s2 : list (string * Kw.dict))
         (arguments : Kw.dict)
         (fix_mask mov_mask : option ndarray)
         (fix_origin mov_origin : option (list Q))
         (stl : list ndarray) (return_format : string) (kwargs : Kw.dict)
         (r1 : list ndarray),
    Pipeline.loop St fix_ mov fs ms fix_mask mov_mask fix_origin mov_origin
      kwargs stl s1 [] = Ok r1 ->
    In "rigid"%string (Kw.keys kwargs) \/ In "rigid"%string (Kw.keys arguments) ->
    Pipeline.alignment_pipeline E St fix_ mov fs ms
      (s1 ++ ("rigid"%string, arguments) :: s2)
      fix_mask mov_mask fix_origin mov_origin stl return_format kwargs
    = Raise TypeError.
Proof.
  intros E St fix_ mov fs ms s1 s2 arguments fm mm fo mo stl fmt kwargs r1
         H1 Hkey.
  unfold Pipeline.alignment_pipeline.
  rewrite loop_app, H1. cbn [Py.bind Pipeline.loop].
  unfold Pipeline.align. cbn [String.eqb Ascii.eqb Bool.eqb].
  match goal with
  | |- context [Pipeline.has_key ?d "rigid"] =>
      assert (Hk : Pipeline.has_key d "rigid" = true)
  end.
  { apply has_key_in. apply in_keys_merge. right.
    apply in_keys_set. right. now apply in_keys_merge. }
  now rewrite Hk.
Qed.

Lemma pipeline_rigid_key_conflict_witness :
  Pipeline.alignment_pipeline (Demo.env_engine 1) Demo.stages
    Demo.image Demo.image [1; 1; 1]%Q [1; 1; 1]%Q
    ([] ++ ("rigid"%string, []) :: [])
    None None None None [] "flatten" [("rigid"%string, Kw.PBool true)]
  = Raise TypeError.
Proof.
  apply (pipeline_rigid_key_conflict (Demo.env_engine 1) Demo.stages
           Demo.image Demo.image [1; 1; 1]%Q [1; 1; 1]%Q
           [] [] [] None None None None [] "flatten"
           [("rigid"%string, Kw.PBool true)] []).
  - reflexivity.
  - left. left. reflexivity.
Defined.

(** X22: a return format that the pipeline does not know is not
    rejected.  All the steps are run, and when they run through the
    function returns [None]. *)
Theorem pipeline_unknown_format_returns_none :
  forall (E : Env) (St : Pipeline.stages) (fix_ mov : ndarray)
         (fs ms : list Q) (steps : list (string * Kw.dict))
         (fix_mask mov_mask : option ndarray)
         (fix_origin mov_origin : option (list Q))
         (stl : list ndarray) (return_format : string) (kwargs : Kw.dict)
         (l : list ndarray),
    ~ In return_format ["independent"; "compressed"; "flatten"]%string ->
    Pipeline.loop St fix_ mov fs ms fix_mask mov_mask fix_origin mov_origin
      kwargs stl steps [] = Ok l ->
    Pipeline.alignment_pipeline E St fix_ mov fs ms steps
      fix_mask mov_mask fix_origin mov_origin stl return_format kwargs
    = Ok Pipeline.ReturnsNone.
Proof.
  intros E St fix_ mov fs ms steps fm mm fo mo stl fmt kwargs l Hfmt Hl.
  unfold Pipeline.alignment_pipeline. rewrite Hl. cbn [Py.bind].
  assert (H1 : String.eqb fmt "independent" = false)
    by (apply String.eqb_neq; intro; apply Hfmt; subst; simpl; tauto).
  assert (H2 : String.eqb fmt "compressed" = false)
    by (apply String.eqb_neq; intro; apply Hfmt; subst; simpl; tauto).
  assert (H3 : String.eqb fmt "flatten" = false)
    by (apply String.eqb_neq; intro; apply Hfmt; subst; simpl; tauto).
  now rewrite H1, H2, H3.
Qed.

Lemma pipeline_unknown_format_returns_none_witness :
  Pipeline.alignment_pipeline (Demo.env_engine 1) Demo.stages
    Demo.image Demo.image [1; 1; 1]%Q [1; 1; 1]%Q
    [("affine", []); ("deform", [])]%string
    None None None None [] "flattened" []
  = Ok Pipeline.ReturnsNone.
Proof.
  apply (pipeline_unknown_format_returns_none (Demo.env_engine 1) Demo.stages
           Demo.image Demo.image [1; 1; 1]%Q [1; 1; 1]%Q
           [("affine", []); ("deform", [])]%string
           None None None None [] "flattened" []
           [eye 4; Demo.field_of Demo.image]).
  - simpl. intuition discriminate.
  - reflexivity.
Defined.

(** X23: the keyword arguments of a step.  The dictionary that the stage
    function of an ['affine'] step is called with binds
    [static_transform_list] to the caller's static transforms followed by
    the results of the earlier steps, whatever the step or the global
    arguments say under that key; under every other key the step's own
    dictionary wins over the global keyword arguments, and these win over
    the masks and origins given to the pipeline. *)
Theorem pipeline_argument_precedence :
  forall (St : Pipeline.stages) (fix_ mov : ndarray) (fs ms : list Q)
         (fix_mask mov_mask : option ndarray)
         (fix_origin mov_origin : option (list Q))
         (kwargs arguments : Kw.dict) (stl new_transforms : list ndarray)
         (rest : list (string * Kw.dict)),
    NoDup (Kw.keys kwargs) -> NoDup (Kw.keys arguments) ->
    exists d,
      Pipeline.loop St fix_ mov fs ms fix_mask mov_mask fix_origin mov_origin
        kwargs stl (("affine"%string, arguments) :: rest) new_transforms
      = (t <- Pipeline.call_affine St fix_ mov fs ms d;;
         Pipeline.loop St fix_ mov fs ms fix_mask mov_mask fix_origin mov_origin
           kwargs stl rest (new_transforms ++ [t])) /\
      Kw.get d "static_transform_list"
      = Some (Kw.PArrays (stl ++ new_transforms)) /\
      (forall k, k <> "static_transform_list"%string ->
         Kw.get d k
         = match Kw.get arguments k with
           | Some v => Some v
           | None =>
               match Kw.get kwargs k with
               | Some v => Some v
               | None =>
                   Kw.get (Pipeline.b fix_mask mov_mask fix_origin mov_origin) k
               end
           end).
Proof.
  intros St fix_ mov fs ms fm mm fo mo kwargs arguments stl nt rest Hk Ha.
  set (c := Kw.set (Kw.merge kwargs arguments) "static_transform_list"
              (Kw.PArrays (stl ++ nt))).
  assert (Hc : NoDup (Kw.keys c))
    by (apply nodup_keys_set, nodup_keys_merge, Hk).
  exists (Kw.merge (Pipeline.b fm mm fo mo) c).
  split; [reflexivity|]. split.
  - rewrite get_merge_nodup by exact Hc. unfold c. now rewrite get_set_same.
  - intros k Hne. rewrite get_merge_nodup by exact Hc. unfold c.
    rewrite get_set_other by exact Hne.
    rewrite get_merge_nodup by exact Ha.
    destruct (Kw.get arguments k); [reflexivity|].
    now destruct (Kw.get kwargs k).
Qed.

Lemma pipeline_argument_precedence_witness :
  exists d,
    Pipeline.loop Demo.stages Demo.image Demo.image [1; 1; 1]%Q [1; 1; 1]%Q
      (Some Demo.image) None None None
      [("metric", Kw.PStr "MI"); ("fix_mask", Kw.PNone)]%string [eye 4]
      (("affine", [("metric", Kw.PStr "C")]) :: [])%string [eye 4]
    = (t <- Pipeline.call_affine Demo.stages Demo.image Demo.image
              [1; 1; 1]%Q [1; 1; 1]%Q d;;
       Pipeline.loop Demo.stages Demo.image Demo.image [1; 1; 1]%Q [1; 1; 1]%Q
         (Some Demo.image) None None None
         [("metric", Kw.PStr "MI"); ("fix_mask", Kw.PNone)]%string [eye 4]
         [] ([eye 4] ++ [t])) /\
    Kw.get d "static_transform_list" = Some (Kw.PArrays ([eye 4] ++ [eye 4])) /\
    (forall k, k <> "static_transform_list"%string ->
       Kw.get d k
       = match Kw.get [("metric"%string, Kw.PStr "C")] k with
         | Some v => Some v
         | None =>
             match Kw.get [("metric", Kw.PStr "MI"); ("fix_mask", Kw.PNone)]%string k with
             | Some v => Some v
             | None => Kw.get (Pipeline.b (Some Demo.image) None None None) k
             end
         end).
Proof.
  apply (pipeline_argument_precedence Demo.stages Demo.image Demo.image
           [1; 1; 1]%Q [1; 1; 1]%Q (Some Demo.image) None None None
           [("metric", Kw.PStr "MI"); ("fix_mask", Kw.PNone)]%string
           [("metric"%string, Kw.PStr "C")] [eye 4] [eye 4] []).
  - unfold Kw.keys. simpl. repeat constructor; simpl; intuition discriminate.
  - unfold Kw.keys. simpl. repeat constructor; simpl; intuition discriminate.
Defined.

(** ** alignment_pipeline: the groups of the compressed format *)

Lemma adjacent_in {A : Type} (xs : list A) (p : A * A) :
  In p (adjacent xs) -> In (fst p) xs /\ In (snd p) xs.
Proof.
  revert p. induction xs as [|a [|b xs] IH]; intros p Hp; try contradiction.
  rewrite adjacent_cons2 in Hp. destruct Hp as [<-|Hp].
  - simpl. tauto.
  - destruct (IH p Hp) as [H1 H2]. split; now right.
Qed.

Lemma differing_axes_refl (u : list Z) : Spec.differing_axes u u = 0%nat.
Proof.
  unfold Spec.differing_axes, row_neq.
  induction u as [|a u IH]; simpl; [reflexivity|].
  now rewrite Z.eqb_refl.
Qed.

Lemma runs_of_one_shape (l : list ndarray) (s : list Z) :
  l <> [] -> (forall x, In x l -> shape x = s) -> Spec.runs l = [l].
Proof.
  induction l as [|x [|y l] IH]; intros Hne Hs; [congruence | reflexivity |].
  rewrite runs_cons2, IH; [|discriminate|intros z Hz; apply Hs; now right].
  rewrite (Hs x), (Hs y) by (simpl; tauto).
  now rewrite shape_eqb_refl.
Qed.

Lemma groups_of_one_shape (l : list ndarray) (s : list Z) :
  l <> [] -> (forall x, In x l -> shape x = s) -> Pipeline.groups l = [l].
Proof.
  intros Hne Hs. rewrite groups_are_runs; [now apply (runs_of_one_shape l s)| exact Hne |].
  right. apply Forall_forall. intros p Hp.
  apply adjacent_in in Hp. destruct Hp as [H1 H2].
  apply in_map_iff in H1, H2.
  destruct H1 as (x & Hx & Hxin), H2 as (y & Hy & Hyin).
  rewrite <- Hx, <- Hy, (Hs x Hxin), (Hs y Hyin), differing_axes_refl. lia.
Qed.

(** X24: results of one shape.  When the steps run through and all their
    results are of one shape (a pipeline of affine stages on a 3-d
    image, say), the compressed format composes them all in one call, as
    the flatten format does, and returns the one-element list of what
    the flatten format returns. *)
Theorem compressed_of_one_shape_is_flatten :
  forall (E : Env) (St : Pipeline.stages) (fix_ mov : ndarray)
         (fs ms : list Q) (steps : list (string * Kw.dict))
         (fix_mask mov_mask : option ndarray)
         (fix_origin mov_origin : option (list Q))
         (stl : list ndarray) (kwargs : Kw.dict)
         (l : list ndarray) (s : list Z),
    Pipeline.loop St fix_ mov fs ms fix_mask mov_mask fix_origin mov_origin
      kwargs stl steps [] = Ok l ->
    l <> [] ->
    (forall x, In x l -> shape x = s) ->
    Pipeline.alignment_pipeline E St fix_ mov fs ms steps
      fix_mask mov_mask fix_origin mov_origin stl "compressed" kwargs
    = match Pipeline.alignment_pipeline E St fix_ mov fs ms steps
              fix_mask mov_mask fix_origin mov_origin stl "flatten" kwargs
      with
      | Ok (Pipeline.Transform t) => Ok (Pipeline.Transforms [t])
      | other => other
      end.
Proof.
  intros E St fix_ mov fs ms steps fm mm fo mo stl kwargs l s Hl Hne Hs.
  unfold Pipeline.alignment_pipeline. rewrite Hl.
  cbn [Py.bind String.eqb Ascii.eqb Bool.eqb].
  unfold Pipeline.compressed. rewrite (groups_of_one_shape l s Hne Hs).
  cbn [mapM]. now destruct (compose_transform_list E l fs).
Qed.

Lemma compressed_of_one_shape_is_flatten_witness :
  Pipeline.alignment_pipeline (Demo.env_engine 1) Demo.stages
    Demo.image Demo.image [1; 1; 1]%Q [1; 1; 1]%Q
    [("ransac", []); ("affine", [])]%string
    None None None None [] "compressed" []
  = match Pipeline.alignment_pipeline (Demo.env_engine 1) Demo.stages
            Demo.image Demo.image [1; 1; 1]%Q [1; 1; 1]%Q
            [("ransac", []); ("affine", [])]%string
            None None None None [] "flatten" []
    with
    | Ok (Pipeline.Transform t) => Ok (Pipeline.Transforms [t])
    | other => other
    end.
Proof.
  apply (compressed_of_one_shape_is_flatten (Demo.env_engine 1) Demo.stages
           Demo.image Demo.image [1; 1; 1]%Q [1; 1; 1]%Q
           [("ransac", []); ("affine", [])]%string
           None None None None [] [] [eye 4; eye 4] [4; 4]).
  - reflexivity.
  - discriminate.
  - intros x [<-|[<-|[]]]; reflexivity.
Defined.

Lemma firstn_add {A : Type} (m k : nat) (l : list A) :
  firstn (m + k) l = firstn m l ++ firstn k (skipn m l).
Proof.
  revert l. induction m as [|m IH]; intro l; [reflexivity|].
  destruct l as [|x l]; simpl.
  - now rewrite firstn_nil.
  - now rewrite IH.
Qed.

Lemma slice_in_bounds {A : Type} (l : list A) (a b : Z) :
  0 <= a <= b -> b <= len l ->
  slice l a b = firstn (Z.to_nat b - Z.to_nat a) (skipn (Z.to_nat a) l).
Proof.
  intros Hab Hb. rewrite slice_nonneg by lia.
  now rewrite !Z.min_r by lia.
Qed.

Lemma slice_app {A : Type} (l : list A) (a b c : Z) :
  0 <= a <= b -> b <= c <= len l ->
  slice l a b ++ slice l b c = slice l a c.
Proof.
  intros Hab Hbc. rewrite !slice_in_bounds by lia.
  replace (Z.to_nat c - Z.to_nat a)%nat
    with ((Z.to_nat b - Z.to_nat a) + (Z.to_nat c - Z.to_nat b))%nat by lia.
  rewrite firstn_add, skipn_skipn.
  now replace (Z.to_nat b - Z.to_nat a + Z.to_nat a)%nat with (Z.to_nat b) by lia.
Qed.

(** The slices between neighbouring boundaries that do not decrease
    make up the slice between the first and the last boundary. *)
Lemma concat_slices {A : Type} (l : list A) (e : Z) (mid : list Z) :
  forall b0,
    0 <= b0 -> e <= len l ->
    StronglySorted Z.le (b0 :: mid ++ [e]) ->
    concat (map (fun ab => slice l (fst ab) (snd ab)) (adjacent (b0 :: mid ++ [e])))
    = slice l b0 e.
Proof.
  induction mid as [|m mid IH]; intros b0 H0 He Hs.
  - cbn. now rewrite app_nil_r.
  - cbn [app] in *. rewrite adjacent_cons2. cbn [map concat fst snd].
    inversion Hs as [|? ? Hs' Hall]. subst.
    inversion Hall as [|? ? Hb0m Hall']. subst.
    assert (Hme : m <= e).
    { inversion Hs' as [|? ? _ Hm]. subst. rewrite Forall_forall in Hm.
      apply Hm. apply in_or_app. right. now left. }
    rewrite IH by (try exact Hs'; lia).
    apply slice_app; lia.
Qed.

Lemma sorted_app_intro {A : Type} (R : A -> A -> Prop) (l1 l2 : list A) :
  StronglySorted R l1 -> StronglySorted R l2 ->
  (forall x y, In x l1 -> In y l2 -> R x y) ->
  StronglySorted R (l1 ++ l2).
Proof.
  induction 1 as [|a l1 Hs IH Hall]; intros H2 H12; [exact H2|].
  cbn [app]. constructor.
  - apply IH; [exact H2|]. intros x y Hx Hy. apply H12; [now right | exact Hy].
  - apply Forall_app. split; [exact Hall|].
    apply Forall_forall. intros y Hy. apply H12; [now left | exact Hy].
Qed.

Lemma sorted_constant (c : Z) (l : list Z) :
  (forall z, In z l -> z = c) -> StronglySorted Z.le l.
Proof.
  induction l as [|a l IH]; intro H; constructor.
  - apply IH. intros z Hz. apply H. now right.
  - apply Forall_forall. intros z Hz.
    rewrite (H a (or_introl eq_refl)), (H z (or_intror Hz)). lia.
Qed.

(** Row indices reported along a list come out in order, and below the
    length of the list. *)
Lemma reported_indices_sorted {P : Type} (f : nat * P -> list Z) (ps : list P) :
  (forall ip z, In z (f ip) -> z = Z.of_nat (fst ip)) ->
  forall k m,
    StronglySorted Z.le (flat_map f (combine (seq k m) ps)) /\
    (forall z, In z (flat_map f (combine (seq k m) ps)) ->
               Z.of_nat k <= z < Z.of_nat k + Z.of_nat (length ps)).
Proof.
  intro Hf. induction ps as [|p ps IH]; intros k m.
  - rewrite combine_nil. cbn. split; [constructor | tauto].
  - destruct m as [|m]; [cbn; split; [constructor | tauto]|].
    cbn [seq combine flat_map].
    destruct (IH (S k) m) as [Hs Hb].
    split.
    + apply sorted_app_intro.
      * apply (sorted_constant (Z.of_nat k)). intros z Hz.
        now rewrite (Hf _ _ Hz).
      * exact Hs.
      * intros x y Hx Hy. rewrite (Hf _ _ Hx). cbn [fst].
        specialize (Hb y Hy). lia.
    + intros z Hz. apply in_app_or in Hz. destruct Hz as [Hz|Hz].
      * rewrite (Hf _ _ Hz). cbn [fst length]. lia.
      * specialize (Hb z Hz). cbn [length]. lia.
Qed.

Lemma where_adjacent_differ_sorted (sa : shape_array) :
  let ts := match sa with Rows2D rows => rows | Tuples1D ts => ts end in
  StronglySorted Z.le (where_adjacent_differ sa) /\
  (forall z, In z (where_adjacent_differ sa) ->
             0 <= z < Z.of_nat (length (adjacent ts))).
Proof.
  destruct sa as [rows|ts]; cbn zeta; unfold where_adjacent_differ.
  - apply (reported_indices_sorted
             (fun ip => flat_map (fun b : bool => if b then [Z.of_nat (fst ip)] else [])
                                 (row_neq (fst (snd ip)) (snd (snd ip))))).
    intros ip z Hz. apply in_flat_map in Hz. destruct Hz as (b & _ & Hz).
    destruct b; [|contradiction]. destruct Hz as [<-|[]]. reflexivity.
  - apply (reported_indices_sorted
             (fun ip => if shape_eqb (fst (snd ip)) (snd (snd ip))
                        then [] else [Z.of_nat (fst ip)])).
    intros ip z Hz.
    destruct (shape_eqb (fst (snd ip)) (snd (snd ip))); [contradiction|].
    destruct Hz as [<-|[]]. reflexivity.
Qed.

Lemma adjacent_length {A : Type} (xs : list A) :
  (length (adjacent xs) <= length xs - 1)%nat.
Proof.
  unfold adjacent. rewrite length_combine.
  destruct xs as [|x xs]; [simpl; lia|]. cbn [tl length]. lia.
Qed.

Lemma sorted_weaken {A : Type} (R R' : A -> A -> Prop) (l : list A) :
  (forall a b, R a b -> R' a b) -> StronglySorted R l -> StronglySorted R' l.
Proof.
  intros H. induction 1 as [|a l Hs IH Hall]; constructor; [exact IH|].
  eapply Forall_impl; [|exact Hall]. intros b. apply H.
Qed.

(** The boundaries of the groups start at 0, end at the number of
    results and never decrease. *)
Lemma changes_sorted (l : list ndarray) :
  exists mid,
    Pipeline.changes l = 0 :: mid ++ [len l] /\
    StronglySorted Z.le (0 :: mid ++ [len l]).
Proof.
  unfold Pipeline.changes.
  set (sa := array_of_shapes (map shape l)).
  exists (map (fun i => i + 1) (where_adjacent_differ sa)).
  split; [reflexivity|].
  destruct (where_adjacent_differ_sorted sa) as [Hs Hb]. cbn zeta in Hb.
  assert (Hts : match sa with Rows2D rows => rows | Tuples1D ts => ts end
                = map shape l).
  { unfold sa, array_of_shapes. now destruct (same_length (map shape l)). }
  rewrite Hts in Hb.
  assert (Hbound : forall z, In z (where_adjacent_differ sa) ->
                             0 <= z /\ z + 1 <= len l).
  { intros z Hz. specialize (Hb z Hz).
    pose proof (adjacent_length (map shape l)) as Hlen.
    rewrite length_map in Hlen. unfold len. lia. }
  constructor.
  - apply sorted_snoc.
    + apply sorted_map. eapply sorted_weaken; [|exact Hs].
      intros a b Hab. cbv beta. lia.
    + apply Forall_forall. intros z Hz. apply in_map_iff in Hz.
      destruct Hz as (w & <- & Hw). now apply Hbound.
  - apply Forall_app. split.
    + apply Forall_forall. intros z Hz. apply in_map_iff in Hz.
      destruct Hz as (w & <- & Hw). specialize (Hbound w Hw). lia.
    + constructor; [unfold len; lia | constructor].
Qed.

(** X25: the compressed format loses nothing.  For every list of step
    results, the groups handed to the composer, one after the other,
    make up the list of results: every result is in one group, in its
    place. *)
Theorem compressed_groups_cover_the_results :
  forall (l : list ndarray), concat (Pipeline.groups l) = l.
Proof.
  intro l. unfold Pipeline.groups.
  destruct (changes_sorted l) as (mid & -> & Hs).
  rewrite concat_slices by (try exact Hs; lia).
  rewrite slice_in_bounds by (unfold len; lia).
  cbn [Z.to_nat skipn]. rewrite Nat.sub_0_r. unfold len.
  rewrite Nat2Z.id. apply firstn_all.
Qed.

(** ** Two more properties of the stages *)

Lemma sort_spots_returns (a : spots) (n : Z) :
  (forall row, In row a -> (4 <= length row)%nat) ->
  exists s, Ransac.sort_spots a n = Ok s.
Proof.
  intro H. unfold Ransac.sort_spots. rewrite (column_intensity a H).
  cbn [Py.bind]. eexists. reflexivity.
Qed.

(** X26: the feature stage is for 3-d images.  When 100 or more spots
    with an intensity column are at hand for each image and the spacing
    of the fixed image has neither three entries nor one, the conversion
    of the spot coordinates to physical units cannot be broadcast and the
    function raises [ValueError]; the default is not returned. *)
Theorem ransac_needs_three_axes :
  forall (E : Env) (fix_ mov : ndarray) (fs ms : list Q) (bs : Q * Q)
         (o : Ransac.options),
    let X := Ransac.prepare E fix_ mov fs ms o in
    let fspots := Ransac.get_fix_spots E X bs o in
    let mspots := Ransac.get_mov_spots E X bs o in
    100 <= len fspots -> 100 <= len mspots ->
    (forall row, In row fspots \/ In row mspots -> (4 <= length row)%nat) ->
    length (s_fix_spacing X) <> 1%nat ->
    length (s_fix_spacing X) <> 3%nat ->
    Ransac.feature_point_ransac_affine_align E fix_ mov fs ms bs o
    = Raise ValueError.
Proof.
  intros E fix_ mov fs ms bs o X fspots mspots Hf Hm Hrows H1 H3.
  unfold Ransac.feature_point_ransac_affine_align.
  fold X. fold fspots. fold mspots.
  apply Z.ltb_ge in Hf, Hm. rewrite Hf, Hm.
  unfold Ransac.matched_spots.
  destruct (sort_spots_returns fspots (Ransac.nspots o)) as [fs1 ->];
    [intros row Hrow; apply Hrows; now left|].
  destruct (sort_spots_returns mspots (Ransac.nspots o)) as [ms1 ->];
    [intros row Hrow; apply Hrows; now right|].
  cbn [Py.bind]. unfold Ransac.to_physical at 1.
  destruct (s_fix_spacing X) as [|a [|b [|c [|d t]]]]; simpl in *;
    congruence.
Qed.

Lemma ransac_needs_three_axes_witness :
  Ransac.feature_point_ransac_affine_align Demo.env_few_matches
    Demo.image2d Demo.image2d [1; 1]%Q [1; 1]%Q (1, 4)%Q Ransac.defaults
  = Raise ValueError.
Proof.
  apply (ransac_needs_three_axes Demo.env_few_matches
           Demo.image2d Demo.image2d [1; 1]%Q [1; 1]%Q (1, 4)%Q Ransac.defaults).
  - vm_compute. discriminate.
  - vm_compute. discriminate.
  - intros row [H|H]; vm_compute in H;
      repeat (destruct H as [<-|H]; [simpl; lia|]); contradiction.
  - simpl. lia.
  - simpl. lia.
Defined.

(** The scores of the table with the engine metric, row by row. *)
Lemma search_engine_scores_by_row (E : Env) (g : nat -> R) (fix_ mov : ndarray)
  (fs ms : list Q) (n : nat) (o : RandomSearch.options)
  (params : list (list xreal)) (center : list Q) :
  ndim fix_ <> 2 ->
  RandomSearch.use_patch_mutual_information o = false ->
  RandomSearch.generate_params g n
    (RandomSearch.in_max_translation (RandomSearch.generalize_to_3d fix_ mov fs ms o))
    (RandomSearch.in_max_rotation (RandomSearch.generalize_to_3d fix_ mov fs ms o))
    (RandomSearch.in_max_scale (RandomSearch.generalize_to_3d fix_ mov fs ms o))
    (RandomSearch.in_max_shear (RandomSearch.generalize_to_3d fix_ mov fs ms o))
  = Ok params ->
  RandomSearch.center_of
    (RandomSearch.in_fix (RandomSearch.generalize_to_3d fix_ mov fs ms o))
    (RandomSearch.in_fix_spacing (RandomSearch.generalize_to_3d fix_ mov fs ms o))
  = Ok center ->
  let I := RandomSearch.generalize_to_3d fix_ mov fs ms o in
  let ab := format_static_transform_data E (RandomSearch.static_transform_list o)
              (RandomSearch.in_fix I) (RandomSearch.in_fix_spacing I)
              (RandomSearch.in_fix_origin I) in
  let X := apply_alignment_spacing E (RandomSearch.in_fix I) (RandomSearch.in_mov I)
             (RandomSearch.in_fix_mask I) (RandomSearch.in_mov_mask I)
             (RandomSearch.in_fix_spacing I) (RandomSearch.in_mov_spacing I)
             (RandomSearch.alignment_spacing o) in
  let mS := RandomSearch.configure_search_irm E o I X (fst ab) (snd ab) in
  let score := fun p =>
    match RandomSearch.score_affine_irm E (fst mS) (snd mS)
            (physical_parameters_to_affine_matrix_3d E p center) with
    | Ok s => s
    | Raise _ => RandomSearch.WORST_POSSIBLE_SCORE
    end in
  RandomSearch.random_affine_search E g fix_ mov fs ms n o
  = (best <- RandomSearch.top_results params (map score params)
               (RandomSearch.nreturn o);;
     Ok (map (fun p => physical_parameters_to_affine_matrix_3d E p center) best)).
Proof.
  intros H3d Hirm Hp Hc I ab X mS score.
  unfold RandomSearch.random_affine_search.
  rewrite Hp, Hc. cbn [Py.bind].
  rewrite (sample_3d E fix_ mov fs ms o H3d). cbn [Py.bind]. rewrite Hirm.
  fold I. fold ab. fold X. fold mS.
  rewrite (mapM_Ok _ score); [reflexivity|].
  intros p _. subst score. cbv beta.
  unfold RandomSearch.score_affine_irm, try_except.
  now destruct (MetricEvaluate E _ _ _).
Qed.

(** X27: the search never does worse than the identity.  On images that
    are not 2-d, with the engine metric and
    [1 <= nreturn <= random_iterations], the first matrix
    returned is the matrix of a row whose score is the lowest of all the
    rows; the identity row is one of them, so the first matrix scores no
    worse than the identity.  The score of a row is the value of
    [MetricEvaluate], or the worst possible score where it raises. *)
Theorem search_best_is_no_worse_than_identity :
  forall (E : Env) (g : nat -> R) (fix_ mov : ndarray) (fs ms : list Q)
         (n : nat) (o : RandomSearch.options)
         (params : list (list xreal)) (center : list Q),
    let I := RandomSearch.generalize_to_3d fix_ mov fs ms o in
    let ab := format_static_transform_data E (RandomSearch.static_transform_list o)
                (RandomSearch.in_fix I) (RandomSearch.in_fix_spacing I)
                (RandomSearch.in_fix_origin I) in
    let X := apply_alignment_spacing E (RandomSearch.in_fix I) (RandomSearch.in_mov I)
               (RandomSearch.in_fix_mask I) (RandomSearch.in_mov_mask I)
               (RandomSearch.in_fix_spacing I) (RandomSearch.in_mov_spacing I)
               (RandomSearch.alignment_spacing o) in
    let mS := RandomSearch.configure_search_irm E o I X (fst ab) (snd ab) in
    let score := fun p =>
      match RandomSearch.score_affine_irm E (fst mS) (snd mS)
              (physical_parameters_to_affine_matrix_3d E p center) with
      | Ok s => s
      | Raise _ => RandomSearch.WORST_POSSIBLE_SCORE
      end in
    ndim fix_ <> 2 ->
    RandomSearch.use_patch_mutual_information o = false ->
    RandomSearch.generate_params g n (RandomSearch.in_max_translation I)
      (RandomSearch.in_max_rotation I) (RandomSearch.in_max_scale I)
      (RandomSearch.in_max_shear I) = Ok params ->
    RandomSearch.center_of (RandomSearch.in_fix I)
      (RandomSearch.in_fix_spacing I) = Ok center ->
    1 <= RandomSearch.nreturn o <= Z.of_nat n ->
    exists best rest,
      RandomSearch.random_affine_search E g fix_ mov fs ms n o
      = Ok (physical_parameters_to_affine_matrix_3d E best center :: rest) /\
      In best params /\
      In RandomSearch.identity_params params /\
      (forall p, In p params -> (score best <= score p)%Q).
Proof.
  intros E g fix_ mov fs ms n o params center I ab X mS score
         H3d Hirm Hp Hc Hk.
  pose proof (search_engine_scores_by_row E g fix_ mov fs ms n o params center
                H3d Hirm Hp Hc) as Hrun.
  cbv zeta in Hrun. fold I ab X mS score in Hrun. rewrite Hrun. clear Hrun.
  pose proof (generate_params_length _ _ _ _ _ _ _ Hp) as Hlp.
  set (scores := map score params).
  assert (Hls : length scores = S n) by (unfold scores; now rewrite length_map).
  rewrite top_results_closed
    by (try (unfold len; rewrite Hls; lia); congruence).
  cbn [Py.bind].
  pose proof (argsort_perm scores) as Hperm.
  pose proof (argsort_sorted scores) as Hsorted.
  pose proof (argsort_length scores) as Hal.
  destruct (argsort scores) as [|i0 tl]; [simpl in Hal; lia|].
  assert (Hi0 : (i0 < length params)%nat).
  { assert (In i0 (seq 0 (length scores)))
      by (apply (Permutation_in _ Hperm); now left).
    apply in_seq in H. lia. }
  destruct (nth_error params i0) as [best|] eqn:Hbest;
    [|apply nth_error_None in Hbest; lia].
  replace (Z.to_nat (RandomSearch.nreturn o))
    with (S (Z.to_nat (RandomSearch.nreturn o - 1))) by lia.
  cbn [firstn]. unfold take. cbn [flat_map]. rewrite Hbest. cbn [app map].
  eexists best, _. split; [reflexivity|].
  split; [eapply nth_error_In; exact Hbest|].
  split.
  { eapply nth_error_In. exact (first_row_is_identity _ _ _ _ _ _ _ Hp). }
  assert (Hkey : forall j p, nth_error params j = Some p ->
                             nth j scores 0%Q = score p).
  { intros j p Hj. apply nth_error_nth. unfold scores.
    now rewrite nth_error_map, Hj. }
  intros p Hin. apply In_nth_error in Hin. destruct Hin as [j Hj].
  rewrite <- (Hkey _ _ Hbest), <- (Hkey _ _ Hj).
  assert (Hjin : In j (i0 :: tl)).
  { apply (Permutation_in _ (Permutation_sym Hperm)). apply in_seq.
    assert (j < length params)%nat by (apply nth_error_Some; congruence).
    lia. }
  destruct Hjin as [<-|Hjin]; [apply Qle_refl|].
  inversion Hsorted as [|? ? _ Hall]. subst.
  rewrite Forall_forall in Hall. now apply Hall.
Qed.

Lemma search_best_is_no_worse_than_identity_witness :
  exists best rest,
    RandomSearch.random_affine_search (Demo.env_engine 1) Demo.halves
      Demo.image Demo.image [1; 1; 1]%Q [1; 1; 1]%Q 2 RandomSearch.defaults
    = Ok (physical_parameters_to_affine_matrix_3d (Demo.env_engine 1) best
            [2 # 2; 2 # 2; 2 # 2]%Q :: rest) /\
    In best (repeat RandomSearch.identity_params 3) /\
    In RandomSearch.identity_params (repeat RandomSearch.identity_params 3).
Proof.
  destruct (search_best_is_no_worse_than_identity (Demo.env_engine 1) Demo.halves
              Demo.image Demo.image [1; 1; 1]%Q [1; 1; 1]%Q 2 RandomSearch.defaults
              (repeat RandomSearch.identity_params 3) [2 # 2; 2 # 2; 2 # 2]%Q)
    as (best & rest & H1 & H2 & H3 & _).
  - discriminate.
  - reflexivity.
  - reflexivity.
  - reflexivity.
  - simpl. lia.
  - exists best, rest. split; [exact H1|]. split; [exact H2 | exact H3].
Defined.
